(** * cruntils.gis: a shallow embedding of the geodetic helpers

    The Python module [cruntils/gis.py] is embedded function by function.
    Python [float] values are modelled by the exact numbers they stand for:
    rationals ([Q]) for the functions that only use field operations,
    truncation and rounding (so that they run inside Rocq), and real numbers
    ([R]) for the functions that call [math.sin], [math.atan] and friends.
    Rounding errors of binary64 arithmetic are not part of this model, nor
    is its finite range.  Where a property is stated to a tolerance, or for
    arguments of a bounded size or at a distance from a singular point, the
    bound is chosen with the binary64 code in mind, whose rounding the model
    leaves out.
    Python exceptions are modelled by a small error monad. *)

From Stdlib Require Import ZArith QArith Qabs Qround Lia List String Ascii Bool.
From Stdlib Require Lqa.
From Stdlib Require Import Lra.
From Stdlib Require Import Reals Qreals Rtrigo_alt Ratan Rpower R_Ifp.
Import ListNotations.

(** ** The Python run time that the module relies on *)

Module Py.

(** Exceptions that the embedded code can raise. *)
Inductive exn : Type :=
| IndexError
| ValueError
| TypeError
| AttributeError
| ZeroDivisionError
| UnboundLocalError
| OverflowError.

Inductive result (A : Type) : Type :=
| Ok (a : A)
| Raise (e : exn).

Arguments Ok {A} a.
Arguments Raise {A} e.

Definition bind {A B : Type} (c : result A) (k : A -> result B) : result B :=
  match c with
  | Ok a => k a
  | Raise e => Raise e
  end.

(** A value passed where a member of an [Enum] class is expected: Python
    does not stop a caller from passing any other object. *)
Inductive enum_arg (E : Type) : Type :=
| Member (e : E)
| Foreign (repr : string).

Arguments Member {E} e.
Arguments Foreign {E} repr.

(** A local variable that was assigned on some paths only. *)
Definition read_local {A : Type} (v : option A) : result A :=
  match v with
  | Some a => Ok a
  | None => Raise UnboundLocalError
  end.

(** [seq[i]] on a Python list: negative indices count from the end. *)
Definition index {A : Type} (l : list A) (i : Z) : result A :=
  let n := Z.of_nat (List.length l) in
  let j := (if i <? 0 then i + n else i)%Z in
  if ((j <? 0) || (n <=? j))%Z then Raise IndexError
  else match nth_error l (Z.to_nat j) with
       | Some a => Ok a
       | None => Raise IndexError
       end.

(** *** Numbers *)

(** [int(x)] on a float truncates towards zero. *)
Definition int (x : Q) : Z := Z.quot (Qnum x) (Zpos (Qden x)).

(** Round half to even, the tie rule of [round]. *)
Definition round_half_even (x : Q) : Z :=
  let f := Qfloor x in
  match Qcompare (x - inject_Z f) (1 # 2) with
  | Lt => f
  | Gt => (f + 1)%Z
  | Eq => if Z.even f then f else (f + 1)%Z
  end.

(** [round(x, ndigits)]. *)
Definition round (x : Q) (ndigits : nat) : Q :=
  inject_Z (round_half_even (x * inject_Z (10 ^ Z.of_nat ndigits)))
  / inject_Z (10 ^ Z.of_nat ndigits).

(** [x % m] on floats: the result has the sign of [m]. *)
Definition fmod (x m : Q) : Q := x - m * inject_Z (Qfloor (x / m)).

(** *** Strings *)

Definition digit_char (d : Z) : ascii := ascii_of_N (Z.to_N (48 + d)).

(** Decimal digits of a natural number, most significant first. *)
Fixpoint digits_fuel (fuel : nat) (n : Z) (acc : string) : string :=
  match fuel with
  | O => acc
  | S fuel' =>
      let acc' := String (digit_char (n mod 10)) acc in
      if (n <? 10)%Z then acc' else digits_fuel fuel' (n / 10) acc'
  end.

Definition digits (n : Z) : string :=
  digits_fuel (S (Z.to_nat (Z.log2 n))) n EmptyString.

(** [f"{z}"] for an [int]. *)
Definition str_int (z : Z) : string :=
  if (z <? 0)%Z then String "-" (digits (- z)) else digits z.

(** [s.rjust(width, fill)]. *)
Fixpoint replicate (n : nat) (c : ascii) : string :=
  match n with
  | O => EmptyString
  | S n' => String c (replicate n' c)
  end.

Definition rjust (s : string) (width : nat) (fill : ascii) : string :=
  (replicate (width - String.length s) fill ++ s)%string.

(** Dropping the zeros that end a digit string, keeping one digit. *)
Fixpoint strip_zeros (s : string) : string :=
  match s with
  | EmptyString => EmptyString
  | String c s' =>
      match strip_zeros s' with
      | EmptyString => if Ascii.eqb c "0" then EmptyString else String c EmptyString
      | t => String c t
      end
  end.

Definition frac_places : nat := 16.

(** [f"{x}"] for a float whose decimal expansion is short: positional
    notation, at least one digit after the point, no zeros after the last
    significant digit.  This is what [repr] prints for the float nearest to a
    decimal of at most 15 significant digits in the range [1e-4, 1e16) and for
    zero (exponent notation, used outside of that range, is not modelled). *)
Definition str_float (x : Q) : string :=
  let a := Qabs x in
  let ip := Qfloor a in
  let fr := Qfloor ((a - inject_Z ip) * inject_Z (10 ^ Z.of_nat frac_places)) in
  let fs := strip_zeros (rjust (digits fr) frac_places "0") in
  let body := (digits ip ++ "." ++ (if String.eqb fs "" then "0" else fs))%string in
  if Qlt_le_dec x 0 then String "-" body else body.

(** [s.split(sep)] for a one character separator. *)
Fixpoint split (sep : ascii) (s : string) : list string :=
  match s with
  | EmptyString => [EmptyString]
  | String c s' =>
      if Ascii.eqb c sep then EmptyString :: split sep s'
      else match split sep s' with
           | [] => [String c EmptyString]
           | w :: ws => String c w :: ws
           end
  end.

(** Strings made of characters that all pass a test. *)
Fixpoint all_chars (test : ascii -> bool) (s : string) : bool :=
  match s with
  | EmptyString => true
  | String c s' => test c && all_chars test s'
  end.

Definition digit_val (c : ascii) : option Z :=
  let n := Z.of_N (N_of_ascii c) in
  if ((48 <=? n) && (n <=? 57))%Z then Some (n - 48)%Z else None.

Definition is_digit (c : ascii) : bool :=
  match digit_val c with Some _ => true | None => false end.

Definition not_space (c : ascii) : bool := negb (Ascii.eqb c " ").

(** Value of a non-empty digit string read after the digits worth [acc]. *)
Fixpoint read_digits (s : string) (acc : Z) : option Z :=
  match s with
  | EmptyString => Some acc
  | String c s' =>
      match digit_val c with
      | Some d => read_digits s' (10 * acc + d)
      | None => None
      end
  end.

(** Splitting a numeral at its decimal point. *)
Fixpoint cut_point (s : string) : string * option string :=
  match s with
  | EmptyString => (EmptyString, None)
  | String c s' =>
      if Ascii.eqb c "." then (EmptyString, Some s')
      else let (i, f) := cut_point s' in (String c i, f)
  end.

Definition read_unsigned (s : string) : option Q :=
  let (i, f) := cut_point s in
  match i with
  | EmptyString => None
  | _ =>
      match read_digits i 0, f with
      | Some iv, None => Some (inject_Z iv)
      | Some iv, Some fs =>
          match read_digits fs 0 with
          | Some fv =>
              Some (inject_Z iv
                    + inject_Z fv / inject_Z (10 ^ Z.of_nat (String.length fs)))
          | None => None
          end
      | None, _ => None
      end
  end.

(** [float(s)] on positional decimal numerals: an optional sign, digits, and
    an optional point followed by digits.  The other spellings that Python
    reads (exponents, a numeral that starts or ends with the point, [inf],
    [nan], underscores, blanks around the numeral) do not occur in the
    strings that this module builds and are not modelled: on them this
    function raises ValueError.  A property on numerals that come from
    outside takes as a hypothesis that this function reads them. *)
Definition float (s : string) : result Q :=
  let r := match s with
           | String c s' =>
               if Ascii.eqb c "-" then option_map Qopp (read_unsigned s')
               else if Ascii.eqb c "+" then read_unsigned s'
               else read_unsigned s
           | EmptyString => None
           end in
  match r with
  | Some q => Ok q
  | None => Raise ValueError
  end.

End Py.

Import Py.

Notation "x <- c ;; k" := (Py.bind c (fun x => k))
  (at level 61, c at next level, right associativity).

(** ** Enumerations of the module *)

Inductive ELatLon : Type := Lat | Lon.

Inductive ECoordFormat : Type := LatLonRad | LatLonDd | LatLonDms.

Inductive EReferenceEllipsoid : Type := Airy1830 | Wgs84.

(** ** Degrees, minutes, seconds *)

Definition DmsToDd (dms_str : string) : result Q :=
  let parts := Py.split " " dms_str in
  p0 <- Py.index parts 0 ;;
  deg <- Py.float p0 ;;
  p1 <- Py.index parts 1 ;;
  m <- Py.float p1 ;;
  let min := m / 60 in
  p2 <- Py.index parts 2 ;;
  s <- Py.float p2 ;;
  let sec := s / 3600 in
  let dd := deg + min + sec in
  p3 <- Py.index parts 3 ;;
  Ok (if (String.eqb p3 "S" || String.eqb p3 "W")%bool then dd * -1 else dd).

Definition DdToDms (dd : Q) (lat_or_lon : enum_arg ELatLon) : result string :=
  let dd_abs := Qabs dd in
  let deg := Py.int dd_abs in
  let min := Py.int ((dd_abs - inject_Z deg) * 60) in
  let sec := (dd_abs - inject_Z deg - (inject_Z min / 60)) * 3600 in
  let deg_str :=
    match lat_or_lon with
    | Member Lat => Some (Py.rjust (Py.str_int deg) 2 "0")
    | Member Lon => Some (Py.rjust (Py.str_int deg) 3 "0")
    | Foreign _ => None
    end in
  let suffix :=
    match lat_or_lon with
    | Member Lat => Some (if Qlt_le_dec dd 0 then "S" else "N")%string
    | Member Lon => Some (if Qlt_le_dec dd 0 then "W" else "E")%string
    | Foreign _ => None
    end in
  d <- Py.read_local deg_str ;;
  x <- Py.read_local suffix ;;
  Ok (d ++ " " ++ Py.str_int min ++ " " ++ Py.str_float (Py.round sec 4)
        ++ " " ++ x)%string.

Definition LatDdToDms (dd : Q) : result string := DdToDms dd (Member Lat).

Definition LonDdToDms (dd : Q) : result string := DdToDms dd (Member Lon).

Definition LatLonDdToDms (lat_dd lon_dd : Q) : result (string * string) :=
  lat_dms <- DdToDms lat_dd (Member Lat) ;;
  lon_dms <- DdToDms lon_dd (Member Lon) ;;
  Ok (lat_dms, lon_dms).

(** ** EGM96 geoid heights *)

(** Division and remainder of floats raise on a zero divisor. *)
Definition qdiv (x y : Q) : result Q :=
  if Qeq_bool y 0 then Raise ZeroDivisionError else Ok (x / y).

Definition qmod (x m : Q) : result Q :=
  if Qeq_bool m 0 then Raise ZeroDivisionError else Ok (Py.fmod x m).

(** The state of an [Egm] object.  The grid file [EGM96_WW_15M_GH.GRD] is not
    part of the sources: its text is an argument of the constructor. *)
Record Egm : Type := mkEgm {
  Egm96GridHeights : list (list Q);
  StepSize : Q
}.

Definition newline : ascii := ascii_of_nat 10.

(** The values of one line, appended to the row under construction. *)
Fixpoint append_floats (line_parts : list string) (current_row : list Q)
  : result (list Q) :=
  match line_parts with
  | [] => Ok current_row
  | value :: rest =>
      v <- Py.float value ;;
      append_floats rest (current_row ++ [v])
  end.

(** The loop of [LoadData] over the enumerated lines of the file. *)
Fixpoint load_lines (lines : list string) (index : nat)
    (current_row : list Q) (heights : list (list Q)) : result (list (list Q)) :=
  match lines with
  | [] => Ok heights
  | line :: rest =>
      if String.eqb line "" then load_lines rest (S index) current_row heights
      else if Nat.eqb index 0 then load_lines rest (S index) current_row heights
      else
        let line_parts :=
          filter (fun w => negb (String.eqb w "")) (Py.split " " line) in
        row <- append_floats line_parts current_row ;;
        if Nat.eqb (List.length line_parts) 1
        then load_lines rest (S index) [] (heights ++ [row])
        else load_lines rest (S index) row heights
  end.

Definition LoadData (data : string) : result (list (list Q)) :=
  heights <- load_lines (Py.split newline data) 0 [] [] ;;
  Ok (rev heights).

(** [Egm.__init__], given the text of the grid file. *)
Definition Egm_init (data : string) : result Egm :=
  heights <- LoadData data ;;
  Ok (mkEgm heights 0.25).

Definition GetHeight (self : Egm) (lat lon : Q) : result Q :=
  let x := lon in
  let y := lat in
  xr <- qmod x (StepSize self) ;;
  let x1 := x - xr in
  let x2 := x1 + StepSize self in
  yr <- qmod y (StepSize self) ;;
  let y1 := y - yr in
  let y2 := y1 + StepSize self in
  iy1 <- qdiv y1 (StepSize self) ;;
  row <- Py.index (Egm96GridHeights self) (Py.int iy1) ;;
  ix1 <- qdiv x1 (StepSize self) ;;
  q11 <- Py.index row (Py.int ix1) ;;
  iy2 <- qdiv y2 (StepSize self) ;;
  row <- Py.index (Egm96GridHeights self) (Py.int iy2) ;;
  ix1 <- qdiv x1 (StepSize self) ;;
  q12 <- Py.index row (Py.int ix1) ;;
  iy1 <- qdiv y1 (StepSize self) ;;
  row <- Py.index (Egm96GridHeights self) (Py.int iy1) ;;
  ix2 <- qdiv x2 (StepSize self) ;;
  q21 <- Py.index row (Py.int ix2) ;;
  iy2 <- qdiv y2 (StepSize self) ;;
  row <- Py.index (Egm96GridHeights self) (Py.int iy2) ;;
  ix2 <- qdiv x2 (StepSize self) ;;
  q22 <- Py.index row (Py.int ix2) ;;
  wa <- qdiv (x2 - x) (x2 - x1) ;;
  wb <- qdiv (x - x1) (x2 - x1) ;;
  let xy1 := (wa * q11) + (wb * q21) in
  wa <- qdiv (x2 - x) (x2 - x1) ;;
  wb <- qdiv (x - x1) (x2 - x1) ;;
  let xy2 := (wa * q12) + (wb * q22) in
  wc <- qdiv (y2 - y) (y2 - y1) ;;
  wd <- qdiv (y - y1) (y2 - y1) ;;
  let yx := (wc * xy1) + (wd * xy2) in
  Ok (Py.round yx 2).

(** The table of an [Egm] object: number of rows, number of columns (of the
    first row), and the property that every row has that many columns. *)
Definition grid_rows (self : Egm) : Z :=
  Z.of_nat (List.length (Egm96GridHeights self)).

Definition grid_cols (self : Egm) : Z :=
  Z.of_nat (List.length (hd [] (Egm96GridHeights self))).

Definition rectangular (self : Egm) : Prop :=
  Forall (fun row => Z.of_nat (List.length row) = grid_cols self)
    (Egm96GridHeights self).

(** The range that the table covers: from 0 up to the last grid line, in
    both directions. *)
Definition covered (self : Egm) (lat lon : Q) : Prop :=
  (0 <= lat <= inject_Z (grid_rows self - 1) * StepSize self
   /\ 0 <= lon <= inject_Z (grid_cols self - 1) * StepSize self)%Q.

(** One node of the table, [heights[i][j]]. *)
Definition lookup (heights : list (list Q)) (i j : Z) : result Q :=
  row <- Py.index heights i ;; Py.index row j.

(** A table of three rows and three columns, covering 0 to 0.5 degrees. *)
Definition small_table : Egm := mkEgm [[1; 2; 3]; [4; 5; 6]; [7; 8; 9]] 0.25.

(** ** Grid references *)

Definition byte (n : Z) : ascii := ascii_of_N (Z.to_N n).

(** The UTF-8 bytes of a code point; the strings of this development hold
    ASCII text as it is. *)
Definition utf8 (i : Z) : string :=
  (if i <? 128 then String (byte i) ""
   else if i <? 2048 then
     String (byte (192 + i / 64)) (String (byte (128 + i mod 64)) "")
   else if i <? 65536 then
     String (byte (224 + i / 4096))
       (String (byte (128 + (i / 64) mod 64))
          (String (byte (128 + i mod 64)) ""))
   else
     String (byte (240 + i / 262144))
       (String (byte (128 + (i / 4096) mod 64))
          (String (byte (128 + (i / 64) mod 64))
             (String (byte (128 + i mod 64)) ""))))%Z.

(** [chr(i)].  CPython converts the argument to a C [int] first, which
    fails with OverflowError outside 32 bits, and then checks it against
    the range of code points. *)
Definition chr (i : Z) : result string :=
  if ((i <? -2147483648) || (2147483647 <? i))%Z then Raise OverflowError
  else if ((i <? 0) || (1114111 <? i))%Z then Raise ValueError
  else Ok (utf8 i).

(** [ord(c)]. *)
Definition ord (c : ascii) : Z := Z.of_N (N_of_ascii c).

(** [math.floor(x / math.pow(10, 5 - (digits / 2)))] for a float [x] that is
    not negative and an int [digits].  Twice the exponent is the whole number
    [10 - digits].  When that is even the power is a rational number.  When it
    is odd the power is the square root of [10 ^ (10 - digits)], and the floor
    of the quotient is the whole square root of the floor of
    [x * x / 10 ^ (10 - digits)]. *)
Definition floor_over_power (x : Q) (digits : Z) : Z :=
  let h := (10 - digits)%Z in
  if Z.even h then Qfloor (x / Qpower 10 (h / 2))
  else Z.sqrt (Qfloor (x * x / Qpower 10 h)).

Definition NorthingsEastingsToGrid (ntings etings : Q) (digits : Z)
  : result string :=
  let e100km := Qfloor (etings / 100000) in
  let n100km := Qfloor (ntings / 100000) in
  let l1 := ((19 - n100km) - (19 - n100km) mod 5
             + Qfloor (inject_Z (e100km + 10) / 5))%Z in
  let l2 := ((19 - n100km) * 5 mod 25 + e100km mod 5)%Z in
  let l1 := if (7 <? l1)%Z then (l1 + 1)%Z else l1 in
  let l2 := if (7 <? l2)%Z then (l2 + 1)%Z else l2 in
  c1 <- chr (l1 + ord "A") ;;
  c2 <- chr (l2 + ord "A") ;;
  let letter_pair := (c1 ++ c2)%string in
  let e := floor_over_power (Py.fmod etings 100000) digits in
  let n := floor_over_power (Py.fmod ntings 100000) digits in
  let e := Py.rjust (Py.str_int e) (Z.to_nat (Py.int (inject_Z digits / 2))) "0" in
  let n := Py.rjust (Py.str_int n) (Z.to_nat (Py.int (inject_Z digits / 2))) "0" in
  Ok (letter_pair ++ " " ++ e ++ " " ++ n)%string.

(** ** Notions on tables, strings and grid references *)

(** The weighted mean that [GetHeight] computes from the four nodes
    around [(lon, lat)]. *)
Definition bilinear (lat lon q11 q12 q21 q22 : Q) : Q :=
  let x1 := lon - Py.fmod lon 0.25 in
  let x2 := x1 + 0.25 in
  let y1 := lat - Py.fmod lat 0.25 in
  let y2 := y1 + 0.25 in
  let xy1 := (((x2 - lon) / (x2 - x1)) * q11) + (((lon - x1) / (x2 - x1)) * q21) in
  let xy2 := (((x2 - lon) / (x2 - x1)) * q12) + (((lon - x1) / (x2 - x1)) * q22) in
  (((y2 - lat) / (y2 - y1)) * xy1) + (((lat - y1) / (y2 - y1)) * xy2).

(** The text that [DdToDms] writes before the hemisphere letter. *)
Definition dms_body (dd : Q) (width : nat) : string :=
  let dd_abs := Qabs dd in
  let deg := Py.int dd_abs in
  let min := Py.int ((dd_abs - inject_Z deg) * 60) in
  let sec := (dd_abs - inject_Z deg - (inject_Z min / 60)) * 3600 in
  (Py.rjust (Py.str_int deg) width "0" ++ " " ++ Py.str_int min ++ " "
   ++ Py.str_float (Py.round sec 4) ++ " ")%string.

(** The two letters of a 100 km square, as [NorthingsEastingsToGrid]
    computes them. *)
Definition letter_pair (e100km n100km : Z) : result string :=
  let l1 := ((19 - n100km) - (19 - n100km) mod 5
             + Qfloor (inject_Z (e100km + 10) / 5))%Z in
  let l2 := ((19 - n100km) * 5 mod 25 + e100km mod 5)%Z in
  let l1 := if (7 <? l1)%Z then (l1 + 1)%Z else l1 in
  let l2 := if (7 <? l2)%Z then (l2 + 1)%Z else l2 in
  c1 <- chr (l1 + ord "A") ;;
  c2 <- chr (l2 + ord "A") ;;
  Ok (c1 ++ c2)%string.

(** The 100 km squares of the national grid: 7 columns and 13 rows. *)
Definition squares : list (Z * Z) :=
  list_prod (map Z.of_nat (seq 0 7)) (map Z.of_nat (seq 0 13)).

Definition is_capital (c : ascii) : bool :=
  ((ord "A" <=? ord c) && (ord c <=? ord "Z"))%Z.

(** The letters of a square are a capital among H, J, N, O, S, T followed by
    a capital other than I. *)
Definition good_letters (p : Z * Z) : bool :=
  match letter_pair (fst p) (snd p) with
  | Ok (String c1 (String c2 EmptyString)) =>
      existsb (Ascii.eqb c1) ["H"; "J"; "N"; "O"; "S"; "T"]%char
      && is_capital c2 && negb (Ascii.eqb c2 "I")
  | _ => false
  end.

Definition same_letters (p q : Z * Z) : bool :=
  match letter_pair (fst p) (snd p), letter_pair (fst q) (snd q) with
  | Ok s, Ok t => String.eqb s t
  | _, _ => false
  end.

Definition same_square (p q : Z * Z) : bool :=
  (Z.eqb (fst p) (fst q) && Z.eqb (snd p) (snd q))%bool.

(** [sep.join(words)] for a one character separator. *)
Fixpoint join (sep : ascii) (words : list string) : string :=
  match words with
  | [] => EmptyString
  | w :: ws =>
      match ws with
      | [] => w
      | _ => (w ++ String sep (join sep ws))%string
      end
  end.

(** A row of the grid file: lines of several numerals, then the numeral
    that ends the row on a line of its own. *)
Definition file_row : Type := (list (list string) * string)%type.

Definition row_lines (row : file_row) : list string :=
  map (join " ") (fst row) ++ [snd row].

(** The numerals of a row, in the order of the file. *)
Definition row_words (row : file_row) : list string :=
  List.concat (fst row) ++ [snd row].

Definition free_of (sep : ascii) (c : ascii) : bool := negb (Ascii.eqb c sep).

(** A word of a line of the file: not empty, without blank and without
    newline. *)
Definition word (w : string) : Prop :=
  w <> EmptyString
  /\ Py.all_chars (free_of " ") w = true
  /\ Py.all_chars (free_of newline) w = true.

(** The number that a numeral stands for. *)
Definition numeral_value (w : string) : Q :=
  match Py.float w with
  | Ok q => q
  | Raise _ => 0
  end.

(** Words that [float] reads as numbers. *)
Definition numerals (words : list string) : Prop :=
  Forall (fun w => Py.float w = Ok (numeral_value w)) words.

(** A row whose lines, but for the last, hold two words or more, each word
    being read by [float] as a number. *)
Definition well_formed (row : file_row) : Prop :=
  Forall (fun line => (2 <= List.length line)%nat) (fst row)
  /\ Forall word (row_words row)
  /\ numerals (row_words row).

(** ** Real-number side of the run time: the [math] module *)

Local Open Scope R_scope.

(** [x / y] on floats. *)
Definition fdiv (x y : R) : result R :=
  if Req_dec_T y 0 then Raise ZeroDivisionError else Ok (x / y).

(** [math.sqrt]. *)
Definition math_sqrt (x : R) : result R :=
  if Rlt_dec x 0 then Raise ValueError else Ok (sqrt x).

(** [math.asin]. *)
Definition math_asin (x : R) : result R :=
  if Rlt_dec 1 (Rabs x) then Raise ValueError else Ok (asin x).

(** [math.atan2(y, x)], the angle of the point [(x, y)] in (-pi, pi]. *)
Definition math_atan2 (y x : R) : R :=
  if Rlt_dec 0 x then atan (y / x)
  else if Rlt_dec x 0 then
    (if Rle_dec 0 y then atan (y / x) + PI else atan (y / x) - PI)
  else if Rlt_dec 0 y then PI / 2
  else if Rlt_dec y 0 then - (PI / 2)
  else 0.

(** [math.pow(x, y)].  A positive base takes any exponent; the other calls
    of this module have a whole, non-negative exponent (2 to 6), the only
    case in which [math.pow] accepts every base. *)
Definition math_pow (x y : R) : R :=
  if Rlt_dec 0 x then Rpower x y else x ^ Z.to_nat (Int_part y).

(** ** utils *)

Module utils.

(** Modelled from the spec: [cruntils/utils.py] is not among the sources.
    [DegToRad] and [RadToDeg] are the "standard conversions, no
    validation" of section 4.1. *)
Definition DegToRad (deg : R) : R := deg * PI / 180.

Definition RadToDeg (rad : R) : R := rad * 180 / PI.

(** Modelled from the spec: the "trig power helpers (cos^5, tan^2, tan^4)"
    of section 4.1, [cruntils/utils.py] being absent. *)
Definition Cos5 (angle : R) : R := cos angle ^ 5.

Definition Tan2 (angle : R) : R := tan angle ^ 2.

Definition Tan4 (angle : R) : R := tan angle ^ 4.

(** Modelled from the spec: [ConvertAngle(value, toSigned)] of section 4.1,
    "if request is for signed output and input >= 180, subtract 360; if
    unsigned output and input < 0, add 360; no change otherwise". *)
Definition ConvertAngle (value : R) (to_signed : bool) : R :=
  if to_signed then (if Rle_dec 180 value then value - 360 else value)
  else (if Rlt_dec value 0 then value + 360 else value).

End utils.

Definition wgs84_earth_equatorial_radius_m : R := 6378137.

(** ** Locations *)

(** The state of a [CLocation] object.  A coordinate that was not given is
    [None], the default of the constructor. *)
Record CLocation : Type := mkCLocation {
  Latitude : option R;
  Longitude : option R;
  LatSigned : bool;
  LonSigned : bool;
  ReferenceEllipsoid : EReferenceEllipsoid;
  Name : string
}.

(** [CLocation(lat, lon, lat_signed, lon_signed)]. *)
Definition CLocation_init (lat lon : option R) (lat_signed lon_signed : bool)
  : CLocation :=
  mkCLocation lat lon lat_signed lon_signed Wgs84 "".

Definition SetName (self : CLocation) (name : string) : CLocation :=
  mkCLocation (Latitude self) (Longitude self) (LatSigned self) (LonSigned self)
    (ReferenceEllipsoid self) name.

Definition SetLatLon (self : CLocation) (lat lon : option R)
    (lat_signed lon_signed : bool) : CLocation :=
  mkCLocation lat lon lat_signed lon_signed (ReferenceEllipsoid self) (Name self).

(** Arithmetic and comparisons on a coordinate raise on [None]. *)
Definition number (v : option R) : result R :=
  match v with
  | Some r => Ok r
  | None => Raise TypeError
  end.

Definition GetLat (self : CLocation) (signed : bool) : result (option R) :=
  if signed then
    if LatSigned self then Ok (Latitude self)
    else (l <- number (Latitude self) ;; Ok (Some (l - 90)%R))
  else
    if LatSigned self then (l <- number (Latitude self) ;; Ok (Some (l + 90)%R))
    else Ok (Latitude self).

Definition GetLon (self : CLocation) (signed : bool) : result (option R) :=
  l <- number (Longitude self) ;; Ok (Some (utils.ConvertAngle l signed)).

Definition GetLatLon (self : CLocation) (signed : bool)
  : result (option R * option R) :=
  lat <- GetLat self signed ;;
  lon <- GetLon self signed ;;
  Ok (lat, lon).

(** ** Ellipsoids *)

Definition GetAiry1830 : R * R :=
  let semi_major := 6377563.396 in
  let semi_minor := 6356256.909 in
  (semi_major, semi_minor).

Definition GetWgs84 : R * R :=
  let semi_major := 6378137.000 in
  let semi_minor := 6356752.3141 in
  (semi_major, semi_minor).

Definition Eccentricity1 (a b : R) : R :=
  (math_pow a 2 - math_pow b 2) / math_pow a 2.

Definition Eccentricity2 (a b : R) : R :=
  (math_pow a 2 - math_pow b 2) / math_pow b 2.

(** The [if]/[elif] that binds [a, b]: nothing is bound for a value that is
    not one of the two members. *)
Definition ellipsoid_parameters (ellipsoid_ref : enum_arg EReferenceEllipsoid)
  : option (R * R) :=
  match ellipsoid_ref with
  | Member Airy1830 => Some GetAiry1830
  | Member Wgs84 => Some GetWgs84
  | Foreign _ => None
  end.

(** ** Bearing, distance, extrapolation *)

Definition BearingBetween (lat_1 lon_1 lat_2 lon_2 : R) (degrees : bool) : R :=
  let lat_1 := if degrees then utils.DegToRad lat_1 else lat_1 in
  let lon_1 := if degrees then utils.DegToRad lon_1 else lon_1 in
  let lat_2 := if degrees then utils.DegToRad lat_2 else lat_2 in
  let lon_2 := if degrees then utils.DegToRad lon_2 else lon_2 in
  let delta_lon := lon_2 - lon_1 in
  let brg := math_atan2
    (sin delta_lon * cos lat_2)
    ((cos lat_1 * sin lat_2) - (sin lat_1 * cos lat_2 * cos delta_lon)) in
  utils.RadToDeg brg.

Definition DistanceBetween (lat_1 lon_1 lat_2 lon_2 : R) (degrees : bool)
  : result R :=
  let lat_1 := if degrees then utils.DegToRad lat_1 else lat_1 in
  let lon_1 := if degrees then utils.DegToRad lon_1 else lon_1 in
  let lat_2 := if degrees then utils.DegToRad lat_2 else lat_2 in
  let lon_2 := if degrees then utils.DegToRad lon_2 else lon_2 in
  let delta_lat := lat_2 - lat_1 in
  let delta_lon := lon_2 - lon_1 in
  let a := (sin (delta_lat / 2) * sin (delta_lat / 2))
           + (cos lat_1 * cos lat_2 * sin (delta_lon / 2) * sin (delta_lon / 2)) in
  sa <- math_sqrt a ;;
  sb <- math_sqrt (1 - a) ;;
  let c := 2 * math_atan2 sa sb in
  let d := wgs84_earth_equatorial_radius_m * c in
  Ok d.

Definition Extrapolate (lat lon brg dst : R) (degrees : bool) : result (R * R) :=
  let ang_dst := dst / wgs84_earth_equatorial_radius_m in
  let lat := if degrees then utils.DegToRad lat else lat in
  let lon := if degrees then utils.DegToRad lon else lon in
  let brg := if degrees then utils.DegToRad brg else brg in
  tlat <- math_asin
    ((sin lat * cos ang_dst) + (cos lat * sin ang_dst * cos brg)) ;;
  let tlon := lon + math_atan2
    (sin brg * sin ang_dst * cos lat)
    (cos ang_dst - (sin lat * sin tlat)) in
  Ok (utils.RadToDeg tlat, utils.RadToDeg tlon).

(** ** Cartesian coordinates *)

Definition CartesianToLatLon (x y z : R)
    (ellipsoid_ref : enum_arg EReferenceEllipsoid) : result (R * R * R) :=
  ab <- Py.read_local (ellipsoid_parameters ellipsoid_ref) ;;
  let a := fst ab in
  let b := snd ab in
  let e2 := Eccentricity1 a b in
  let e22 := Eccentricity2 a b in
  let p := sqrt (math_pow x 2 + math_pow y 2) in
  let R := sqrt (math_pow p 2 + math_pow z 2) in
  t1 <- fdiv (b * z) (a * p) ;;
  t2 <- fdiv b R ;;
  let tan_beta := t1 * ((1 + e22) * t2) in
  let beta := atan tan_beta in
  let tan_lat_prime_top := (z + (e22 * b * math_pow (sin beta) 3)) in
  let tan_lat_prime_bot := (p - (e2 * a * math_pow (cos beta) 3)) in
  tan_lat_prime <- fdiv tan_lat_prime_top tan_lat_prime_bot ;;
  let lat_rad := atan tan_lat_prime in
  tan_lon_prime <- fdiv y x ;;
  let lon_rad := atan tan_lon_prime in
  let v := a / sqrt (1 - (e2 * math_pow (sin lat_rad) 2)) in
  let height := (p * cos lat_rad) + (z * sin lat_rad) - (math_pow a 2 / v) in
  let lat := utils.RadToDeg lat_rad in
  let lon := utils.RadToDeg lon_rad in
  Ok (lat, lon, height).

Definition HelmertTransform (x y z : R) : R * R * R :=
  let cx := -446.448 in
  let cy := 125.157 in
  let cz := -542.060 in
  let s := 20.4894 in
  let rx := -0.1502 in
  let ry := -0.2470 in
  let rz := -0.8421 in
  let rx := (rx / (3600 * 180)) * PI in
  let ry := (ry / (3600 * 180)) * PI in
  let rz := (rz / (3600 * 180)) * PI in
  let xb := cx + (1 + s * 1e-6) * (x - (rz * y) + (ry * z)) in
  let yb := cy + (1 + s * 1e-6) * ((rz * x) + y - (rx * z)) in
  let zb := cz + (1 + s * 1e-6) * ((- ry * x) + (rx * y) + z) in
  (xb, yb, zb).

(** A latitude or longitude argument: a number, or a string of degrees,
    minutes and seconds. *)
Inductive coord : Type :=
| CNum (r : R)
| CStr (s : string).

(** Use of a coordinate where a number is needed. *)
Definition as_number (c : coord) : result R :=
  match c with
  | CNum r => Ok r
  | CStr _ => Raise TypeError
  end.

(** Use of a coordinate where a string is needed ([dms_str.split]). *)
Definition as_dms (c : coord) : result string :=
  match c with
  | CNum _ => Raise AttributeError
  | CStr s => Ok s
  end.

(** The branch on [coord_format] that brings a coordinate to radians. *)
Definition to_radians (c : coord) (coord_format : enum_arg ECoordFormat)
  : result coord :=
  match coord_format with
  | Member LatLonDd =>
      d <- as_number c ;; Ok (CNum (utils.DegToRad d))
  | Member LatLonDms =>
      s <- as_dms c ;; d <- DmsToDd s ;; Ok (CNum (utils.DegToRad (Q2R d)))
  | _ => Ok c
  end.

(** What a call wrote with [print], and how it ended. *)
Definition printed (A : Type) : Type := list string * result A.

Definition LatLonHeightToEcefCartesian (lat lon : coord) (height : R)
    (coord_format : enum_arg ECoordFormat)
    (ellipsoid_ref : enum_arg EReferenceEllipsoid) : printed (R * R * R) :=
  match (lat <- to_radians lat coord_format ;;
         lon <- to_radians lon coord_format ;; Ok (lat, lon)) with
  | Raise e => ([], Raise e)
  | Ok (lat, lon) =>
      let ab := ellipsoid_parameters ellipsoid_ref in
      let out := match ab with
                 | Some _ => []
                 | None => ["Invalid ellipsoid!"%string]
                 end in
      (out,
       ab <- Py.read_local ab ;;
       let a := fst ab in
       let b := snd ab in
       let e2 := Eccentricity1 a b in
       lat <- as_number lat ;;
       let v := a / sqrt (1 - (e2 * math_pow (sin lat) 2)) in
       lon <- as_number lon ;;
       let x := (v + height) * cos lat * cos lon in
       let y := (v + height) * cos lat * sin lon in
       let z := (((1 - e2) * v) + height) * sin lat in
       Ok (x, y, z))
  end.

(** ** National grid *)

Definition LatLonToGridEastNorth (lat lon : R) : R * R :=
  let F0 := 0.9996012717 in
  let lat_0 := utils.DegToRad 49 in
  let lon_0 := utils.DegToRad (-2) in
  let E0 := 400000 in
  let N0 := -100000 in
  let a := fst GetAiry1830 in
  let b := snd GetAiry1830 in
  let e2 := Eccentricity1 a b in
  let lat := utils.DegToRad lat in
  let lon := utils.DegToRad lon in
  let n := (a - b) / (a + b) in
  let v := a * F0 * math_pow (1 - (e2 * math_pow (sin lat) 2)) (-0.5) in
  let p := a * F0 * (1 - e2) * math_pow (1 - (e2 * math_pow (sin lat) 2)) (-1.5) in
  let n2 := (v / p) - 1 in
  let m1 := (1 + n + ((5/4) * math_pow n 2) + ((5/4) * math_pow n 3)) * (lat - lat_0) in
  let m2_1 := ((3 * n) + (3 * math_pow n 2) + ((21/8) * math_pow n 3)) in
  let m2_2 := sin (lat - lat_0) in
  let m2_3 := cos (lat + lat_0) in
  let m2 := m2_1 * m2_2 * m2_3 in
  let m3_1 := ((15/8) * math_pow n 2) + ((15/8) * math_pow n 3) in
  let m3_2 := sin (2 * (lat - lat_0)) * cos (2 * (lat + lat_0)) in
  let m3_3 := (35/24) * math_pow n 3 * sin (3 * (lat - lat_0)) * cos (3 * (lat + lat_0)) in
  let m3 := (m3_1 * m3_2) - m3_3 in
  let m := b * F0 * (m1 - m2 + m3) in
  let I := m + N0 in
  let II := (v / 2) * sin lat * cos lat in
  let III := (v / 24) * sin lat * math_pow (cos lat) 3
             * (5 - (math_pow (tan lat) 2) + (9 * n2)) in
  let IIIA := (v / 720) * sin lat * utils.Cos5 lat
              * (61 - (58 * utils.Tan2 lat) + utils.Tan4 lat) in
  let IV := v * cos lat in
  let V := (v / 6) * math_pow (cos lat) 3 * ((v / p) - math_pow (tan lat) 2) in
  let VI := (v / 120) * math_pow (cos lat) 5
            * (5 - (18 * utils.Tan2 lat) + utils.Tan4 lat + (14 * n2)
               - (58 * utils.Tan2 lat * n2)) in
  let N := I + (II * math_pow (lon - lon_0) 2) + (III * math_pow (lon - lon_0) 4)
           + (IIIA * math_pow (lon - lon_0) 6) in
  let E := E0 + (IV * (lon - lon_0))
           + (V * (math_pow (lon - lon_0) 3) + (VI * (math_pow (lon - lon_0) 5))) in
  (E, N).

(** A line written by [print(f"label{value}")]. *)
Inductive event : Type :=
| Printed (label : string) (value : R).

(** What a Python call hands back. *)
Inductive pyvalue : Type :=
| PyNone
| PyPair (a b : R).

(** The [while] loop of [GridEastNorthToLatLon], run for at most [fuel]
    tests of its condition; [None] when the fuel does not suffice. *)
Fixpoint refine_loop (fuel : nat) (ntings n0 a b f0 lat_0 : R)
    (m lat_dash : R) (out : list event) : option (R * R * list event) :=
  match fuel with
  | O => None
  | S fuel' =>
      if Rge_dec (ntings - n0 - m) 0.001 then
        let out := out ++ [Printed "Value: " (ntings - n0 - m)] in
        let m1 := (1 + ntings + ((5/4) * math_pow ntings 2)
                   + ((5/4) * math_pow ntings 3)) * (lat_dash - lat_0) in
        let m2_1 := ((3 * ntings) + (3 * math_pow ntings 2)
                     + ((21/8) * math_pow ntings 3)) in
        let m2_2 := sin (lat_dash - lat_0) in
        let m2_3 := cos (lat_dash + lat_0) in
        let m2 := m2_1 * m2_2 * m2_3 in
        let m3_1 := ((15/8) * math_pow ntings 2) + ((15/8) * math_pow ntings 3) in
        let m3_2 := sin (2 * (lat_dash - lat_0)) * cos (2 * (lat_dash + lat_0)) in
        let m3_3 := (35/24) * math_pow ntings 3 * sin (3 * (lat_dash - lat_0))
                    * cos (3 * (lat_dash + lat_0)) in
        let m3 := (m3_1 * m3_2) - m3_3 in
        let m := b * f0 * (m1 - m2 + m3) in
        let lat_dash := ((ntings - n0) / (a * f0)) + lat_dash in
        refine_loop fuel' ntings n0 a b f0 lat_0 m lat_dash out
      else Some (m, lat_dash, out)
  end.

(** [GridEastNorthToLatLon]: the body ends after the loop, without a
    [return] statement. *)
Definition GridEastNorthToLatLon (fuel : nat) (ntings etings : R)
  : option (pyvalue * list event) :=
  let lat_0 := utils.DegToRad 49 in
  let lon_0 := utils.DegToRad (-2) in
  let e0 := 400000 in
  let n0 := -100000 in
  let f0 := 0.9996012717 in
  let a := fst GetAiry1830 in
  let b := snd GetAiry1830 in
  let lat_dash := ((ntings - n0) / (a * f0)) + lat_0 in
  let out := [Printed "Lat dash: " lat_dash] in
  let m := 0 in
  match refine_loop fuel ntings n0 a b f0 lat_0 m lat_dash out with
  | None => None
  | Some (_, _, out) => Some (PyNone, out)
  end.

(** ** Enclosures of real expressions

    The value of a real expression is enclosed in a ball whose centre and
    radius are whole multiples of [2 ^ - bits]; the enclosure of an
    expression is computed from those of its parts and rounded outwards
    after each step. *)

Definition bits : Z := 72.

Definition scale : Z := 2 ^ bits.

(** The ball of centre [mid / scale] and radius [rad / scale]. *)
Record ball : Type := mkBall { mid : Z; rad : Z }.

Definition contains (b : ball) (x : R) : Prop :=
  (Rabs (x * IZR scale - IZR (mid b)) <= IZR (rad b))%R.

Definition bint (z : Z) : ball := mkBall (z * scale) 0.

Definition brat (q : Q) : ball :=
  mkBall (Qnum q * scale / Zpos (Qden q)) 1.

Definition badd (a b : ball) : ball := mkBall (mid a + mid b) (rad a + rad b).

Definition bneg (a : ball) : ball := mkBall (- mid a) (rad a).

Definition bsub (a b : ball) : ball := mkBall (mid a - mid b) (rad a + rad b).

Definition bmul (a b : ball) : ball :=
  mkBall (Z.shiftr (mid a * mid b) bits)
    (Z.shiftr (Z.abs (mid a) * rad b + Z.abs (mid b) * rad a + rad a * rad b) bits
     + 2).

Definition binv (a : ball) : option ball :=
  if (rad a <? Z.abs (mid a))%Z
  then Some (mkBall (scale * scale / mid a)
               (scale * scale * rad a
                / (Z.abs (mid a) * (Z.abs (mid a) - rad a)) + 2))
  else None.

Definition bdiv (a b : ball) : option ball :=
  match binv b with
  | Some i => Some (bmul a i)
  | None => None
  end.

Definition bsqrt (a : ball) : option ball :=
  let g := Z.sqrt (mid a * scale) in
  if ((0 <? g) && (rad a <=? mid a))%Z
  then Some (mkBall g ((Z.abs (mid a * scale - g * g) + rad a * scale) / g + 1))
  else None.

Fixpoint bpow (a : ball) (n : nat) : ball :=
  match n with
  | O => bint 1
  | S k => bmul a (bpow a k)
  end.

Definition sin_step (k : nat) : Q :=
  -1 / inject_Z (Z.of_nat ((2 * k + 2) * (2 * k + 3))).

Definition cos_step (k : nat) : Q :=
  -1 / inject_Z (Z.of_nat ((2 * k + 1) * (2 * k + 2))).

(** Partial sum and last term of a series whose terms are got from one
    another: term [k + 1] is term [k] times [step k] times [x2]. *)
Fixpoint series (step : nat -> Q) (x2 t0 : ball) (n : nat) : ball * ball :=
  match n with
  | O => (t0, t0)
  | S k =>
      let (s, t) := series step x2 t0 k in
      let t' := bmul t (bmul (brat (step k)) x2) in
      (badd s t', t')
  end.

(** A value that lies between a partial sum [s] and [s] minus its last
    term [t]. *)
Definition enclose (st : ball * ball) : ball :=
  let (s, t) := st in mkBall (mid s) (rad s + (Z.abs (mid t) + rad t)).

Definition order : nat := 4.

Definition sin_small (c : Q) : ball :=
  let x := brat c in
  enclose (series sin_step (bmul x x) x (S (2 * order + 1))).

Definition cos_small (c : Q) : ball :=
  let x := brat c in
  enclose (series cos_step (bmul x x) (bint 1) (S (2 * order + 1))).

Definition sin_point (c : Q) : ball :=
  if Qlt_le_dec c 0 then bneg (sin_small (- c)) else sin_small c.

Definition unit_ball : ball := mkBall 0 scale.

Fixpoint cos_at (fuel : nat) (c : Q) : ball :=
  if Qle_bool (Qabs c) 1 then cos_small c
  else match fuel with
       | O => unit_ball
       | S fuel' =>
           let k := cos_at fuel' (c * (1 # 2)) in
           bsub (bmul (bint 2) (bmul k k)) (bint 1)
       end.

Fixpoint sin_at (fuel : nat) (c : Q) : ball :=
  if Qle_bool (Qabs c) 1 then sin_point c
  else match fuel with
       | O => unit_ball
       | S fuel' =>
           bmul (bint 2)
             (bmul (sin_at fuel' (c * (1 # 2))) (cos_at fuel' (c * (1 # 2))))
       end.

Definition halvings : nat := 10.

(** The centre of a ball, as a rational. *)
Definition centre (a : ball) : Q := mid a # Z.to_pos scale.

Definition bsin (a : ball) : ball :=
  let s := sin_at halvings (centre a) in mkBall (mid s) (rad s + rad a).

Definition bcos (a : ball) : ball :=
  let k := cos_at halvings (centre a) in mkBall (mid k) (rad k + rad a).

Definition pi_ball : ball := mkBall 14835751850141947581203 (2 ^ 20).

Inductive expr : Type :=
| EInt (z : Z)
| ERat (q : Q)
| EPi
| EAdd (a b : expr)
| ESub (a b : expr)
| EMul (a b : expr)
| EDiv (a b : expr)
| EOpp (a : expr)
| EInv (a : expr)
| EPow (a : expr) (n : nat)
| ESqrt (a : expr)
| ESin (a : expr)
| ECos (a : expr).

Fixpoint eval (e : expr) : R :=
  match e with
  | EInt z => IZR z
  | ERat q => Q2R q
  | EPi => PI
  | EAdd a b => eval a + eval b
  | ESub a b => eval a - eval b
  | EMul a b => eval a * eval b
  | EDiv a b => eval a / eval b
  | EOpp a => - eval a
  | EInv a => / eval a
  | EPow a n => eval a ^ n
  | ESqrt a => sqrt (eval a)
  | ESin a => sin (eval a)
  | ECos a => cos (eval a)
  end.

Fixpoint expr_eqb (e1 e2 : expr) : bool :=
  match e1, e2 with
  | EInt z1, EInt z2 => Z.eqb z1 z2
  | ERat q1, ERat q2 =>
      Z.eqb (Qnum q1) (Qnum q2) && Pos.eqb (Qden q1) (Qden q2)
  | EPi, EPi => true
  | EAdd a1 b1, EAdd a2 b2 => expr_eqb a1 a2 && expr_eqb b1 b2
  | ESub a1 b1, ESub a2 b2 => expr_eqb a1 a2 && expr_eqb b1 b2
  | EMul a1 b1, EMul a2 b2 => expr_eqb a1 a2 && expr_eqb b1 b2
  | EDiv a1 b1, EDiv a2 b2 => expr_eqb a1 a2 && expr_eqb b1 b2
  | EOpp a1, EOpp a2 => expr_eqb a1 a2
  | EInv a1, EInv a2 => expr_eqb a1 a2
  | EPow a1 n1, EPow a2 n2 => Nat.eqb n1 n2 && expr_eqb a1 a2
  | ESqrt a1, ESqrt a2 => expr_eqb a1 a2
  | ESin a1, ESin a2 => expr_eqb a1 a2
  | ECos a1, ECos a2 => expr_eqb a1 a2
  | _, _ => false
  end.

(** Enclosures already computed, so that an expression that occurs several
    times is enclosed once. *)
Definition table : Type := list (expr * ball).

Fixpoint find (e : expr) (t : table) : option ball :=
  match t with
  | [] => None
  | (e', b) :: t' => if expr_eqb e e' then Some b else find e t'
  end.

Definition node1 (f : ball -> option ball) (e : expr)
    (ra : option (ball * table)) : option (ball * table) :=
  match ra with
  | Some (x, t) =>
      match f x with
      | Some y => Some (y, (e, y) :: t)
      | None => None
      end
  | None => None
  end.

Definition node2 (f : ball -> ball -> option ball) (e : expr)
    (ra : option (ball * table)) (kb : table -> option (ball * table))
  : option (ball * table) :=
  match ra with
  | Some (x, t1) =>
      match kb t1 with
      | Some (y, t2) =>
          match f x y with
          | Some z => Some (z, (e, z) :: t2)
          | None => None
          end
      | None => None
      end
  | None => None
  end.

Fixpoint approx (e : expr) (t : table) : option (ball * table) :=
  match find e t with
  | Some b => Some (b, t)
  | None =>
      match e with
      | EInt z => Some (bint z, t)
      | ERat q => Some (brat q, t)
      | EPi => Some (pi_ball, t)
      | EAdd a b =>
          node2 (fun x y => Some (badd x y)) e (approx a t) (approx b)
      | ESub a b =>
          node2 (fun x y => Some (bsub x y)) e (approx a t) (approx b)
      | EMul a b =>
          node2 (fun x y => Some (bmul x y)) e (approx a t) (approx b)
      | EDiv a b => node2 bdiv e (approx a t) (approx b)
      | EOpp a => node1 (fun x => Some (bneg x)) e (approx a t)
      | EInv a => node1 binv e (approx a t)
      | EPow a n => node1 (fun x => Some (bpow x n)) e (approx a t)
      | ESqrt a => node1 bsqrt e (approx a t)
      | ESin a => node1 (fun x => Some (bsin x)) e (approx a t)
      | ECos a => node1 (fun x => Some (bcos x)) e (approx a t)
      end
  end.

(** The enclosure of [e], if any, lies within [tol] of [target]. *)
Definition near (e : expr) (target tol : Q) : bool :=
  match approx e [] with
  | Some (b, _) =>
      Qle_bool (Qabs (centre b - target) + (rad b # Z.to_pos scale)) tol
  | None => false
  end.

(** Half of [z / scale], as a rational. *)
Definition half_of (z : Z) : Q := z # Z.to_pos (2 * scale).

(** Every enclosure of the table holds. *)
Definition table_ok (t : table) : Prop :=
  forall e b, find e t = Some b -> contains b (eval e).

(** A result of [approx], if any, encloses [v] and leaves a table that
    holds. *)
Definition sound (r : option (ball * table)) (v : R) : Prop :=
  forall b t, r = Some (b, t) -> contains b v /\ table_ok t.

(** ** Notions used to state the properties *)

(** Decimal degrees that the latitude or the longitude axis admits, in the
    signed or in the unsigned convention: latitudes from -90 to 90 or from 0
    to 180, longitudes from -180 to 180 or from 0 to 360. *)
Definition in_valid_range (axis : ELatLon) (x : Q) : Prop :=
  match axis with
  | Lat => (-90 <= x <= 180)%Q
  | Lon => (-180 <= x <= 360)%Q
  end.

(** The loop of [GridEastNorthToLatLon] never ends on a given input: no
    amount of fuel lets the call return. *)
Definition never_returns (ntings etings : R) : Prop :=
  forall fuel : nat, GridEastNorthToLatLon fuel ntings etings = None.

(** Eastings and northings of the national grid, in metres. *)
Definition in_grid_range (ntings etings : R) : Prop :=
  0 <= ntings <= 1300000 /\ 0 <= etings <= 700000.

(** The quantity [a] of [DistanceBetween], for angles in radians. *)
Definition haversine (p1 l1 p2 l2 : R) : R :=
  ((sin ((p2 - p1) / 2) * sin ((p2 - p1) / 2))
   + (cos p1 * cos p2 * sin ((l2 - l1) / 2) * sin ((l2 - l1) / 2)))%R.

(** The angle, in degrees, of an arc of length [dst] on the sphere of
    [Extrapolate] and [DistanceBetween]. *)
Definition arc_degrees (dst : R) : R :=
  utils.RadToDeg (dst / wgs84_earth_equatorial_radius_m)%R.

(** The square of the distance between two points. *)
Definition dist2 (p q : R * R * R) : R :=
  let '(x, y, z) := p in
  let '(x', y', z') := q in
  ((x - x') * (x - x') + (y - y') * (y - y') + (z - z') * (z - z'))%R.

(** * Properties *)

(** ** Facts on the run time *)

Section MathFacts.

Lemma math_pow_nat (x : R) (n : nat) : math_pow x (INR n) = x ^ n.
Proof.
  unfold math_pow. destruct (Rlt_dec 0 x) as [Hx | Hx].
  - now apply Rpower_pow.
  - now rewrite Int_part_INR, Nat2Z.id.
Qed.

Lemma math_pow_2 (x : R) : math_pow x 2 = x * x.
Proof. change 2 with (INR 2). rewrite math_pow_nat. ring. Qed.

Lemma math_pow_3 (x : R) : math_pow x 3 = x * x * x.
Proof.
  replace 3 with (INR 3) by (simpl; ring). rewrite math_pow_nat. ring.
Qed.

Lemma math_atan2_0_pos (x : R) : 0 < x -> math_atan2 0 x = 0.
Proof.
  intros Hx. unfold math_atan2. destruct (Rlt_dec 0 x) as [_ | H]; [| tauto].
  unfold Rdiv. now rewrite Rmult_0_l, atan_0.
Qed.

Lemma math_atan2_0_0 : math_atan2 0 0 = 0.
Proof.
  unfold math_atan2.
  destruct (Rlt_dec 0 0) as [H | _]; [exfalso; lra |].
  reflexivity.
Qed.

Lemma fdiv_nonzero (x y : R) : y <> 0 -> fdiv x y = Ok (x / y).
Proof.
  intros Hy. unfold fdiv. now destruct (Req_dec_T y 0).
Qed.

Lemma math_sqrt_nonneg (x : R) : 0 <= x -> math_sqrt x = Ok (sqrt x).
Proof.
  intros Hx. unfold math_sqrt. destruct (Rlt_dec x 0); [exfalso; lra | easy].
Qed.

Lemma math_asin_sin (x : R) : math_asin (sin x) = Ok (asin (sin x)).
Proof.
  unfold math_asin. destruct (Rlt_dec 1 (Rabs (sin x))) as [H | H]; [| easy].
  exfalso. pose proof (SIN_bound x) as [H1 H2].
  revert H. unfold Rabs. destruct (Rcase_abs (sin x)); lra.
Qed.

Lemma RadToDeg_DegToRad (d : R) : utils.RadToDeg (utils.DegToRad d) = d.
Proof.
  unfold utils.RadToDeg, utils.DegToRad. field. apply PI_neq0.
Qed.

End MathFacts.

(** ** Unknown ellipsoid *)

(** C6 (the code departs from it): with a value that is neither [Airy1830]
    nor [Wgs84], [LatLonHeightToEcefCartesian] prints "Invalid ellipsoid!"
    and then fails on the unbound local [a]; [CartesianToLatLon] fails on it
    at once.  Both end in [UnboundLocalError]; no invalid-ellipsoid error is
    raised. *)
Theorem unknown_ellipsoid_is_unbound_local :
  forall (lat lon height x y z : R) (other : string),
    LatLonHeightToEcefCartesian (CNum lat) (CNum lon) height
      (Member LatLonDd) (Foreign other)
    = (["Invalid ellipsoid!"%string], Raise UnboundLocalError)
    /\ CartesianToLatLon x y z (Foreign other) = Raise UnboundLocalError.
Proof.
  intros. split; reflexivity.
Qed.

(** ** Great-circle distance *)

Section Distance.

Lemma math_atan2_0_nonneg (x : R) : 0 <= x -> math_atan2 0 x = 0.
Proof.
  intros [Hx | <-].
  - now apply math_atan2_0_pos.
  - apply math_atan2_0_0.
Qed.

(** The haversine term only depends on the two points as a set. *)
Lemma haversine_term_sym (p1 l1 p2 l2 : R) :
  (sin ((p2 - p1) / 2) * sin ((p2 - p1) / 2))
  + (cos p1 * cos p2 * sin ((l2 - l1) / 2) * sin ((l2 - l1) / 2))
  = (sin ((p1 - p2) / 2) * sin ((p1 - p2) / 2))
    + (cos p2 * cos p1 * sin ((l1 - l2) / 2) * sin ((l1 - l2) / 2)).
Proof.
  replace ((p1 - p2) / 2) with (- ((p2 - p1) / 2)) by field.
  replace ((l1 - l2) / 2) with (- ((l2 - l1) / 2)) by field.
  rewrite !sin_neg. ring.
Qed.

Lemma DistanceBetween_same (lat lon : R) (degrees : bool) :
  DistanceBetween lat lon lat lon degrees = Ok 0.
Proof.
  unfold DistanceBetween.
  set (p := if degrees then utils.DegToRad lat else lat).
  set (l := if degrees then utils.DegToRad lon else lon).
  replace ((p - p) / 2) with 0 by field.
  replace ((l - l) / 2) with 0 by field.
  rewrite sin_0, !Rmult_0_r, Rplus_0_l, Rminus_0_r.
  rewrite (math_sqrt_nonneg 0 (Rle_refl 0)), (math_sqrt_nonneg 1 Rle_0_1).
  cbn [Py.bind]. rewrite sqrt_0, sqrt_1.
  rewrite (math_atan2_0_pos 1 Rlt_0_1). f_equal. ring.
Qed.

Lemma DistanceBetween_sym (lat_1 lon_1 lat_2 lon_2 : R) (degrees : bool) :
  DistanceBetween lat_1 lon_1 lat_2 lon_2 degrees
  = DistanceBetween lat_2 lon_2 lat_1 lon_1 degrees.
Proof.
  unfold DistanceBetween. cbv zeta.
  now rewrite haversine_term_sym.
Qed.

End Distance.

(** C8: the distance from a point to itself is 0, and the distance does not
    depend on the order of the two points. *)
Theorem DistanceBetween_zero_and_symmetric :
  (forall lat lon degrees, DistanceBetween lat lon lat lon degrees = Ok 0)
  /\ (forall lat_1 lon_1 lat_2 lon_2 degrees,
        DistanceBetween lat_1 lon_1 lat_2 lon_2 degrees
        = DistanceBetween lat_2 lon_2 lat_1 lon_1 degrees).
Proof.
  split.
  - exact DistanceBetween_same.
  - exact DistanceBetween_sym.
Qed.

(** ** Extrapolation over a distance of zero *)

Section ExtrapolateZero.

(** With a distance of 0 the target latitude is [asin (sin lat)] and the
    longitude is not moved. *)
Lemma Extrapolate_zero_radians (lat lon brg : R) :
  Extrapolate lat lon brg 0 false
  = Ok (utils.RadToDeg (asin (sin lat)), utils.RadToDeg lon).
Proof.
  unfold Extrapolate, wgs84_earth_equatorial_radius_m.
  replace (0 / 6378137) with 0 by field.
  rewrite sin_0, cos_0.
  replace (sin lat * 1 + cos lat * 0 * cos brg) with (sin lat) by ring.
  rewrite math_asin_sin. cbn [Py.bind].
  replace (sin brg * 0 * cos lat) with 0 by ring.
  rewrite math_atan2_0_nonneg.
  - now rewrite Rplus_0_r.
  - pose proof (SIN_bound lat) as [? ?].
    pose proof (SIN_bound (asin (sin lat))) as [? ?]. nra.
Qed.

Lemma Extrapolate_zero_degrees (lat lon brg : R) :
  Extrapolate lat lon brg 0 true
  = Ok (utils.RadToDeg (asin (sin (utils.DegToRad lat))), lon).
Proof.
  pose proof (Extrapolate_zero_radians (utils.DegToRad lat)
                (utils.DegToRad lon) (utils.DegToRad brg)) as H.
  rewrite RadToDeg_DegToRad in H. exact H.
Qed.

Lemma DegToRad_quarter_turn (lat : R) :
  -90 <= lat <= 90 -> - (PI / 2) <= utils.DegToRad lat <= PI / 2.
Proof.
  intros [H1 H2]. unfold utils.DegToRad. pose proof PI_RGT_0. split; nra.
Qed.

End ExtrapolateZero.

(** Over the real numbers a start latitude beyond the pole is reflected:
    100 degrees come back as 80 degrees. *)
Lemma Extrapolate_zero_beyond_pole :
  Extrapolate 100 0 0 0 true = Ok (80, 0)
  /\ Extrapolate 100 0 0 0 true <> Ok (100, 0).
Proof.
  assert (E : Extrapolate 100 0 0 0 true = Ok (80, 0)).
  { rewrite Extrapolate_zero_degrees. do 2 f_equal.
    replace (utils.DegToRad 100) with (PI - utils.DegToRad 80)
      by (unfold utils.DegToRad; field).
    rewrite sin_PI_x, asin_sin.
    - apply RadToDeg_DegToRad.
    - apply DegToRad_quarter_turn. lra. }
  split; [exact E |].
  rewrite E. intros H. injection H as H. lra.
Qed.

(** Over the real numbers, for a start latitude between -90 and 90 degrees,
    any longitude and any bearing, a distance of 0 gives back the start
    latitude and longitude.  The equation is one of real numbers: it says
    nothing on the last digits of the binary64 results, which the rounding
    of [sin] and [asin] decides. *)
Lemma Extrapolate_zero_over_reals (lat lon brg : R) :
  -90 <= lat <= 90 ->
  Extrapolate lat lon brg 0 true = Ok (lat, lon).
Proof.
  intros Hlat.
  rewrite Extrapolate_zero_degrees, asin_sin.
  - now rewrite RadToDeg_DegToRad.
  - now apply DegToRad_quarter_turn.
Qed.

(** ** Round trip through Cartesian coordinates *)

Section CartesianRoundTrip.

Let a84 : R := 6378137.000.
Let b84 : R := 6356752.3141.

Lemma Eccentricity1_expand (a b : R) :
  Eccentricity1 a b = (a * a - b * b) / (a * a).
Proof. unfold Eccentricity1. now rewrite !math_pow_2. Qed.

Lemma Eccentricity2_expand (a b : R) :
  Eccentricity2 a b = (a * a - b * b) / (b * b).
Proof. unfold Eccentricity2. now rewrite !math_pow_2. Qed.

(** The point of latitude 0, longitude 180 degrees and height 0 lies on the
    negative x axis. *)
Lemma ecef_of_antimeridian :
  LatLonHeightToEcefCartesian (CNum 0) (CNum 180) 0
    (Member LatLonDd) (Member Wgs84)
  = ([], Ok (-6378137, 0, 0)).
Proof.
  unfold LatLonHeightToEcefCartesian. cbn.
  replace (utils.DegToRad 0) with 0 by (unfold utils.DegToRad; field).
  replace (utils.DegToRad 180) with PI by (unfold utils.DegToRad; field).
  rewrite sin_0, cos_0, sin_PI, cos_PI, math_pow_2.
  replace (1 - Eccentricity1 6378137.000 6356752.3141 * (0 * 0)) with 1 by ring.
  rewrite sqrt_1. do 3 f_equal; [f_equal |]; lra.
Qed.

(** On that point the inverse conversion answers longitude 0. *)
Lemma latlon_of_negative_x_axis :
  CartesianToLatLon (-6378137) 0 0 (Member Wgs84) = Ok (0, 0, 0).
Proof.
  unfold CartesianToLatLon. cbn [ellipsoid_parameters Py.read_local Py.bind].
  cbv zeta. unfold GetWgs84. cbn [fst snd].
  fold a84 b84.
  rewrite Eccentricity1_expand, Eccentricity2_expand, !math_pow_2.
  replace (-6378137 * -6378137 + 0 * 0) with (a84 * a84)
    by (unfold a84; lra).
  assert (Ha : 0 < a84) by (unfold a84; lra).
  assert (Hb : 0 < b84) by (unfold b84; lra).
  rewrite (sqrt_square a84) by lra.
  replace (a84 * a84 + 0 * 0) with (a84 * a84) by ring.
  rewrite (sqrt_square a84) by lra.
  rewrite (fdiv_nonzero (b84 * 0) (a84 * a84)) by nra.
  rewrite (fdiv_nonzero b84 a84) by lra.
  cbn [Py.bind].
  replace (b84 * 0 / (a84 * a84)
           * ((1 + (a84 * a84 - b84 * b84) / (b84 * b84)) * (b84 / a84)))
    with 0 by (field; lra).
  rewrite atan_0, sin_0, cos_0, !math_pow_3.
  rewrite fdiv_nonzero.
  2:{ unfold a84, b84. lra. }
  cbn [Py.bind].
  replace ((0 + (a84 * a84 - b84 * b84) / (b84 * b84) * b84 * (0 * 0 * 0))
           / (a84 - (a84 * a84 - b84 * b84) / (a84 * a84) * a84 * (1 * 1 * 1)))
    with 0 by (unfold a84, b84; field; lra).
  rewrite (fdiv_nonzero 0 (-6378137)) by lra.
  cbn [Py.bind].
  replace (0 / -6378137) with 0 by field.
  rewrite atan_0, sin_0, cos_0, math_pow_2.
  replace (1 - (a84 * a84 - b84 * b84) / (a84 * a84) * (0 * 0)) with 1 by ring.
  rewrite sqrt_1.
  unfold utils.RadToDeg. pose proof PI_neq0.
  f_equal. f_equal; [f_equal |]; field; lra.
Qed.

End CartesianRoundTrip.

(** C2 (the code departs from it): the point of latitude 0, longitude 180
    degrees and height 0 on WGS84 has the Cartesian x coordinate -6378137,
    which is not zero, and the way back gives longitude 0 instead of 180:
    [CartesianToLatLon] takes [atan (y / x)] and loses the half-space
    [x < 0]. *)
Theorem ecef_round_trip_loses_longitude :
  LatLonHeightToEcefCartesian (CNum 0) (CNum 180) 0
    (Member LatLonDd) (Member Wgs84)
  = ([], Ok (-6378137, 0, 0))
  /\ CartesianToLatLon (-6378137) 0 0 (Member Wgs84) = Ok (0, 0, 0).
Proof.
  split.
  - exact ecef_of_antimeridian.
  - exact latlon_of_negative_x_axis.
Qed.

(** ** The unfinished inverse projection *)

Section InverseProjection.

Let n0 : R := -100000.
Let f0 : R := 0.9996012717.
Let a : R := 6377563.396.
Let b : R := 6356256.909.

(** The meridional arc estimate computed by one pass of the loop. *)
Let arc (ntings lat_0 lat_dash : R) : R :=
  b * f0 *
  ((1 + ntings + 5 / 4 * (ntings * ntings) + 5 / 4 * (ntings * ntings * ntings))
   * (lat_dash - lat_0)
   - (3 * ntings + 3 * (ntings * ntings) + 21 / 8 * (ntings * ntings * ntings))
     * sin (lat_dash - lat_0) * cos (lat_dash + lat_0)
   + ((15 / 8 * (ntings * ntings) + 15 / 8 * (ntings * ntings * ntings))
      * (sin (2 * (lat_dash - lat_0)) * cos (2 * (lat_dash + lat_0)))
      - 35 / 24 * (ntings * ntings * ntings) * sin (3 * (lat_dash - lat_0))
        * cos (3 * (lat_dash + lat_0)))).

(** One unfolding of the loop. *)
Lemma refine_loop_step (fuel : nat) (ntings lat_0 m lat_dash : R)
    (out : list event) :
  refine_loop (S fuel) ntings n0 a b f0 lat_0 m lat_dash out
  = if Rge_dec (ntings - n0 - m) 0.001
    then refine_loop fuel ntings n0 a b f0 lat_0
           (arc ntings lat_0 lat_dash)
           ((ntings - n0) / (a * f0) + lat_dash)
           (out ++ [Printed "Value: " (ntings - n0 - m)])
    else Some (m, lat_dash, out).
Proof.
  cbn [refine_loop]. destruct (Rge_dec (ntings - n0 - m) 0.001); [| reflexivity].
  cbv zeta. unfold arc. now rewrite !math_pow_2, !math_pow_3.
Qed.

Lemma sin_cos_product_bound (x y : R) : -1 <= sin x * cos y <= 1.
Proof.
  pose proof (SIN_bound x) as [? ?]. pose proof (COS_bound y) as [? ?].
  split; nra.
Qed.

Lemma scale_le (c s : R) : 0 <= c -> s <= 1 -> c * s <= c.
Proof.
  intros Hc Hs. rewrite <- (Rmult_1_r c) at 2. now apply Rmult_le_compat_l.
Qed.

Lemma scale_ge (c s : R) : 0 <= c -> -1 <= s -> - c <= c * s.
Proof.
  intros Hc Hs. replace (- c) with (c * -1) by ring.
  now apply Rmult_le_compat_l.
Qed.

(** For a non-negative northing the trigonometric terms of the arc are
    bounded, while its first term grows with [lat_dash]. *)
Lemma arc_lower_bound (ntings lat_0 lat_dash : R) :
  0 <= ntings -> 0 <= lat_dash - lat_0 ->
  b * f0 * ((lat_dash - lat_0)
            - (3 * ntings + 5 * (ntings * ntings)
               + 6 * (ntings * ntings * ntings)))
  <= arc ntings lat_0 lat_dash.
Proof.
  intros Hn Hd. unfold arc.
  pose proof (sin_cos_product_bound (lat_dash - lat_0) (lat_dash + lat_0)) as [P1 P2].
  pose proof (sin_cos_product_bound (2 * (lat_dash - lat_0)) (2 * (lat_dash + lat_0)))
    as [Q1 Q2].
  pose proof (sin_cos_product_bound (3 * (lat_dash - lat_0)) (3 * (lat_dash + lat_0)))
    as [T1 T2].
  set (s1 := sin (lat_dash - lat_0) * cos (lat_dash + lat_0)) in *.
  set (s2 := sin (2 * (lat_dash - lat_0)) * cos (2 * (lat_dash + lat_0))) in *.
  set (s3 := sin (3 * (lat_dash - lat_0)) * cos (3 * (lat_dash + lat_0))) in *.
  set (d := lat_dash - lat_0) in *.
  assert (N2 : 0 <= ntings * ntings) by nra.
  assert (N3 : 0 <= ntings * ntings * ntings) by nra.
  set (n3 := ntings * ntings * ntings) in *. set (n2 := ntings * ntings) in *.
  assert (Hbf : 0 < b * f0) by (unfold b, f0; lra).
  apply Rmult_le_compat_l; [lra |].
  replace ((3 * ntings + 3 * n2 + 21 / 8 * n3) * sin d * cos (lat_dash + lat_0))
    with ((3 * ntings + 3 * n2 + 21 / 8 * n3) * s1) by (unfold s1; ring).
  replace (35 / 24 * n3 * sin (3 * d) * cos (3 * (lat_dash + lat_0)))
    with (35 / 24 * n3 * s3) by (unfold s3; ring).
  assert (A1 : (3 * ntings + 3 * n2 + 21 / 8 * n3) * s1
               <= 3 * ntings + 3 * n2 + 21 / 8 * n3)
    by (apply scale_le; lra).
  assert (A2 : - (15 / 8 * n2 + 15 / 8 * n3)
               <= (15 / 8 * n2 + 15 / 8 * n3) * s2)
    by (apply scale_ge; lra).
  assert (A3 : 35 / 24 * n3 * s3 <= 35 / 24 * n3)
    by (apply scale_le; lra).
  assert (A4 : 1 * d <= (1 + ntings + 5 / 4 * n2 + 5 / 4 * n3) * d)
    by (apply Rmult_le_compat_r; lra).
  lra.
Qed.

(** Every pass adds the same positive amount to [lat_dash], so the arc
    estimate ends above the northing: the loop stops. *)
Lemma refine_loop_stops (ntings lat_0 : R) :
  0 <= ntings ->
  forall (j k : nat) (m : R) (out : list event),
    (ntings - n0) / (b * f0)
    + (3 * ntings + 5 * (ntings * ntings) + 6 * (ntings * ntings * ntings))
    <= INR (k + j) * ((ntings - n0) / (a * f0)) ->
    exists r,
      refine_loop (S (S j)) ntings n0 a b f0 lat_0 m
        (INR (S k) * ((ntings - n0) / (a * f0)) + lat_0) out = Some r.
Proof.
  intros Hn.
  assert (Hbf : 0 < b * f0) by (unfold b, f0; lra).
  assert (Haf : 0 < a * f0) by (unfold a, f0; lra).
  assert (Hd : 0 < (ntings - n0) / (a * f0)).
  { apply Rdiv_lt_0_compat; [unfold n0; lra | exact Haf]. }
  set (delta := (ntings - n0) / (a * f0)) in *.
  set (C := 3 * ntings + 5 * (ntings * ntings) + 6 * (ntings * ntings * ntings)).
  induction j as [| j IH]; intros k m out Hk.
  - rewrite refine_loop_step.
    destruct (Rge_dec (ntings - n0 - m) 0.001) as [_ | _]; [| eauto].
    rewrite refine_loop_step.
    destruct (Rge_dec _ 0.001) as [Hge | _]; [exfalso | eauto].
    pose proof (arc_lower_bound ntings lat_0 (INR (S k) * delta + lat_0) Hn) as L.
    replace (INR (S k) * delta + lat_0 - lat_0) with (INR (S k) * delta) in L by ring.
    assert (Hpos : 0 <= INR (S k) * delta).
    { apply Rmult_le_pos; [apply pos_INR | lra]. }
    specialize (L Hpos). fold C in L.
    set (A := arc ntings lat_0 (INR (S k) * delta + lat_0)) in *.
    rewrite Nat.add_0_r in Hk. rewrite S_INR in L.
    assert (Hq : ntings - n0 = b * f0 * ((ntings - n0) / (b * f0)))
      by (field; unfold b, f0; lra).
    assert (Hlt : ntings - n0 < b * f0 * ((INR k + 1) * delta - C)).
    { rewrite Hq at 1. apply Rmult_lt_compat_l; [exact Hbf | lra]. }
    lra.
  - rewrite refine_loop_step.
    destruct (Rge_dec (ntings - n0 - m) 0.001) as [_ | _]; [| eauto].
    fold delta.
    replace (delta + (INR (S k) * delta + lat_0))
      with (INR (S (S k)) * delta + lat_0)
      by (rewrite (S_INR (S k)); ring).
    apply IH.
    replace (S k + j)%nat with (k + S j)%nat by lia. exact Hk.
Qed.

Lemma GridEastNorthToLatLon_stops (ntings etings : R) :
  0 <= ntings ->
  exists fuel out, GridEastNorthToLatLon fuel ntings etings = Some (PyNone, out).
Proof.
  intros Hn. unfold GridEastNorthToLatLon. cbv zeta. cbn [fst snd GetAiry1830].
  fold n0 f0 a b.
  assert (Haf : 0 < a * f0) by (unfold a, f0; lra).
  assert (Hd : 0 < (ntings - n0) / (a * f0)).
  { apply Rdiv_lt_0_compat; [unfold n0; lra | exact Haf]. }
  set (X := ((ntings - n0) / (b * f0)
             + (3 * ntings + 5 * (ntings * ntings)
                + 6 * (ntings * ntings * ntings)))
            / ((ntings - n0) / (a * f0))).
  destruct (INR_unbounded X) as [K HK].
  destruct (refine_loop_stops ntings (utils.DegToRad 49) Hn K 0 0
              [Printed "Lat dash: " ((ntings - n0) / (a * f0) + utils.DegToRad 49)])
    as [[[m' l'] out'] Hr].
  - cbn [Nat.add]. unfold X in HK.
    apply Rlt_le in HK. apply (Rmult_le_compat_r _ _ _ (Rlt_le _ _ Hd)) in HK.
    unfold Rdiv at 1 in HK. rewrite Rmult_assoc, Rinv_l in HK by lra.
    lra.
  - exists (S (S K)), out'.
    replace (INR 1 * ((ntings - n0) / (a * f0)) + utils.DegToRad 49)
      with ((ntings - n0) / (a * f0) + utils.DegToRad 49) in Hr
      by (simpl; ring).
    now rewrite Hr.
Qed.

Lemma arc_at_zero (lat_0 lat_dash : R) :
  arc 0 lat_0 lat_dash = b * f0 * (lat_dash - lat_0).
Proof. unfold arc. ring. Qed.

(** For a northing of 0 the loop body runs twice: the third test of the
    condition fails. *)
Lemma refine_loop_at_zero (lat_0 : R) (out : list event) :
  refine_loop 2 0 n0 a b f0 lat_0 0 ((0 - n0) / (a * f0) + lat_0) out = None
  /\ exists out',
       refine_loop 3 0 n0 a b f0 lat_0 0 ((0 - n0) / (a * f0) + lat_0) out
       = Some (2 * (b * f0 * ((0 - n0) / (a * f0))),
               3 * ((0 - n0) / (a * f0)) + lat_0, out')
       /\ List.length out' = (List.length out + 2)%nat.
Proof.
  assert (Hm : b * f0 * ((0 - n0) / (a * f0)) = 100000 * b / a)
    by (unfold n0, a, b, f0; field; lra).
  assert (Hba : 99665 < 100000 * b / a < 99667).
  { unfold a, b. split.
    - apply (Rmult_lt_reg_r 6377563.396); [lra |]. field_simplify; lra.
    - apply (Rmult_lt_reg_r 6377563.396); [lra |]. field_simplify; lra. }
  set (delta := (0 - n0) / (a * f0)) in *.
  assert (step1 : forall fuel,
    refine_loop (S fuel) 0 n0 a b f0 lat_0 0 (delta + lat_0) out
    = refine_loop fuel 0 n0 a b f0 lat_0 (b * f0 * delta)
        (delta + (delta + lat_0)) (out ++ [Printed "Value: " (0 - n0 - 0)])).
  { intros fuel. rewrite refine_loop_step.
    destruct (Rge_dec (0 - n0 - 0) 0.001) as [_ | H];
      [| exfalso; unfold n0 in H; lra].
    fold delta. rewrite arc_at_zero. f_equal. ring. }
  assert (step2 : forall fuel out1,
    refine_loop (S fuel) 0 n0 a b f0 lat_0 (b * f0 * delta)
      (delta + (delta + lat_0)) out1
    = refine_loop fuel 0 n0 a b f0 lat_0 (2 * (b * f0 * delta))
        (3 * delta + lat_0)
        (out1 ++ [Printed "Value: " (0 - n0 - b * f0 * delta)])).
  { intros fuel out1. rewrite refine_loop_step.
    destruct (Rge_dec (0 - n0 - b * f0 * delta) 0.001) as [_ | H];
      [| exfalso; unfold n0 in H; lra].
    fold delta. rewrite arc_at_zero. f_equal; ring. }
  split.
  - rewrite step1, step2. reflexivity.
  - rewrite step1, step2, refine_loop_step.
    destruct (Rge_dec (0 - n0 - 2 * (b * f0 * delta)) 0.001) as [H | _];
      [exfalso; unfold n0 in H; lra |].
    eexists. split; [reflexivity |].
    rewrite !length_app. simpl. lia.
Qed.

Lemma GridEastNorthToLatLon_at_zero (etings : R) :
  GridEastNorthToLatLon 2 0 etings = None
  /\ exists out, GridEastNorthToLatLon 3 0 etings = Some (PyNone, out)
                 /\ List.length out = 3%nat.
Proof.
  unfold GridEastNorthToLatLon. cbv zeta. cbn [fst snd GetAiry1830].
  fold n0 f0 a b.
  destruct (refine_loop_at_zero (utils.DegToRad 49)
              [Printed "Lat dash: " ((0 - n0) / (a * f0) + utils.DegToRad 49)])
    as [H2 [out' [H3 Hlen]]].
  split.
  - now rewrite H2.
  - exists out'. now rewrite H3.
Qed.

End InverseProjection.

(** C4 (as stated it fails): a northing of 0 lies in the grid, and there
    the loop body runs twice and the call returns. *)
Lemma inverse_projection_returns_at_zero :
  in_grid_range 0 400000
  /\ GridEastNorthToLatLon 2 0 400000 = None
  /\ (exists out, GridEastNorthToLatLon 3 0 400000 = Some (PyNone, out))
  /\ ~ never_returns 0 400000.
Proof.
  destruct (GridEastNorthToLatLon_at_zero 400000) as [H2 [out [H3 _]]].
  repeat split; try lra; try exact H2.
  - now exists out.
  - intros H. specialize (H 3%nat). congruence.
Qed.

(** C4 (amended): the loop adds the same amount to its latitude estimate on
    every pass instead of a correction, yet for every northing that is not
    negative, so everywhere in the grid, it stops after finitely many
    passes and the call returns. *)
Theorem inverse_projection_returns :
  forall ntings etings : R,
    0 <= ntings ->
    exists fuel out,
      GridEastNorthToLatLon fuel ntings etings = Some (PyNone, out).
Proof.
  intros ntings etings Hn. now apply GridEastNorthToLatLon_stops.
Qed.

Lemma inverse_projection_returns_witness :
  0 <= 313177.270
  /\ exists fuel out,
       GridEastNorthToLatLon fuel 313177.270 651409.903 = Some (PyNone, out).
Proof.
  split; [lra | apply (inverse_projection_returns 313177.270 651409.903); lra].
Defined.

(** C10: whenever a call of [GridEastNorthToLatLon] returns, it returns
    [None]: no latitude or longitude comes back. *)
Theorem inverse_projection_gives_None :
  forall (fuel : nat) (ntings etings : R) (v : pyvalue) (out : list event),
    GridEastNorthToLatLon fuel ntings etings = Some (v, out) ->
    v = PyNone.
Proof.
  intros fuel ntings etings v out. unfold GridEastNorthToLatLon. cbv zeta.
  destruct (refine_loop _ _ _ _ _ _ _ _ _ _) as [[[m l] o] |]; [| discriminate].
  intros H. now injection H as <- _.
Qed.

Lemma inverse_projection_gives_None_witness :
  exists out,
    GridEastNorthToLatLon 3 0 400000 = Some (PyNone, out) /\ PyNone = PyNone.
Proof.
  destruct (GridEastNorthToLatLon_at_zero 400000) as [_ [out [H3 _]]].
  exists out. split; [exact H3 |].
  exact (inverse_projection_gives_None 3 0 400000 PyNone out H3).
Defined.

(** ** Degrees, minutes, seconds *)

Section Strings.

Local Open Scope Z_scope.

Lemma digit_val_digit_char (d : Z) :
  0 <= d < 10 -> Py.digit_val (Py.digit_char d) = Some d.
Proof.
  intros H.
  assert (C : d = 0 \/ d = 1 \/ d = 2 \/ d = 3 \/ d = 4 \/ d = 5 \/ d = 6
              \/ d = 7 \/ d = 8 \/ d = 9) by lia.
  repeat (destruct C as [-> | C]; [reflexivity |]). now subst.
Qed.

Lemma is_digit_plain (c : ascii) :
  is_digit c = true ->
  Ascii.eqb c " " = false /\ Ascii.eqb c "." = false
  /\ Ascii.eqb c "-" = false /\ Ascii.eqb c "+" = false.
Proof.
  destruct c as [[] [] [] [] [] [] [] []]; cbv; intros H;
    try discriminate H; repeat split.
Qed.

Lemma read_digits_app (s t : string) (acc : Z) :
  Py.read_digits (s ++ t) acc
  = match Py.read_digits s acc with
    | Some v => Py.read_digits t v
    | None => None
    end.
Proof.
  revert acc. induction s as [| c s IH]; intros acc; [reflexivity |].
  cbn. destruct (Py.digit_val c); [apply IH | reflexivity].
Qed.

Lemma all_chars_app (test : ascii -> bool) (s t : string) :
  Py.all_chars test (s ++ t) = Py.all_chars test s && Py.all_chars test t.
Proof.
  induction s as [| c s IH]; [reflexivity |].
  cbn. now rewrite IH, andb_assoc.
Qed.

Lemma digits_fuel_value (fuel : nat) :
  forall (n : Z) (acc : string),
    0 <= n < 2 ^ Z.of_nat fuel ->
    Py.read_digits (Py.digits_fuel fuel n acc) 0 = Py.read_digits acc n.
Proof.
  induction fuel as [| fuel IH]; intros n acc Hn.
  - cbn in *. now replace n with 0 by lia.
  - cbn [Py.digits_fuel].
    assert (Hd : 0 <= n mod 10 < 10) by (apply Z.mod_pos_bound; lia).
    destruct (Z.ltb_spec n 10) as [Hlt | Hge].
    + cbn [Py.read_digits]. rewrite digit_val_digit_char by exact Hd.
      rewrite Z.mod_small by lia. now rewrite Z.mul_0_r.
    + rewrite IH.
      * cbn [Py.read_digits]. rewrite digit_val_digit_char by exact Hd.
        f_equal. rewrite (Z.div_mod n 10) at 3 by lia. reflexivity.
      * rewrite Nat2Z.inj_succ, Z.pow_succ_r in Hn by lia.
        split; [apply Z.div_pos; lia |].
        apply Z.div_lt_upper_bound; lia.
Qed.

Lemma digits_value (n : Z) : 0 <= n -> Py.read_digits (Py.digits n) 0 = Some n.
Proof.
  intros Hn. unfold Py.digits. rewrite digits_fuel_value; [reflexivity |].
  split; [exact Hn |].
  rewrite Nat2Z.inj_succ, Z2Nat.id by apply Z.log2_nonneg.
  destruct (Z.eq_dec n 0) as [-> | Hz]; [reflexivity |].
  apply Z.log2_spec. lia.
Qed.

Lemma digits_fuel_all_digits (fuel : nat) :
  forall (n : Z) (acc : string),
    0 <= n -> Py.all_chars is_digit acc = true ->
    Py.all_chars is_digit (Py.digits_fuel fuel n acc) = true.
Proof.
  induction fuel as [| fuel IH]; intros n acc Hn Hacc; [exact Hacc |].
  cbn [Py.digits_fuel].
  assert (Hd : 0 <= n mod 10 < 10) by (apply Z.mod_pos_bound; lia).
  assert (Hc : Py.all_chars is_digit (String (Py.digit_char (n mod 10)) acc) = true).
  { cbn. unfold is_digit at 1. now rewrite digit_val_digit_char, Hacc. }
  destruct (n <? 10); [exact Hc |].
  apply IH; [apply Z.div_pos; lia | exact Hc].
Qed.

Lemma digits_all_digits (n : Z) :
  0 <= n -> Py.all_chars is_digit (Py.digits n) = true.
Proof. intros Hn. now apply digits_fuel_all_digits. Qed.

Lemma digits_fuel_nonempty (fuel : nat) (n : Z) (acc : string) :
  Py.digits_fuel (S fuel) n acc <> EmptyString.
Proof.
  revert n acc. induction fuel as [| fuel IH]; intros n acc.
  - cbn. now destruct (n <? 10).
  - cbn [Py.digits_fuel]. destruct (n <? 10); [discriminate |].
    apply IH.
Qed.

Lemma digits_fuel_length (fuel : nat) :
  forall (n : Z) (acc : string) (k : nat),
    0 <= n < 10 ^ Z.of_nat (S k) ->
    (String.length (Py.digits_fuel fuel n acc) <= S k + String.length acc)%nat.
Proof.
  induction fuel as [| fuel IH]; intros n acc k Hn; [cbn; lia |].
  cbn [Py.digits_fuel].
  destruct (Z.ltb_spec n 10) as [Hlt | Hge]; [cbn; lia |].
  destruct k as [| k]; [cbn in Hn; lia |].
  etransitivity.
  - apply (IH _ _ k).
    rewrite (Nat2Z.inj_succ (S k)), Z.pow_succ_r in Hn by lia.
    split; [apply Z.div_pos; lia |].
    apply Z.div_lt_upper_bound; lia.
  - cbn. lia.
Qed.


Lemma replicate_zero_value (k : nat) (s : string) :
  Py.read_digits (Py.replicate k "0" ++ s) 0 = Py.read_digits s 0.
Proof. induction k as [| k IH]; [reflexivity | exact IH]. Qed.

Lemma replicate_zero_all_digits (k : nat) :
  Py.all_chars is_digit (Py.replicate k "0") = true.
Proof. induction k as [| k IH]; [reflexivity | exact IH]. Qed.

Lemma replicate_length (k : nat) (c : ascii) :
  String.length (Py.replicate k c) = k.
Proof. induction k as [| k IH]; [reflexivity | cbn; now rewrite IH]. Qed.

Lemma string_length_app (s t : string) :
  String.length (s ++ t) = (String.length s + String.length t)%nat.
Proof. induction s as [| c s IH]; [reflexivity | cbn; now rewrite IH]. Qed.

Lemma rjust_zero_value (s : string) (w : nat) :
  Py.read_digits (Py.rjust s w "0") 0 = Py.read_digits s 0.
Proof. apply replicate_zero_value. Qed.

Lemma rjust_zero_all_digits (s : string) (w : nat) :
  Py.all_chars is_digit s = true ->
  Py.all_chars is_digit (Py.rjust s w "0") = true.
Proof.
  intros H. unfold Py.rjust.
  now rewrite all_chars_app, replicate_zero_all_digits, H.
Qed.

Lemma rjust_length (s : string) (w : nat) (c : ascii) :
  (String.length s <= w)%nat -> String.length (Py.rjust s w c) = w.
Proof.
  intros H. unfold Py.rjust. rewrite string_length_app, replicate_length. lia.
Qed.

Lemma rjust_nonempty (s : string) (w : nat) (c : ascii) :
  s <> EmptyString -> Py.rjust s w c <> EmptyString.
Proof.
  intros Hs. unfold Py.rjust.
  destruct (Py.replicate (w - String.length s) c); [exact Hs | discriminate].
Qed.

(** A digit string read after [acc] is worth [acc] shifted, plus its own
    value. *)
Lemma read_digits_all_digits (s : string) :
  forall acc, Py.all_chars is_digit s = true ->
    exists v, Py.read_digits s acc = Some v.
Proof.
  induction s as [| c s IH]; intros acc H; [now exists acc |].
  cbn in H. apply andb_prop in H as [Hc Hs].
  cbn. unfold is_digit in Hc. destruct (Py.digit_val c); [| discriminate].
  now apply IH.
Qed.

(** Zeros dropped at the end of a digit string divide its value by a power
    of ten. *)
Lemma strip_zeros_value (s : string) :
  forall acc, Py.all_chars is_digit s = true ->
    exists v t,
      Py.read_digits s acc = Some v
      /\ Py.read_digits (Py.strip_zeros s) acc = Some t
      /\ (String.length (Py.strip_zeros s) <= String.length s)%nat
      /\ v = t * 10 ^ Z.of_nat (String.length s - String.length (Py.strip_zeros s)).
Proof.
  induction s as [| c s IH]; intros acc H.
  - exists acc, acc. cbn. repeat split; lia.
  - cbn in H. apply andb_prop in H as [Hc Hs].
    assert (Hd : exists d, Py.digit_val c = Some d).
    { unfold is_digit in Hc. destruct (Py.digit_val c) as [d |]; [now exists d | discriminate]. }
    destruct Hd as [d Hd].
    destruct (IH (10 * acc + d) Hs) as (v & t & Hv & Ht & Hl & E).
    cbn [Py.strip_zeros Py.read_digits]. rewrite Hd.
    destruct (Py.strip_zeros s) as [| c' t'] eqn:Hstrip.
    + cbn [Py.read_digits] in Ht.
      assert (Et : t = 10 * acc + d) by congruence. subst t. clear Ht.
      change (String.length "") with 0%nat in E. rewrite Nat.sub_0_r in E.
      destruct (Ascii.eqb_spec c "0") as [-> | Hne].
      * cbn in Hd. injection Hd as <-.
        exists v, acc. cbn [Py.read_digits String.length].
        repeat split; [exact Hv | lia |].
        rewrite Nat.sub_0_r, Nat2Z.inj_succ, Z.pow_succ_r by lia.
        rewrite E. ring.
      * exists v, (10 * acc + d). cbn [Py.read_digits String.length]. rewrite Hd.
        repeat split; [exact Hv | lia |].
        replace (S (String.length s) - 1)%nat with (String.length s) by lia.
        exact E.
    + exists v, t. cbn [Py.read_digits String.length] in *. rewrite Hd.
      repeat split; [exact Hv | exact Ht | lia |].
      rewrite E. do 3 f_equal.
Qed.

Lemma strip_zeros_all_digits (s : string) :
  Py.all_chars is_digit s = true -> Py.all_chars is_digit (Py.strip_zeros s) = true.
Proof.
  induction s as [| c s IH]; intros H; [reflexivity |].
  cbn in H. apply andb_prop in H as [Hc Hs]. specialize (IH Hs).
  cbn [Py.strip_zeros]. destruct (Py.strip_zeros s) as [| c' t'].
  - destruct (Ascii.eqb c "0"); [reflexivity | cbn; now rewrite Hc].
  - cbn [Py.all_chars] in *. now rewrite Hc, IH.
Qed.

Lemma cut_point_digits (s : string) :
  Py.all_chars is_digit s = true -> Py.cut_point s = (s, None).
Proof.
  induction s as [| c s IH]; intros H; [reflexivity |].
  cbn in H. apply andb_prop in H as [Hc Hs].
  cbn. destruct (is_digit_plain c Hc) as (_ & -> & _).
  now rewrite (IH Hs).
Qed.

Lemma cut_point_digits_point (s t : string) :
  Py.all_chars is_digit s = true ->
  Py.cut_point (s ++ String "." t) = (s, Some t).
Proof.
  induction s as [| c s IH]; intros H; [reflexivity |].
  cbn in H. apply andb_prop in H as [Hc Hs].
  cbn. destruct (is_digit_plain c Hc) as (_ & -> & _).
  now rewrite (IH Hs).
Qed.

Lemma split_plain (s : string) :
  Py.all_chars not_space s = true -> Py.split " " s = [s].
Proof.
  induction s as [| c s IH]; intros H; [reflexivity |].
  cbn in H. apply andb_prop in H as [Hc Hs].
  cbn. unfold not_space in Hc. apply negb_true_iff in Hc. rewrite Hc.
  now rewrite (IH Hs).
Qed.

Lemma split_plain_space (s t : string) :
  Py.all_chars not_space s = true ->
  Py.split " " (s ++ String " " t) = s :: Py.split " " t.
Proof.
  induction s as [| c s IH]; intros H; [reflexivity |].
  cbn in H. apply andb_prop in H as [Hc Hs].
  cbn. unfold not_space in Hc. apply negb_true_iff in Hc. rewrite Hc.
  now rewrite (IH Hs).
Qed.

Lemma all_chars_weaken (p q : ascii -> bool) (s : string) :
  (forall c, p c = true -> q c = true) ->
  Py.all_chars p s = true -> Py.all_chars q s = true.
Proof.
  intros Hpq. induction s as [| c s IH]; intros H; [reflexivity |].
  cbn in *. apply andb_prop in H as [Hc Hs]. now rewrite (Hpq c Hc), IH.
Qed.

Lemma digits_not_space (s : string) :
  Py.all_chars is_digit s = true -> Py.all_chars not_space s = true.
Proof.
  apply all_chars_weaken. intros c Hc. unfold not_space.
  now destruct (is_digit_plain c Hc) as (-> & _).
Qed.

End Strings.

Section Numbers.

Local Open Scope Q_scope.

Lemma int_nonneg (x : Q) : 0 <= x -> Py.int x = Qfloor x.
Proof.
  destruct x as [n d]. unfold Qle, Py.int, Qfloor. cbn. intros H.
  apply Z.quot_div_nonneg; lia.
Qed.

Lemma Qfloor_nonneg (x : Q) : 0 <= x -> (0 <= Qfloor x)%Z.
Proof. intros H. apply (Qfloor_resp_le 0 x H). Qed.

Lemma round_half_even_near (y : Q) :
  inject_Z (Py.round_half_even y) - (1 # 2) <= y
  /\ y <= inject_Z (Py.round_half_even y) + (1 # 2).
Proof.
  pose proof (Qfloor_le y) as Hlo. pose proof (Qlt_floor y) as Hhi.
  unfold Py.round_half_even.
  rewrite inject_Z_plus in Hhi. change (inject_Z 1) with 1 in Hhi.
  destruct (Qcompare_spec (y - inject_Z (Qfloor y)) (1 # 2)) as [E | L | G].
  - destruct (Z.even (Qfloor y)); rewrite ?inject_Z_plus;
      change (inject_Z 1) with 1; split; Lqa.lra.
  - split; Lqa.lra.
  - rewrite inject_Z_plus. change (inject_Z 1) with 1. split; Lqa.lra.
Qed.

Lemma round_half_even_nonneg (y : Q) :
  0 <= y -> (0 <= Py.round_half_even y)%Z.
Proof.
  intros Hy. pose proof (Qfloor_nonneg y Hy). unfold Py.round_half_even.
  destruct (Qcompare _ _); [destruct (Z.even _) | |]; lia.
Qed.

Lemma round_near (y : Q) :
  Py.round y 4 - (1 # 20000) <= y /\ y <= Py.round y 4 + (1 # 20000).
Proof.
  unfold Py.round. change (inject_Z (10 ^ Z.of_nat 4)) with 10000.
  destruct (round_half_even_near (y * 10000)) as [H1 H2].
  set (k := inject_Z (Py.round_half_even (y * 10000))) in *.
  assert (E : k / 10000 == k * (1 # 10000)) by (unfold Qdiv; reflexivity).
  rewrite E. split; Lqa.lra.
Qed.

Lemma round_nonneg (y : Q) : 0 <= y -> 0 <= Py.round y 4.
Proof.
  intros Hy. unfold Py.round. change (inject_Z (10 ^ Z.of_nat 4)) with 10000.
  assert (H : (0 <= Py.round_half_even (y * 10000))%Z).
  { apply round_half_even_nonneg. Lqa.lra. }
  assert (H' : 0 <= inject_Z (Py.round_half_even (y * 10000))).
  { change 0 with (inject_Z 0). now rewrite <- Zle_Qle. }
  set (k := inject_Z _) in *.
  assert (E : k / 10000 == k * (1 # 10000)) by (unfold Qdiv; reflexivity).
  rewrite E. Lqa.lra.
Qed.

End Numbers.

Section FloatStrings.

Local Open Scope Q_scope.

Lemma float_unsigned (c : ascii) (s : string) :
  is_digit c = true ->
  Py.float (String c s)
  = match Py.read_unsigned (String c s) with
    | Some q => Ok q
    | None => Raise ValueError
    end.
Proof.
  intros Hc. unfold Py.float.
  now destruct (is_digit_plain c Hc) as (_ & _ & -> & ->).
Qed.

Lemma float_digit_string (s : string) (v : Z) :
  s <> EmptyString -> Py.all_chars is_digit s = true ->
  Py.read_digits s 0 = Some v ->
  Py.float s = Ok (inject_Z v).
Proof.
  intros Hne Hd Hv. destruct s as [| c s]; [easy |].
  pose proof Hd as Hd'. cbn in Hd'. apply andb_prop in Hd' as [Hc _].
  rewrite (float_unsigned c s Hc). unfold Py.read_unsigned.
  rewrite (cut_point_digits _ Hd). now rewrite Hv.
Qed.

Lemma float_digits_point (i f : string) (iv fv : Z) :
  i <> EmptyString -> Py.all_chars is_digit i = true ->
  Py.read_digits i 0 = Some iv -> Py.read_digits f 0 = Some fv ->
  Py.float (i ++ String "." f)
  = Ok (inject_Z iv + inject_Z fv / inject_Z (10 ^ Z.of_nat (String.length f))).
Proof.
  intros Hne Hd Hi Hf. destruct i as [| c i]; [easy |].
  pose proof Hd as Hd'. cbn in Hd'. apply andb_prop in Hd' as [Hc _].
  change ((String c i ++ String "." f)%string)
    with (String c (i ++ String "." f)%string).
  rewrite (float_unsigned c _ Hc).
  change (String c (i ++ String "." f)%string)
    with ((String c i ++ String "." f)%string).
  unfold Py.read_unsigned. rewrite (cut_point_digits_point _ f Hd).
  now rewrite Hi, Hf.
Qed.

Lemma inject_Z_pow10_pos (k : nat) : 0 < inject_Z (10 ^ Z.of_nat k).
Proof.
  change 0 with (inject_Z 0). rewrite <- Zlt_Qlt. apply Z.pow_pos_nonneg; lia.
Qed.

(** Digits after the point, before and after the zeros at their end are
    dropped, stand for the same fraction. *)
Lemma stripped_fraction (t : Z) (l w : nat) :
  (l <= w)%nat ->
  inject_Z t / inject_Z (10 ^ Z.of_nat l)
  == inject_Z (t * 10 ^ Z.of_nat (w - l)) / inject_Z (10 ^ Z.of_nat w).
Proof.
  intros Hl.
  replace (Z.of_nat w) with (Z.of_nat (w - l) + Z.of_nat l)%Z by lia.
  rewrite Z.pow_add_r, !inject_Z_mult by lia.
  pose proof (inject_Z_pow10_pos l). pose proof (inject_Z_pow10_pos (w - l)).
  field. split; Lqa.lra.
Qed.

(** Reading back what [str_float] wrote gives the number cut after
    [frac_places] decimals. *)
Lemma float_str_float (q : Q) :
  0 <= q ->
  exists q',
    Py.float (Py.str_float q) = Ok q'
    /\ q' <= q /\ q <= q' + (1 # 10000000000000000)
    /\ Py.all_chars not_space (Py.str_float q) = true.
Proof.
  intros Hq. unfold Py.str_float.
  destruct (Qlt_le_dec q 0) as [Hneg | _]; [exfalso; Lqa.lra |].
  assert (Ea : Qabs q == q) by (now apply Qabs_pos).
  set (a := Qabs q) in *.
  set (ip := Qfloor a).
  change (inject_Z (10 ^ Z.of_nat Py.frac_places)) with 10000000000000000.
  set (fr := Qfloor ((a - inject_Z ip) * 10000000000000000)).
  pose proof (Qfloor_le a) as Hlo. pose proof (Qlt_floor a) as Hhi.
  fold ip in Hlo, Hhi. rewrite inject_Z_plus in Hhi.
  change (inject_Z 1) with 1 in Hhi.
  assert (Hip : (0 <= ip)%Z) by (apply Qfloor_nonneg; Lqa.lra).
  pose proof (Qfloor_le ((a - inject_Z ip) * 10000000000000000)) as Flo.
  pose proof (Qlt_floor ((a - inject_Z ip) * 10000000000000000)) as Fhi.
  fold fr in Flo, Fhi. rewrite inject_Z_plus in Fhi.
  change (inject_Z 1) with 1 in Fhi.
  assert (Hfr : (0 <= fr < 10 ^ Z.of_nat 16)%Z).
  { split.
    - apply Qfloor_nonneg. Lqa.lra.
    - rewrite Zlt_Qlt. change (inject_Z (10 ^ Z.of_nat 16)) with 10000000000000000.
      Lqa.lra. }
  set (padded := Py.rjust (Py.digits fr) Py.frac_places "0").
  assert (Hpd : Py.all_chars is_digit padded = true).
  { apply rjust_zero_all_digits, digits_all_digits. lia. }
  assert (Hpl : String.length padded = 16%nat).
  { apply rjust_length.
    pose proof (digits_fuel_length (S (Z.to_nat (Z.log2 fr))) fr EmptyString 15 Hfr).
    unfold Py.digits. cbn in *. lia. }
  destruct (strip_zeros_value padded 0%Z Hpd) as (v & t & Hv & Ht & Hl & E).
  unfold padded in Hv. rewrite rjust_zero_value, digits_value in Hv by lia.
  fold padded in Hv. assert (Hvf : v = fr) by congruence.
  rewrite Hvf in E. clear Hv Hvf v.
  rewrite Hpl in *.
  pose proof (strip_zeros_all_digits padded Hpd) as Hsd.
  set (fs := Py.strip_zeros padded) in *.
  assert (Hi1 : Py.digits ip <> EmptyString) by apply digits_fuel_nonempty.
  assert (Hi2 : Py.all_chars is_digit (Py.digits ip) = true)
    by (apply digits_all_digits; lia).
  assert (Hi3 : Py.read_digits (Py.digits ip) 0 = Some ip)
    by (apply digits_value; lia).
  assert (Hfrac : exists f fv,
    (if String.eqb fs "" then "0"%string else fs) = f
    /\ Py.all_chars is_digit f = true
    /\ Py.read_digits f 0 = Some fv
    /\ inject_Z fv / inject_Z (10 ^ Z.of_nat (String.length f))
       == inject_Z fr / 10000000000000000).
  { destruct (String.eqb_spec fs "") as [Hfs | Hfs].
    - exists "0"%string, 0%Z. repeat split.
      rewrite Hfs in Ht, E. cbn in Ht. injection Ht as <-.
      rewrite E. reflexivity.
    - exists fs, t. repeat split; [exact Hsd | exact Ht |].
      rewrite (stripped_fraction t (String.length fs) 16 Hl), <- E.
      reflexivity. }
  destruct Hfrac as (f & fv & -> & Hfd & Hfv & Hfq).
  change ((Py.digits ip ++ "." ++ f)%string)
    with ((Py.digits ip ++ String "." f)%string).
  rewrite (float_digits_point _ _ _ _ Hi1 Hi2 Hi3 Hfv).
  eexists. split; [reflexivity |].
  rewrite Hfq.
  assert (Ediv : inject_Z fr / 10000000000000000
                 == inject_Z fr * (1 # 10000000000000000))
    by (unfold Qdiv; reflexivity).
  rewrite Ediv.
  repeat split; try Lqa.lra.
  rewrite all_chars_app. rewrite (digits_not_space _ Hi2).
  cbn. now apply digits_not_space.
Qed.

End FloatStrings.

Section DmsRoundTrip.

Local Open Scope Q_scope.

Lemma index_of_four {A : Type} (a b c d : A) :
  Py.index [a; b; c; d] 0 = Ok a /\ Py.index [a; b; c; d] 1 = Ok b
  /\ Py.index [a; b; c; d] 2 = Ok c /\ Py.index [a; b; c; d] 3 = Ok d.
Proof. repeat split. Qed.

Lemma str_int_nonneg (z : Z) : (0 <= z)%Z -> Py.str_int z = Py.digits z.
Proof.
  intros Hz. unfold Py.str_int. destruct (Z.ltb_spec z 0); [lia | reflexivity].
Qed.

(** The four fields written by [DdToDms] are read back by [DmsToDd]. *)
Lemma DmsToDd_fields (d m s h : string) (dv mv : Z) (sv : Q) :
  Py.all_chars not_space d = true -> Py.all_chars not_space m = true ->
  Py.all_chars not_space s = true -> Py.all_chars not_space h = true ->
  Py.float d = Ok (inject_Z dv) -> Py.float m = Ok (inject_Z mv) ->
  Py.float s = Ok sv ->
  DmsToDd (d ++ " " ++ m ++ " " ++ s ++ " " ++ h)
  = Ok (let dd := inject_Z dv + inject_Z mv / 60 + sv / 3600 in
        if (String.eqb h "S" || String.eqb h "W")%bool then dd * -1 else dd).
Proof.
  intros Hd Hm Hs Hh Fd Fm Fs. unfold DmsToDd.
  change ((d ++ " " ++ m ++ " " ++ s ++ " " ++ h)%string)
    with ((d ++ String " " (m ++ String " " (s ++ String " " h)))%string).
  rewrite !split_plain_space, split_plain by assumption.
  destruct (index_of_four d m s h) as (-> & -> & -> & ->).
  cbn [Py.bind]. rewrite Fd, Fm, Fs. reflexivity.
Qed.

Lemma DdToDms_DmsToDd (x : Q) (axis : ELatLon) :
  exists s y,
    DdToDms x (Member axis) = Ok s /\ DmsToDd s = Ok y
    /\ Qabs (y - x) <= 1 # 70000000.
Proof.
  unfold DdToDms.
  pose proof (Qabs_nonneg x) as HA.
  set (A := Qabs x) in *.
  rewrite (int_nonneg A HA).
  set (deg := Qfloor A).
  pose proof (Qfloor_le A) as Dlo. pose proof (Qlt_floor A) as Dhi.
  fold deg in Dlo, Dhi. rewrite inject_Z_plus in Dhi.
  change (inject_Z 1) with 1 in Dhi.
  assert (Hdeg : (0 <= deg)%Z) by (now apply Qfloor_nonneg).
  assert (HM : 0 <= (A - inject_Z deg) * 60) by Lqa.lra.
  rewrite (int_nonneg _ HM).
  set (min := Qfloor ((A - inject_Z deg) * 60)).
  pose proof (Qfloor_le ((A - inject_Z deg) * 60)) as Mlo. fold min in Mlo.
  assert (Hmin : (0 <= min)%Z) by (now apply Qfloor_nonneg).
  set (sec := (A - inject_Z deg - inject_Z min / 60) * 3600).
  assert (Esec : sec == (A - inject_Z deg) * 3600 - inject_Z min * 60)
    by (unfold sec; field).
  assert (Hsec : 0 <= sec) by (rewrite Esec; Lqa.lra).
  pose proof (round_near sec) as [Rlo Rhi].
  pose proof (round_nonneg sec Hsec) as Rpos.
  destruct (float_str_float (Py.round sec 4) Rpos) as (q' & Fs & Qlo & Qhi & Hs).
  rewrite !str_int_nonneg by assumption.
  assert (Hd : forall w, Py.all_chars not_space (Py.rjust (Py.digits deg) w "0") = true).
  { intros w. apply digits_not_space, rjust_zero_all_digits, digits_all_digits.
    exact Hdeg. }
  assert (Fd : forall w, Py.float (Py.rjust (Py.digits deg) w "0") = Ok (inject_Z deg)).
  { intros w. apply float_digit_string.
    - apply rjust_nonempty, digits_fuel_nonempty.
    - apply rjust_zero_all_digits, digits_all_digits. exact Hdeg.
    - rewrite rjust_zero_value. now apply digits_value. }
  assert (Hm : Py.all_chars not_space (Py.digits min) = true).
  { apply digits_not_space, digits_all_digits. exact Hmin. }
  assert (Fm : Py.float (Py.digits min) = Ok (inject_Z min)).
  { apply float_digit_string.
    - apply digits_fuel_nonempty.
    - now apply digits_all_digits.
    - now apply digits_value. }
  assert (Hval : inject_Z deg + inject_Z min / 60 + q' / 3600
                 == A + (q' - sec) * (1 # 3600)).
  { rewrite Esec. field. }
  assert (Habs : x < 0 -> A == - x).
  { intros Hx. apply Qabs_neg. Lqa.lra. }
  assert (Hpos : 0 <= x -> A == x) by (apply Qabs_pos).
  destruct axis; cbn [Py.read_local Py.bind];
    destruct (Qlt_le_dec x 0) as [Hx | Hx];
    eexists; eexists; (split; [reflexivity |]);
    (split; [eapply DmsToDd_fields;
               [apply Hd | exact Hm | exact Hs | reflexivity
               | apply Fd | exact Fm | exact Fs] |]);
    cbn [String.eqb Ascii.eqb Bool.eqb orb]; cbv zeta;
    apply Qabs_Qle_condition; rewrite Hval;
    try (specialize (Habs Hx)); try (specialize (Hpos Hx));
    split; Lqa.lra.
Qed.

End DmsRoundTrip.

(** C3: for every decimal-degree value in the valid range of its axis,
    [DmsToDd] applied to the string written by [DdToDms] gives a value
    within 1e-4 degrees of it. *)
Theorem DmsToDd_DdToDms_round_trip :
  forall (axis : ELatLon) (x : Q),
    in_valid_range axis x ->
    exists s y,
      DdToDms x (Member axis) = Ok s /\ DmsToDd s = Ok y
      /\ (Qabs (y - x) <= 1 # 10000)%Q.
Proof.
  intros axis x _.
  destruct (DdToDms_DmsToDd x axis) as (s & y & H1 & H2 & H3).
  exists s, y. repeat split; [exact H1 | exact H2 |].
  eapply Qle_trans; [exact H3 | easy].
Qed.

Lemma DmsToDd_DdToDms_round_trip_witness :
  in_valid_range Lat 52.65757
  /\ exists s y,
       DdToDms 52.65757 (Member Lat) = Ok s /\ DmsToDd s = Ok y
       /\ (Qabs (y - 52.65757) <= 1 # 10000)%Q.
Proof.
  split.
  - unfold in_valid_range, Qle. cbn. lia.
  - apply (DmsToDd_DdToDms_round_trip Lat 52.65757).
    unfold in_valid_range, Qle. cbn. lia.
Defined.

(** C9: 51.5 degrees of latitude is written "51 30 0.0 N". *)
Theorem DdToDms_example :
  DdToDms 51.5 (Member Lat) = Ok "51 30 0.0 N"%string.
Proof. vm_compute. reflexivity. Qed.

(** ** Geoid heights *)

Section GeoidTable.

Local Open Scope Q_scope.

Lemma int_of_whole (x : Q) (z : Z) : x == inject_Z z -> Py.int x = z.
Proof.
  destruct x as [n d]. unfold Qeq, Py.int. cbn. intros H.
  rewrite Z.mul_1_r in H. subst n. apply Z.quot_mul. lia.
Qed.

(** The lower grid line of a coordinate and the next one, as indices. *)
Lemma lower_index (x : Q) :
  Py.int ((x - Py.fmod x 0.25) / 0.25) = Qfloor (x / 0.25).
Proof.
  apply int_of_whole. unfold Py.fmod. field.
Qed.

Lemma upper_index (x : Q) :
  Py.int ((x - Py.fmod x 0.25 + 0.25) / 0.25) = (Qfloor (x / 0.25) + 1)%Z.
Proof.
  apply int_of_whole. unfold Py.fmod. rewrite inject_Z_plus. field.
Qed.

Lemma index_raises {A : Type} (l : list A) (i : Z) :
  forall e, Py.index l i = Raise e -> e = IndexError.
Proof.
  intros e. unfold Py.index.
  destruct (_ || _)%bool; [congruence |].
  destruct (nth_error _ _); congruence.
Qed.

Lemma index_beyond {A : Type} (l : list A) (i : Z) :
  (Z.of_nat (List.length l) <= i)%Z -> Py.index l i = Raise IndexError.
Proof.
  intros H. unfold Py.index.
  destruct (Z.ltb_spec i 0) as [Hneg | _]; [lia |].
  destruct (Z.leb_spec (Z.of_nat (List.length l)) i) as [_ | Hlt]; [| lia].
  now rewrite orb_true_r.
Qed.

Lemma index_In {A : Type} (l : list A) (i : Z) (a : A) :
  Py.index l i = Ok a -> In a l.
Proof.
  unfold Py.index. destruct (_ || _)%bool; [discriminate |].
  destruct (nth_error _ _) eqn:E; [| discriminate].
  intros H. injection H as <-. eapply nth_error_In, E.
Qed.

Lemma lookup_raises (heights : list (list Q)) (i j : Z) :
  forall e, lookup heights i j = Raise e -> e = IndexError.
Proof.
  intros e. unfold lookup.
  destruct (Py.index heights i) as [row | e'] eqn:E; cbn.
  - apply index_raises.
  - intros H. injection H as <-. eapply index_raises, E.
Qed.

Lemma step_nonzero (u : Q) : Qeq_bool (u + 0.25 - u) 0 = false.
Proof.
  destruct (Qeq_bool (u + 0.25 - u) 0) eqn:E; [| reflexivity].
  apply Qeq_bool_iff in E.
  assert (H : u + 0.25 - u == 0.25) by ring.
  rewrite H in E. discriminate E.
Qed.

(** [GetHeight] reads the four grid nodes in a fixed order and then
    interpolates, which cannot fail. *)
Lemma GetHeight_lookups (heights : list (list Q)) (lat lon : Q) :
  let i := Qfloor (lat / 0.25) in
  let j := Qfloor (lon / 0.25) in
  exists k,
    GetHeight (mkEgm heights 0.25) lat lon
    = (q11 <- lookup heights i j ;;
       q12 <- lookup heights (i + 1) j ;;
       q21 <- lookup heights i (j + 1) ;;
       q22 <- lookup heights (i + 1) (j + 1) ;;
       Ok (k q11 q12 q21 q22)).
Proof.
  intros i j. eexists. unfold GetHeight, lookup, qmod, qdiv.
  cbn [StepSize Egm96GridHeights].
  change (Qeq_bool 0.25 0) with false. cbn [Py.bind].
  rewrite !step_nonzero. cbn [Py.bind].
  rewrite !lower_index, !upper_index. fold i j.
  destruct (Py.index heights i) as [r1 | e1]; cbn [Py.bind]; [| reflexivity].
  destruct (Py.index r1 j) as [q11 | e]; cbn [Py.bind]; [| reflexivity].
  destruct (Py.index heights (i + 1)) as [r2 | e2]; cbn [Py.bind]; [| reflexivity].
  destruct (Py.index r2 j) as [q12 | e]; cbn [Py.bind]; [| reflexivity].
  destruct (Py.index r1 (j + 1)) as [q21 | e]; cbn [Py.bind]; [| reflexivity].
  destruct (Py.index r2 (j + 1)) as [q22 | e]; cbn [Py.bind]; [| reflexivity].
  instantiate (1 := fun q11 q12 q21 q22 => _). cbn beta. reflexivity.
Qed.

Lemma floor_quarter_ge (x : Q) (n : Z) :
  inject_Z n * 0.25 < x -> (n <= Qfloor (x / 0.25))%Z.
Proof.
  intros H. rewrite <- (Qfloor_Z n). apply Qfloor_resp_le.
  assert (E : x / 0.25 == x * 4) by field. rewrite E. Lqa.lra.
Qed.

Lemma lookup_beyond_rows (heights : list (list Q)) (i j : Z) :
  (Z.of_nat (List.length heights) <= i)%Z ->
  lookup heights i j = Raise IndexError.
Proof.
  intros H. unfold lookup. now rewrite index_beyond.
Qed.

Lemma lookup_beyond_cols (heights : list (list Q)) (i j : Z) :
  rectangular (mkEgm heights 0.25) ->
  (grid_cols (mkEgm heights 0.25) <= j)%Z ->
  lookup heights i j = Raise IndexError.
Proof.
  intros Hrect H. unfold lookup.
  destruct (Py.index heights i) as [row | e] eqn:E; cbn [Py.bind].
  - apply index_beyond. apply index_In in E.
    unfold rectangular in Hrect. rewrite Forall_forall in Hrect.
    now rewrite (Hrect row E).
  - f_equal. eapply index_raises, E.
Qed.

Lemma bind_IndexError {A B : Type} (c : result A) (k : A -> result B) :
  (forall e, c = Raise e -> e = IndexError) ->
  (forall a, k a = Raise IndexError) ->
  (x <- c ;; k x) = Raise IndexError.
Proof.
  intros Hc Hk. destruct c as [a | e]; cbn.
  - apply Hk.
  - f_equal. now apply Hc.
Qed.

Lemma GetHeight_beyond_upper_edge (heights : list (list Q)) (lat lon : Q) :
  rectangular (mkEgm heights 0.25) ->
  inject_Z (grid_rows (mkEgm heights 0.25) - 1) * 0.25 < lat
  \/ inject_Z (grid_cols (mkEgm heights 0.25) - 1) * 0.25 < lon ->
  GetHeight (mkEgm heights 0.25) lat lon = Raise IndexError.
Proof.
  intros Hrect Hout.
  destruct (GetHeight_lookups heights lat lon) as [k ->].
  apply bind_IndexError; [apply lookup_raises | intros q11].
  destruct Hout as [Hlat | Hlon].
  - rewrite lookup_beyond_rows; [reflexivity |].
    apply floor_quarter_ge in Hlat. unfold grid_rows in Hlat.
    cbn [Egm96GridHeights] in Hlat. lia.
  - apply bind_IndexError; [apply lookup_raises | intros q12].
    rewrite lookup_beyond_cols; [reflexivity | exact Hrect |].
    apply floor_quarter_ge in Hlon. lia.
Qed.

Lemma index_within {A : Type} (l : list A) (i : Z) :
  (- Z.of_nat (List.length l) <= i < Z.of_nat (List.length l))%Z ->
  exists a, Py.index l i = Ok a /\ In a l.
Proof.
  intros H. unfold Py.index.
  set (n := Z.of_nat (List.length l)) in *.
  set (j := (if (i <? 0)%Z then (i + n)%Z else i)).
  assert (Hj : (0 <= j < n)%Z).
  { unfold j. destruct (Z.ltb_spec i 0); lia. }
  destruct (Z.ltb_spec j 0) as [? | _]; [lia |].
  destruct (Z.leb_spec n j) as [? | _]; [lia |].
  cbn [orb].
  destruct (nth_error l (Z.to_nat j)) as [a |] eqn:E.
  - exists a. split; [reflexivity |]. eapply nth_error_In, E.
  - apply nth_error_None in E. lia.
Qed.

Lemma lookup_within (heights : list (list Q)) (i j : Z) :
  rectangular (mkEgm heights 0.25) ->
  (- grid_rows (mkEgm heights 0.25) <= i < grid_rows (mkEgm heights 0.25))%Z ->
  (- grid_cols (mkEgm heights 0.25) <= j < grid_cols (mkEgm heights 0.25))%Z ->
  exists q, lookup heights i j = Ok q.
Proof.
  intros Hrect Hi Hj. unfold lookup.
  destruct (index_within heights i Hi) as (row & -> & Hin). cbn [Py.bind].
  unfold rectangular in Hrect. rewrite Forall_forall in Hrect.
  specialize (Hrect row Hin). cbn beta in Hrect.
  destruct (index_within row j) as (q & -> & _); [lia | now exists q].
Qed.

(** A quarter of a degree south of the table, and anywhere down to the
    number of rows times the step, the index of the lower grid line is
    negative and counts from the last row: a height comes back. *)
Lemma GetHeight_below_range (heights : list (list Q)) :
  rectangular (mkEgm heights 0.25) ->
  (2 <= grid_rows (mkEgm heights 0.25))%Z ->
  (2 <= grid_cols (mkEgm heights 0.25))%Z ->
  exists h, GetHeight (mkEgm heights 0.25) (-0.25) 0 = Ok h.
Proof.
  intros Hrect Hr Hc.
  destruct (GetHeight_lookups heights (-0.25) 0) as [k ->].
  change (Qfloor (-0.25 / 0.25)) with (-1)%Z.
  change (Qfloor (0 / 0.25)) with 0%Z.
  destruct (lookup_within heights (-1) 0 Hrect) as [q11 ->]; [lia | lia |].
  destruct (lookup_within heights (-1 + 1) 0 Hrect) as [q12 ->]; [lia | lia |].
  destruct (lookup_within heights (-1) (0 + 1) Hrect) as [q21 ->]; [lia | lia |].
  destruct (lookup_within heights (-1 + 1) (0 + 1) Hrect) as [q22 ->]; [lia | lia |].
  cbn [Py.bind]. eexists. reflexivity.
Qed.

End GeoidTable.

(** A signed latitude is not an argument of [GetHeight], and it is not
    rejected either: for -0.25 degrees the call returns the height 7 of the
    last row, as the negative index counts from the end of the list. *)
Lemma GetHeight_negative_latitude_wraps :
  ~ covered small_table (-0.25) 0
  /\ rectangular small_table
  /\ GetHeight small_table (-0.25) 0 = Ok 7.00%Q
  /\ GetHeight small_table (-0.25) 0 <> Raise IndexError.
Proof.
  split; [| split; [| split]].
  - unfold covered. intros [[H _] _]. revert H. unfold Qle. cbn. lia.
  - unfold rectangular, small_table. cbn. repeat constructor.
  - vm_compute. reflexivity.
  - vm_compute. discriminate.
Qed.

(** C5: for a table whose rows all have the same length, a query whose
    latitude and longitude are unsigned (not negative; and at most 2^50
    degrees, a range in which binary64 arithmetic on the step of 0.25 is
    exact) and do not both lie in the range that the table covers fails
    with an index error: no height comes back. *)
Theorem GetHeight_outside_range :
  forall (heights : list (list Q)) (lat lon : Q),
    rectangular (mkEgm heights 0.25) ->
    (0 <= lat <= inject_Z (2 ^ 50))%Q ->
    (0 <= lon <= inject_Z (2 ^ 50))%Q ->
    ~ covered (mkEgm heights 0.25) lat lon ->
    GetHeight (mkEgm heights 0.25) lat lon = Raise IndexError.
Proof.
  intros heights lat lon Hrect [Hlat _] [Hlon _] Hout.
  apply GetHeight_beyond_upper_edge; [exact Hrect |].
  unfold covered in Hout. cbn [StepSize] in Hout.
  destruct (Qlt_le_dec (inject_Z (grid_rows (mkEgm heights 0.25) - 1) * 0.25) lat)
    as [A | A]; [now left |].
  destruct (Qlt_le_dec (inject_Z (grid_cols (mkEgm heights 0.25) - 1) * 0.25) lon)
    as [B | B]; [now right |].
  exfalso. apply Hout. repeat split; assumption.
Qed.

Lemma GetHeight_outside_range_witness :
  rectangular small_table
  /\ (0 <= 0.6 <= inject_Z (2 ^ 50))%Q
  /\ (0 <= 0.1 <= inject_Z (2 ^ 50))%Q
  /\ ~ covered small_table 0.6 0.1
  /\ GetHeight small_table 0.6 0.1 = Raise IndexError.
Proof.
  assert (R : rectangular small_table).
  { unfold rectangular, small_table. cbn. repeat constructor. }
  assert (A : (0 <= 0.6 <= inject_Z (2 ^ 50))%Q)
    by (split; vm_compute; discriminate).
  assert (B : (0 <= 0.1 <= inject_Z (2 ^ 50))%Q)
    by (split; vm_compute; discriminate).
  assert (O : ~ covered small_table 0.6 0.1).
  { unfold covered. intros [[_ H] _]. revert H. vm_compute. intros H. now apply H. }
  split; [exact R | split; [exact A | split; [exact B | split; [exact O |]]]].
  exact (GetHeight_outside_range (Egm96GridHeights small_table) 0.6 0.1 R A B O).
Defined.

(** ** The national grid projection *)

Section RealEnclosures.

Local Open Scope R_scope.

Lemma Rabs_le_both (x a : R) : Rabs x <= a -> - a <= x <= a.
Proof. unfold Rabs. destruct (Rcase_abs x); lra. Qed.

Lemma near_add (x a r y b s : R) :
  Rabs (x - a) <= r -> Rabs (y - b) <= s -> Rabs (x + y - (a + b)) <= r + s.
Proof.
  intros H1 H2. replace (x + y - (a + b)) with ((x - a) + (y - b)) by ring.
  eapply Rle_trans; [apply Rabs_triang | lra].
Qed.

Lemma near_sub (x a r y b s : R) :
  Rabs (x - a) <= r -> Rabs (y - b) <= s -> Rabs (x - y - (a - b)) <= r + s.
Proof.
  intros H1 H2. replace (x - y - (a - b)) with ((x - a) + - (y - b)) by ring.
  eapply Rle_trans; [apply Rabs_triang |]. rewrite Rabs_Ropp. lra.
Qed.

Lemma near_opp (x a r : R) : Rabs (x - a) <= r -> Rabs (- x - - a) <= r.
Proof.
  intros H. replace (- x - - a) with (- (x - a)) by ring. now rewrite Rabs_Ropp.
Qed.

Lemma near_mul (x a r y b s : R) :
  Rabs (x - a) <= r -> Rabs (y - b) <= s ->
  Rabs (x * y - a * b) <= Rabs a * s + Rabs b * r + r * s.
Proof.
  intros H1 H2.
  replace (x * y - a * b) with (a * (y - b) + b * (x - a) + (x - a) * (y - b))
    by ring.
  pose proof (Rabs_pos (x - a)). pose proof (Rabs_pos (y - b)).
  pose proof (Rabs_pos a). pose proof (Rabs_pos b).
  eapply Rle_trans; [apply Rabs_triang |].
  eapply Rle_trans; [apply Rplus_le_compat_r, Rabs_triang |].
  rewrite !Rabs_mult.
  assert (Rabs a * Rabs (y - b) <= Rabs a * s) by (apply Rmult_le_compat_l; lra).
  assert (Rabs b * Rabs (x - a) <= Rabs b * r) by (apply Rmult_le_compat_l; lra).
  assert (Rabs (x - a) * Rabs (y - b) <= r * s) by (apply Rmult_le_compat; lra).
  lra.
Qed.

Lemma near_away (x a r : R) : Rabs (x - a) <= r -> Rabs a - r <= Rabs x.
Proof.
  intros H. replace a with (x + - (x - a)) at 1 by ring.
  pose proof (Rabs_triang x (- (x - a))) as T. rewrite Rabs_Ropp in T. lra.
Qed.

Lemma near_inv (x a r : R) :
  Rabs (x - a) <= r -> r < Rabs a ->
  Rabs (/ x - / a) <= r / (Rabs a * (Rabs a - r)).
Proof.
  intros H Hr. pose proof (near_away x a r H) as Hx.
  pose proof (Rabs_pos (x - a)) as Hp.
  assert (Ha : a <> 0) by (intros ->; rewrite Rabs_R0 in Hr; lra).
  assert (Hx0 : x <> 0) by (intros ->; rewrite Rabs_R0 in Hx; lra).
  replace (/ x - / a) with (- (x - a) * / (x * a)) by (field; tauto).
  rewrite Rabs_mult, Rabs_Ropp, Rabs_inv, Rabs_mult.
  assert (P1 : 0 < Rabs a * (Rabs a - r)) by (apply Rmult_lt_0_compat; lra).
  assert (P2 : Rabs a * (Rabs a - r) <= Rabs x * Rabs a).
  { rewrite (Rmult_comm (Rabs x)). apply Rmult_le_compat_l; lra. }
  unfold Rdiv. apply Rmult_le_compat; try lra.
  - apply Rlt_le, Rinv_0_lt_compat. lra.
  - apply Rinv_le_contravar; lra.
Qed.

Lemma near_sqrt (x a r g : R) :
  Rabs (x - a) <= r -> r <= a -> 0 < g ->
  Rabs (sqrt x - g) <= (Rabs (a - g * g) + r) / g.
Proof.
  intros H Hr Hg.
  assert (Hx : 0 <= x) by (apply Rabs_le_both in H; lra).
  pose proof (sqrt_pos x) as Hs.
  assert (E : sqrt x - g = (x - g * g) / (sqrt x + g)).
  { rewrite <- (sqrt_sqrt x Hx) at 2. field. lra. }
  rewrite E. unfold Rdiv. rewrite Rabs_mult, Rabs_inv.
  rewrite (Rabs_pos_eq (sqrt x + g)) by lra.
  apply Rmult_le_compat.
  - apply Rabs_pos.
  - apply Rlt_le, Rinv_0_lt_compat. lra.
  - replace (x - g * g) with ((x - a) + (a - g * g)) by ring.
    eapply Rle_trans; [apply Rabs_triang | lra].
  - apply Rinv_le_contravar; lra.
Qed.

Lemma sin_abs_le (u : R) : Rabs (sin u) <= Rabs u.
Proof.
  assert (P : forall v, 0 <= v -> Rabs (sin v) <= v).
  { intros v [Hv | <-]; [| rewrite sin_0, Rabs_R0; lra].
    pose proof (sin_lt_x v Hv). pose proof (SIN_bound v) as [? ?].
    apply Rabs_le. split; [| lra].
    destruct (Rle_lt_dec 1 v); [lra |].
    pose proof PI2_1. pose proof (sin_ge_0 v). lra. }
  destruct (Rle_lt_dec 0 u) as [H | H].
  - rewrite (Rabs_pos_eq u H). now apply P.
  - rewrite <- (Rabs_Ropp u), <- (Rabs_Ropp (sin u)), <- sin_neg.
    rewrite (Rabs_pos_eq (- u)) by lra. apply P. lra.
Qed.

Lemma near_sin (x c r : R) : Rabs (x - c) <= r -> Rabs (sin x - sin c) <= r.
Proof.
  intros H. rewrite form4.
  rewrite !Rabs_mult.
  pose proof (COS_bound ((x + c) / 2)) as [? ?].
  assert (Rabs (cos ((x + c) / 2)) <= 1) by (apply Rabs_le; lra).
  pose proof (sin_abs_le ((x - c) / 2)) as S.
  replace (Rabs ((x - c) / 2)) with (Rabs (x - c) / 2) in S.
  2:{ unfold Rdiv. rewrite Rabs_mult. f_equal. rewrite Rabs_pos_eq; lra. }
  rewrite (Rabs_pos_eq 2) by lra.
  pose proof (Rabs_pos (cos ((x + c) / 2))). pose proof (Rabs_pos (sin ((x - c) / 2))).
  assert (Rabs (cos ((x + c) / 2)) * Rabs (sin ((x - c) / 2))
          <= 1 * (Rabs (x - c) / 2)) by (apply Rmult_le_compat; lra).
  lra.
Qed.

Lemma near_cos (x c r : R) : Rabs (x - c) <= r -> Rabs (cos x - cos c) <= r.
Proof.
  intros H. rewrite form2.
  rewrite !Rabs_mult.
  pose proof (SIN_bound ((x + c) / 2)) as [? ?].
  assert (Rabs (sin ((x + c) / 2)) <= 1) by (apply Rabs_le; lra).
  pose proof (sin_abs_le ((x - c) / 2)) as S.
  replace (Rabs ((x - c) / 2)) with (Rabs (x - c) / 2) in S.
  2:{ unfold Rdiv. rewrite Rabs_mult. f_equal. rewrite Rabs_pos_eq; lra. }
  rewrite (Rabs_left (-2)) by lra.
  pose proof (Rabs_pos (sin ((x + c) / 2))). pose proof (Rabs_pos (sin ((x - c) / 2))).
  assert (Rabs (sin ((x - c) / 2)) * Rabs (sin ((x + c) / 2))
          <= (Rabs (x - c) / 2) * 1) by (apply Rmult_le_compat; lra).
  lra.
Qed.

End RealEnclosures.

Section BallSoundness.

Local Open Scope R_scope.

Lemma scale_positive : (0 < scale)%Z.
Proof. reflexivity. Qed.

Lemma IZR_scale_positive : 0 < IZR scale.
Proof. apply IZR_lt, scale_positive. Qed.

(** Whole division rounds the quotient down, by less than one. *)
Lemma div_floor (t d : Z) :
  d <> 0%Z -> IZR (t / d) <= IZR t / IZR d < IZR (t / d) + 1.
Proof.
  intros Hd.
  assert (HdR : IZR d <> 0) by (intros H; apply eq_IZR in H; tauto).
  pose proof (Z.div_mod t d Hd) as E.
  assert (ER : IZR t / IZR d = IZR (t / d) + IZR (t mod d) / IZR d).
  { rewrite E at 1. rewrite plus_IZR, mult_IZR. field. exact HdR. }
  rewrite ER.
  assert (F : 0 <= IZR (t mod d) / IZR d < 1).
  { destruct (Z_lt_le_dec 0 d) as [Hp | Hn].
    - pose proof (Z.mod_pos_bound t d Hp) as [B1 B2].
      apply IZR_le in B1. apply IZR_lt in B2. apply IZR_lt in Hp.
      split.
      + apply Rmult_le_pos; [lra |]. apply Rlt_le, Rinv_0_lt_compat. lra.
      + apply Rmult_lt_reg_r with (IZR d); [lra |].
        unfold Rdiv. rewrite Rmult_assoc, Rinv_l by lra. lra.
    - assert (Hneg : (d < 0)%Z) by lia.
      pose proof (Z.mod_neg_bound t d Hneg) as [B1 B2].
      apply IZR_lt in B1. apply IZR_le in B2. apply IZR_lt in Hneg.
      replace (IZR (t mod d) / IZR d) with (- IZR (t mod d) / - IZR d)
        by (field; lra).
      split.
      + apply Rmult_le_pos; [lra |]. apply Rlt_le, Rinv_0_lt_compat. lra.
      + apply Rmult_lt_reg_r with (- IZR d); [lra |].
        unfold Rdiv. rewrite Rmult_assoc, Rinv_l by lra. lra. }
  lra.
Qed.

Lemma shiftr_floor (t : Z) :
  IZR (Z.shiftr t bits) <= IZR t / IZR scale < IZR (Z.shiftr t bits) + 1.
Proof.
  rewrite Z.shiftr_div_pow2 by (unfold bits; lia).
  apply div_floor. pose proof scale_positive. unfold scale in *. lia.
Qed.

Lemma bint_sound (z : Z) : contains (bint z) (IZR z).
Proof.
  unfold contains, bint. cbn [mid rad]. rewrite mult_IZR.
  rewrite Rminus_diag, Rabs_R0. lra.
Qed.

Lemma brat_sound (q : Q) : contains (brat q) (Q2R q).
Proof.
  unfold contains, brat. cbn [mid rad].
  pose proof (div_floor (Qnum q * scale) (Zpos (Qden q))) as F.
  assert (Hd : 0 < IZR (Zpos (Qden q))) by now apply IZR_lt.
  rewrite mult_IZR in F.
  replace (Q2R q * IZR scale)
    with (IZR (Qnum q) * IZR scale / IZR (Z.pos (Qden q)))
    by (unfold Q2R; field; lra).
  apply Rabs_le. assert (Z.pos (Qden q) <> 0%Z) by lia. specialize (F H).
  rewrite <- mult_IZR in *. lra.
Qed.

Lemma badd_sound (a b : ball) (x y : R) :
  contains a x -> contains b y -> contains (badd a b) (x + y).
Proof.
  unfold contains, badd. cbn [mid rad]. intros Ha Hb.
  rewrite !plus_IZR, Rmult_plus_distr_r. apply near_add; assumption.
Qed.

Lemma bsub_sound (a b : ball) (x y : R) :
  contains a x -> contains b y -> contains (bsub a b) (x - y).
Proof.
  unfold contains, bsub. cbn [mid rad]. intros Ha Hb.
  rewrite plus_IZR, minus_IZR.
  replace ((x - y) * IZR scale) with (x * IZR scale - y * IZR scale) by ring.
  apply near_sub; assumption.
Qed.

Lemma bneg_sound (a : ball) (x : R) : contains a x -> contains (bneg a) (- x).
Proof.
  unfold contains, bneg. cbn [mid rad]. intros Ha.
  rewrite opp_IZR. replace (- x * IZR scale) with (- (x * IZR scale)) by ring.
  apply near_opp; assumption.
Qed.

Lemma bmul_sound (a b : ball) (x y : R) :
  contains a x -> contains b y -> contains (bmul a b) (x * y).
Proof.
  unfold contains, bmul. cbn [mid rad]. intros Ha Hb.
  pose proof IZR_scale_positive as HS.
  pose proof (near_mul _ _ _ _ _ _ Ha Hb) as M.
  set (T := (Z.abs (mid a) * rad b + Z.abs (mid b) * rad a + rad a * rad b)%Z).
  assert (ET : Rabs (IZR (mid a)) * IZR (rad b) + Rabs (IZR (mid b)) * IZR (rad a)
               + IZR (rad a) * IZR (rad b) = IZR T).
  { unfold T. now rewrite !plus_IZR, !mult_IZR, !abs_IZR. }
  rewrite ET in M.
  pose proof (shiftr_floor (mid a * mid b)) as [F1 F2].
  pose proof (shiftr_floor T) as [G1 G2].
  rewrite plus_IZR.
  replace (x * y * IZR scale)
    with (x * IZR scale * (y * IZR scale) / IZR scale) by (field; lra).
  rewrite mult_IZR in F1, F2.
  set (P := x * IZR scale * (y * IZR scale)) in *.
  set (Q := IZR (mid a) * IZR (mid b)) in *.
  assert (D : Rabs (P / IZR scale - Q / IZR scale) <= IZR T / IZR scale).
  { replace (P / IZR scale - Q / IZR scale) with ((P - Q) / IZR scale)
      by (field; lra).
    unfold Rdiv. rewrite Rabs_mult, (Rabs_pos_eq (/ IZR scale)).
    - apply Rmult_le_compat_r; [| exact M].
      apply Rlt_le, Rinv_0_lt_compat, HS.
    - apply Rlt_le, Rinv_0_lt_compat, HS. }
  apply Rabs_le_both in D. apply Rabs_le. lra.
Qed.

Lemma binv_sound (a b : ball) (x : R) :
  binv a = Some b -> contains a x -> contains b (/ x).
Proof.
  unfold binv. destruct (Z.ltb_spec (rad a) (Z.abs (mid a))) as [H | H];
    [| discriminate].
  intros E Ha.
  assert (Eb : b = mkBall (scale * scale / mid a)
                     (scale * scale * rad a
                      / (Z.abs (mid a) * (Z.abs (mid a) - rad a)) + 2))
    by congruence.
  rewrite Eb. clear E Eb. unfold contains in *. cbn [mid rad].
  pose proof IZR_scale_positive as HS.
  assert (Hr0 : (0 <= rad a)%Z).
  { apply le_IZR. eapply Rle_trans; [apply Rabs_pos | exact Ha]. }
  assert (Hm : mid a <> 0%Z) by lia.
  assert (HD : (0 < Z.abs (mid a) * (Z.abs (mid a) - rad a))%Z) by nia.
  apply IZR_lt in H. rewrite abs_IZR in H.
  pose proof (near_inv _ _ _ Ha H) as N.
  set (X := x * IZR scale) in *.
  assert (HX : X <> 0).
  { pose proof (near_away _ _ _ Ha). intros HX0. rewrite HX0, Rabs_R0 in H0. lra. }
  assert (Hx : x <> 0) by (intros ->; unfold X in HX; lra).
  pose proof (div_floor (scale * scale) (mid a) Hm) as [F1 F2].
  pose proof (div_floor (scale * scale * rad a)
                (Z.abs (mid a) * (Z.abs (mid a) - rad a))) as [G1 G2]; [lia |].
  rewrite !mult_IZR in F1, F2.
  rewrite !mult_IZR, minus_IZR, abs_IZR in G1, G2.
  rewrite plus_IZR.
  assert (Hma : IZR (mid a) <> 0) by (intros HH; apply eq_IZR in HH; tauto).
  replace (/ x * IZR scale) with (IZR scale * IZR scale * / X)
    by (unfold X; field; lra).
  set (S2 := IZR scale * IZR scale) in *.
  assert (HS2 : 0 < S2) by (unfold S2; nra).
  assert (D : Rabs (S2 * / X - S2 * / IZR (mid a))
              <= S2 * (IZR (rad a)
                       / (Rabs (IZR (mid a)) * (Rabs (IZR (mid a)) - IZR (rad a))))).
  { rewrite <- Rmult_minus_distr_l, Rabs_mult, (Rabs_pos_eq S2) by lra.
    apply Rmult_le_compat_l; [lra | exact N]. }
  replace (S2 * (IZR (rad a)
                 / (Rabs (IZR (mid a)) * (Rabs (IZR (mid a)) - IZR (rad a)))))
    with (S2 * IZR (rad a)
          / (Rabs (IZR (mid a)) * (Rabs (IZR (mid a)) - IZR (rad a)))) in D.
  2:{ unfold Rdiv. ring. }
  apply Rabs_le_both in D. unfold Rdiv in F1, F2. apply Rabs_le. lra.
Qed.

Lemma bdiv_sound (a b c : ball) (x y : R) :
  bdiv a b = Some c -> contains a x -> contains b y -> contains c (x / y).
Proof.
  unfold bdiv. destruct (binv b) as [i |] eqn:Ei; [| discriminate].
  intros E Ha Hb. assert (Ec : c = bmul a i) by congruence. rewrite Ec.
  apply bmul_sound; [exact Ha |]. eapply binv_sound; eassumption.
Qed.

Lemma bsqrt_sound (a b : ball) (x : R) :
  bsqrt a = Some b -> contains a x -> contains b (sqrt x).
Proof.
  unfold bsqrt. set (g := Z.sqrt (mid a * scale)).
  destruct (Z.ltb_spec 0 g) as [Hg | Hg]; [| discriminate].
  destruct (Z.leb_spec (rad a) (mid a)) as [H | H]; [| discriminate].
  cbn [andb]. intros E Ha.
  assert (Eb : b = mkBall g ((Z.abs (mid a * scale - g * g) + rad a * scale) / g + 1))
    by congruence.
  rewrite Eb. clear E Eb. unfold contains in *. cbn [mid rad].
  pose proof IZR_scale_positive as HS.
  assert (Hx : 0 <= x * IZR scale).
  { apply Rabs_le_both in Ha. apply IZR_le in H. lra. }
  assert (Hx0 : 0 <= x).
  { apply Rmult_le_reg_r with (IZR scale); [exact HS | lra]. }
  assert (Es : sqrt x * IZR scale = sqrt (x * IZR scale * IZR scale)).
  { rewrite Rmult_assoc, sqrt_mult, sqrt_square by nra. reflexivity. }
  rewrite Es.
  assert (N : Rabs (x * IZR scale * IZR scale - IZR (mid a) * IZR scale)
              <= IZR (rad a) * IZR scale).
  { rewrite <- Rmult_minus_distr_r, Rabs_mult, (Rabs_pos_eq (IZR scale)) by lra.
    apply Rmult_le_compat_r; [lra | exact Ha]. }
  assert (Hle : IZR (rad a) * IZR scale <= IZR (mid a) * IZR scale).
  { apply Rmult_le_compat_r; [lra | now apply IZR_le]. }
  assert (HgR : 0 < IZR g) by now apply IZR_lt.
  pose proof (near_sqrt _ _ _ _ N Hle HgR) as Q.
  pose proof (div_floor (Z.abs (mid a * scale - g * g) + rad a * scale) g)
    as [F1 F2]; [lia |].
  rewrite plus_IZR, abs_IZR, minus_IZR, !mult_IZR in F1, F2.
  rewrite plus_IZR. apply Rabs_le_both in Q. apply Rabs_le. lra.
Qed.

Lemma bpow_sound (a : ball) (x : R) (n : nat) :
  contains a x -> contains (bpow a n) (x ^ n).
Proof.
  intros Ha. induction n as [| n IH].
  - cbn [bpow pow]. apply bint_sound.
  - cbn [bpow pow]. apply bmul_sound; assumption.
Qed.

End BallSoundness.

Section SeriesSoundness.

Local Open Scope R_scope.

Lemma Q2R_0 : Q2R 0 = 0.
Proof. apply RMicromega.Q2R_0. Qed.

Lemma Q2R_inject_Z (z : Z) : Q2R (inject_Z z) = IZR z.
Proof. unfold Q2R, inject_Z. cbn [Qnum Qden]. field. Qed.

Lemma Q2R_minus_one : Q2R (-1) = -1.
Proof. unfold Q2R. cbn [Qnum Qden]. field. Qed.

Lemma sin_term_succ (x : R) (k : nat) :
  sin_term x (S k) = sin_term x k * (Q2R (sin_step k) * (x * x)).
Proof.
  unfold sin_term, sin_step.
  assert (Hz : ~ inject_Z (Z.of_nat ((2 * k + 2) * (2 * k + 3))) == 0).
  { intros H. apply Qeq_eqR in H. rewrite Q2R_inject_Z, Q2R_0 in H.
    apply eq_IZR in H. lia. }
  rewrite Q2R_div by exact Hz.
  rewrite Q2R_minus_one, Q2R_inject_Z, <- INR_IZR_INZ, mult_INR.
  replace (2 * S k + 1)%nat with (S (S (2 * k + 1))) by lia.
  replace (2 * k + 2)%nat with (S (2 * k + 1)) by lia.
  replace (2 * k + 3)%nat with (S (S (2 * k + 1))) by lia.
  change (fact (S (S (2 * k + 1))))
    with (S (S (2 * k + 1)) * (S (2 * k + 1) * fact (2 * k + 1)))%nat.
  rewrite !mult_INR. cbn [pow].
  pose proof (INR_fact_neq_0 (2 * k + 1)).
  pose proof (not_0_INR (S (2 * k + 1))). pose proof (not_0_INR (S (S (2 * k + 1)))).
  field. repeat split; auto.
Qed.

Lemma cos_term_succ (x : R) (k : nat) :
  cos_term x (S k) = cos_term x k * (Q2R (cos_step k) * (x * x)).
Proof.
  unfold cos_term, cos_step.
  assert (Hz : ~ inject_Z (Z.of_nat ((2 * k + 1) * (2 * k + 2))) == 0).
  { intros H. apply Qeq_eqR in H. rewrite Q2R_inject_Z, Q2R_0 in H.
    apply eq_IZR in H. lia. }
  rewrite Q2R_div by exact Hz.
  rewrite Q2R_minus_one, Q2R_inject_Z, <- INR_IZR_INZ, mult_INR.
  replace (2 * S k)%nat with (S (S (2 * k))) by lia.
  replace (2 * k + 1)%nat with (S (2 * k)) by lia.
  replace (2 * k + 2)%nat with (S (S (2 * k))) by lia.
  change (fact (S (S (2 * k))))
    with (S (S (2 * k)) * (S (2 * k) * fact (2 * k)))%nat.
  rewrite !mult_INR. cbn [pow].
  pose proof (INR_fact_neq_0 (2 * k)).
  pose proof (not_0_INR (S (2 * k))). pose proof (not_0_INR (S (S (2 * k)))).
  field. repeat split; auto.
Qed.

Lemma series_sound (step : nat -> Q) (term : nat -> R) (x2 t0 : ball) (x : R) :
  contains x2 (x * x) -> contains t0 (term O) ->
  (forall k, term (S k) = term k * (Q2R (step k) * (x * x))) ->
  forall n,
    contains (fst (series step x2 t0 n)) (sum_f_R0 term n)
    /\ contains (snd (series step x2 t0 n)) (term n).
Proof.
  intros Hx H0 Hs. induction n as [| n [IHs IHt]]; cbn [series sum_f_R0].
  - now split.
  - destruct (series step x2 t0 n) as [s t]. cbn [fst snd] in *.
    assert (Ht : contains (bmul t (bmul (brat (step n)) x2)) (term (S n))).
    { rewrite Hs. apply bmul_sound; [exact IHt |].
      apply bmul_sound; [apply brat_sound | exact Hx]. }
    split; [apply badd_sound; assumption | exact Ht].
Qed.

Lemma enclose_sound (s t : ball) (v p d : R) :
  contains s p -> contains t d -> p - d <= v <= p ->
  contains (enclose (s, t)) v.
Proof.
  unfold contains, enclose. cbn [mid rad]. intros Hs Ht [H1 H2].
  rewrite !plus_IZR, abs_IZR.
  pose proof IZR_scale_positive as HS.
  apply Rabs_le_both in Hs, Ht.
  pose proof (Rle_abs (IZR (mid t))). pose proof (Rle_abs (- IZR (mid t))) as A.
  rewrite Rabs_Ropp in A.
  assert (B1 : (p - d) * IZR scale <= v * IZR scale)
    by (apply Rmult_le_compat_r; lra).
  assert (B2 : v * IZR scale <= p * IZR scale)
    by (apply Rmult_le_compat_r; lra).
  apply Rabs_le. lra.
Qed.

Lemma sin_small_sound (c : Q) :
  0 <= Q2R c <= 4 -> contains (sin_small c) (sin (Q2R c)).
Proof.
  intros [H0 H4]. unfold sin_small. cbv zeta.
  pose proof (pre_sin_bound (Q2R c) order H0 H4) as B.
  unfold sin_approx in B.
  replace (2 * (order + 1))%nat with (S (2 * order + 1)) in B by reflexivity.
  cbn [sum_f_R0] in B.
  destruct (series_sound sin_step (sin_term (Q2R c))
              (bmul (brat c) (brat c)) (brat c) (Q2R c)) with
    (n := S (2 * order + 1)) as [Hs Ht].
  - apply bmul_sound; apply brat_sound.
  - replace (sin_term (Q2R c) 0) with (Q2R c) by (unfold sin_term; simpl; field).
    apply brat_sound.
  - apply sin_term_succ.
  - destruct (series sin_step _ _ _) as [s t]. cbn [fst snd] in Hs, Ht.
    eapply enclose_sound; [exact Hs | exact Ht |].
    cbn [sum_f_R0]. lra.
Qed.

Lemma cos_small_sound (c : Q) :
  -2 <= Q2R c <= 2 -> contains (cos_small c) (cos (Q2R c)).
Proof.
  intros [H0 H4]. unfold cos_small. cbv zeta.
  pose proof (pre_cos_bound (Q2R c) order H0 H4) as B.
  unfold cos_approx in B.
  replace (2 * (order + 1))%nat with (S (2 * order + 1)) in B by reflexivity.
  cbn [sum_f_R0] in B.
  destruct (series_sound cos_step (cos_term (Q2R c))
              (bmul (brat c) (brat c)) (bint 1) (Q2R c)) with
    (n := S (2 * order + 1)) as [Hs Ht].
  - apply bmul_sound; apply brat_sound.
  - replace (cos_term (Q2R c) 0) with (IZR 1)
      by (unfold cos_term; simpl; field).
    apply bint_sound.
  - apply cos_term_succ.
  - destruct (series cos_step _ _ _) as [s t]. cbn [fst snd] in Hs, Ht.
    eapply enclose_sound; [exact Hs | exact Ht |].
    cbn [sum_f_R0]. lra.
Qed.

Lemma sin_point_sound (c : Q) :
  -1 <= Q2R c <= 1 -> contains (sin_point c) (sin (Q2R c)).
Proof.
  intros [H1 H2]. unfold sin_point.
  destruct (Qlt_le_dec c 0) as [H | H].
  - apply Qlt_Rlt in H. rewrite Q2R_0 in H.
    replace (sin (Q2R c)) with (- sin (Q2R (- c)))
      by (rewrite Q2R_opp, sin_neg; ring).
    apply bneg_sound, sin_small_sound. rewrite Q2R_opp. lra.
  - apply Qle_Rle in H. rewrite Q2R_0 in H.
    apply sin_small_sound. lra.
Qed.

Lemma unit_ball_sound (x : R) : -1 <= x <= 1 -> contains unit_ball x.
Proof.
  intros H. unfold contains, unit_ball. cbn [mid rad].
  pose proof IZR_scale_positive as HS.
  apply Rabs_le. nra.
Qed.

Lemma Q2R_abs (q : Q) : Q2R (Qabs q) = Rabs (Q2R q).
Proof.
  destruct (Qlt_le_dec q 0) as [H | H].
  - rewrite (Qeq_eqR _ _ (Qabs_neg q (Qlt_le_weak _ _ H))), Q2R_opp.
    apply Qlt_Rlt in H. rewrite RMicromega.Q2R_0 in H.
    now rewrite Rabs_left.
  - rewrite (Qeq_eqR _ _ (Qabs_pos q H)).
    apply Qle_Rle in H. rewrite RMicromega.Q2R_0 in H.
    now rewrite Rabs_pos_eq.
Qed.

Lemma Q2R_1 : Q2R 1 = 1.
Proof. unfold Q2R. cbn [Qnum Qden]. field. Qed.

Lemma Q2R_half (c : Q) : Q2R c = 2 * Q2R (c * (1 # 2)).
Proof. rewrite Q2R_mult. unfold Q2R at 3. cbn [Qnum Qden]. field. Qed.

Lemma small_argument (c : Q) : Qle_bool (Qabs c) 1 = true -> -1 <= Q2R c <= 1.
Proof.
  intros Hs. apply Qle_bool_iff, Qle_Rle in Hs.
  rewrite Q2R_abs, Q2R_1 in Hs. now apply Rabs_le_both in Hs.
Qed.

Lemma cos_at_sound (fuel : nat) :
  forall c : Q, contains (cos_at fuel c) (cos (Q2R c)).
Proof.
  induction fuel as [| fuel IH]; intros c; cbn [cos_at];
    destruct (Qle_bool (Qabs c) 1) eqn:Hs.
  1, 3: apply small_argument in Hs; apply cos_small_sound; lra.
  - apply unit_ball_sound, COS_bound.
  - rewrite (Q2R_half c), cos_2a_cos, Rmult_assoc.
    apply bsub_sound; [| apply bint_sound].
    apply bmul_sound; [apply bint_sound |]. apply bmul_sound; apply IH.
Qed.

Lemma sin_at_sound (fuel : nat) :
  forall c : Q, contains (sin_at fuel c) (sin (Q2R c)).
Proof.
  induction fuel as [| fuel IH]; intros c; cbn [sin_at];
    destruct (Qle_bool (Qabs c) 1) eqn:Hs.
  1, 3: apply small_argument in Hs; apply sin_point_sound; lra.
  - apply unit_ball_sound, SIN_bound.
  - rewrite (Q2R_half c), sin_2a, Rmult_assoc.
    apply bmul_sound; [apply bint_sound |].
    apply bmul_sound; [apply IH | apply cos_at_sound].
Qed.

Lemma Q2R_centre (a : ball) : Q2R (centre a) = IZR (mid a) / IZR scale.
Proof.
  unfold centre, Q2R. cbn [Qnum Qden].
  rewrite Z2Pos.id by apply scale_positive. reflexivity.
Qed.

(** A point of a ball is as near to its centre as the radius says. *)
Lemma contains_centre (a : ball) (x : R) :
  contains a x -> Rabs (x - Q2R (centre a)) <= IZR (rad a) / IZR scale.
Proof.
  unfold contains. intros H. rewrite Q2R_centre.
  pose proof IZR_scale_positive as HS.
  replace (x - IZR (mid a) / IZR scale)
    with ((x * IZR scale - IZR (mid a)) * / IZR scale) by (field; lra).
  rewrite Rabs_mult, (Rabs_pos_eq (/ IZR scale)).
  - apply Rmult_le_compat_r; [| exact H]. apply Rlt_le, Rinv_0_lt_compat, HS.
  - apply Rlt_le, Rinv_0_lt_compat, HS.
Qed.

Lemma widen_sound (f : R -> R) (s a : ball) (x : R) :
  (forall u c r, Rabs (u - c) <= r -> Rabs (f u - f c) <= r) ->
  contains s (f (Q2R (centre a))) -> contains a x ->
  contains (mkBall (mid s) (rad s + rad a)) (f x).
Proof.
  intros Hf Hs Ha. apply contains_centre in Ha. apply Hf in Ha.
  unfold contains in *. cbn [mid rad].
  pose proof IZR_scale_positive as HS.
  assert (D : Rabs (f x * IZR scale - f (Q2R (centre a)) * IZR scale)
              <= IZR (rad a)).
  { rewrite <- Rmult_minus_distr_r, Rabs_mult, (Rabs_pos_eq (IZR scale)) by lra.
    apply Rmult_le_reg_r with (/ IZR scale).
    - apply Rinv_0_lt_compat, HS.
    - rewrite Rmult_assoc, Rinv_r by lra. lra. }
  rewrite plus_IZR. apply Rabs_le_both in D, Hs. apply Rabs_le. lra.
Qed.

Lemma bsin_sound (a : ball) (x : R) : contains a x -> contains (bsin a) (sin x).
Proof.
  intros Ha. unfold bsin. cbv zeta.
  apply (widen_sound sin); [apply near_sin | apply sin_at_sound | exact Ha].
Qed.

Lemma bcos_sound (a : ball) (x : R) : contains a x -> contains (bcos a) (cos x).
Proof.
  intros Ha. unfold bcos. cbv zeta.
  apply (widen_sound cos); [apply near_cos | apply cos_at_sound | exact Ha].
Qed.

End SeriesSoundness.

Section ApproxSoundness.

Local Open Scope R_scope.

Lemma below_half_pi (a : R) : 0 <= a <= 2 -> 0 < cos a -> a < PI / 2.
Proof.
  intros [H0 H2] Hc. destruct (Rlt_le_dec a (PI / 2)) as [H | H]; [exact H |].
  pose proof PI2_1. pose proof (cos_le_0 a H). lra.
Qed.

Lemma above_half_pi (b : R) : 0 <= b <= 2 -> cos b < 0 -> PI / 2 < b.
Proof.
  intros [H0 H2] Hc. destruct (Rlt_le_dec (PI / 2) b) as [H | H]; [exact H |].
  pose proof PI2_1. pose proof (cos_ge_0 b). lra.
Qed.

Lemma contains_bounds (b : ball) (x : R) :
  contains b x ->
  IZR (mid b) - IZR (rad b) <= x * IZR scale <= IZR (mid b) + IZR (rad b).
Proof. unfold contains. intros H. apply Rabs_le_both in H. lra. Qed.

Lemma Q2R_half_of (z : Z) : Q2R (half_of z) * IZR scale = IZR z / 2.
Proof.
  unfold half_of, Q2R. cbn [Qnum Qden].
  pose proof scale_positive. pose proof IZR_scale_positive.
  rewrite Z2Pos.id by lia. rewrite mult_IZR. field. lra.
Qed.

Lemma pi_ball_sound : contains pi_ball PI.
Proof.
  set (lo := half_of (mid pi_ball - rad pi_ball)).
  set (hi := half_of (mid pi_ball + rad pi_ball)).
  pose proof IZR_scale_positive as HS.
  pose proof (Q2R_half_of (mid pi_ball - rad pi_ball)) as Elo. fold lo in Elo.
  pose proof (Q2R_half_of (mid pi_ball + rad pi_ball)) as Ehi. fold hi in Ehi.
  rewrite minus_IZR in Elo. rewrite plus_IZR in Ehi.
  assert (Rlo : 0 <= Q2R lo <= 2).
  { rewrite <- Q2R_0, <- (Q2R_inject_Z 2).
    split; apply Qle_Rle; vm_compute; discriminate. }
  assert (Rhi : 0 <= Q2R hi <= 2).
  { rewrite <- Q2R_0, <- (Q2R_inject_Z 2).
    split; apply Qle_Rle; vm_compute; discriminate. }
  pose proof (cos_at_sound halvings lo) as Clo.
  pose proof (cos_at_sound halvings hi) as Chi.
  apply contains_bounds in Clo, Chi.
  assert (Plo : (rad (cos_at halvings lo) < mid (cos_at halvings lo))%Z)
    by (vm_compute; reflexivity).
  assert (Phi : (mid (cos_at halvings hi) + rad (cos_at halvings hi) < 0)%Z)
    by (vm_compute; reflexivity).
  apply IZR_lt in Plo, Phi. rewrite plus_IZR in Phi.
  assert (L : Q2R lo < PI / 2).
  { apply below_half_pi; [exact Rlo |].
    apply Rmult_lt_reg_r with (IZR scale); [exact HS | lra]. }
  assert (U : PI / 2 < Q2R hi).
  { apply above_half_pi; [exact Rhi |].
    apply Rmult_lt_reg_r with (IZR scale); [exact HS | lra]. }
  assert (L' : Q2R lo * IZR scale < PI / 2 * IZR scale)
    by (apply Rmult_lt_compat_r; lra).
  assert (U' : PI / 2 * IZR scale < Q2R hi * IZR scale)
    by (apply Rmult_lt_compat_r; lra).
  unfold contains. apply Rabs_le. lra.
Qed.

Lemma expr_eqb_eq (e1 : expr) : forall e2, expr_eqb e1 e2 = true -> e1 = e2.
Proof.
  induction e1 as [z | q | | a IHa c IHc | a IHa c IHc | a IHa c IHc
                   | a IHa c IHc | a IHa | a IHa | a IHa n | a IHa | a IHa
                   | a IHa];
    intros [z2 | q2 | | a2 c2 | a2 c2 | a2 c2 | a2 c2 | a2 | a2 | a2 n2 | a2
            | a2 | a2]; cbn [expr_eqb]; intros H; try discriminate;
    try reflexivity;
    try (apply andb_true_iff in H; destruct H as [H1 H2]);
    try (f_equal; auto; fail).
  - apply Z.eqb_eq in H. now subst.
  - destruct q as [n1 d1], q2 as [n2 d2]. cbn [Qnum Qden] in *.
    apply Z.eqb_eq in H1. apply Pos.eqb_eq in H2. now subst.
  - apply Nat.eqb_eq in H1. f_equal; auto.
Qed.

Lemma table_ok_nil : table_ok [].
Proof. intros e b H. discriminate. Qed.

Lemma table_ok_cons (e : expr) (b : ball) (t : table) :
  contains b (eval e) -> table_ok t -> table_ok ((e, b) :: t).
Proof.
  intros Hb Ht e' b'. cbn [find].
  destruct (expr_eqb e' e) eqn:E.
  - apply expr_eqb_eq in E. intros H.
    assert (b' = b) by congruence. subst. exact Hb.
  - apply Ht.
Qed.

Lemma node1_sound (f : ball -> option ball) (g : R -> R) (e : expr)
    (ra : option (ball * table)) (v : R) :
  (forall x y u, f x = Some y -> contains x u -> contains y (g u)) ->
  eval e = g v -> sound ra v -> sound (node1 f e ra) (eval e).
Proof.
  intros Hf He Ha b t. unfold node1.
  destruct ra as [[x t1] |]; [| discriminate].
  destruct (Ha x t1 eq_refl) as [Hx Ht1].
  destruct (f x) as [y |] eqn:Ef; [| discriminate].
  intros H. assert (E1 : b = y) by congruence.
  assert (E2 : t = (e, y) :: t1) by congruence. subst b t.
  assert (Hy : contains y (eval e)) by (rewrite He; eapply Hf; eassumption).
  split; [exact Hy | now apply table_ok_cons].
Qed.

Lemma node2_sound (f : ball -> ball -> option ball) (g : R -> R -> R)
    (e : expr) (ra : option (ball * table))
    (kb : table -> option (ball * table)) (v w : R) :
  (forall x y z u1 u2,
     f x y = Some z -> contains x u1 -> contains y u2 -> contains z (g u1 u2)) ->
  eval e = g v w -> sound ra v ->
  (forall t, table_ok t -> sound (kb t) w) ->
  sound (node2 f e ra kb) (eval e).
Proof.
  intros Hf He Ha Hb b t. unfold node2.
  destruct ra as [[x t1] |]; [| discriminate].
  destruct (Ha x t1 eq_refl) as [Hx Ht1].
  specialize (Hb t1 Ht1).
  destruct (kb t1) as [[y t2] |]; [| discriminate].
  destruct (Hb y t2 eq_refl) as [Hy Ht2].
  destruct (f x y) as [z |] eqn:Ef; [| discriminate].
  intros H. assert (E1 : b = z) by congruence.
  assert (E2 : t = (e, z) :: t2) by congruence. subst b t.
  assert (Hz : contains z (eval e)) by (rewrite He; eapply Hf; eassumption).
  split; [exact Hz | now apply table_ok_cons].
Qed.

Lemma total1 (f : ball -> ball) (g : R -> R) :
  (forall x u, contains x u -> contains (f x) (g u)) ->
  forall x y u, Some (f x) = Some y -> contains x u -> contains y (g u).
Proof. intros H x y u E Hx. assert (y = f x) by congruence. subst. auto. Qed.

Lemma total2 (f : ball -> ball -> ball) (g : R -> R -> R) :
  (forall x y u1 u2, contains x u1 -> contains y u2 -> contains (f x y) (g u1 u2)) ->
  forall x y z u1 u2,
    Some (f x y) = Some z -> contains x u1 -> contains y u2 ->
    contains z (g u1 u2).
Proof.
  intros H x y z u1 u2 E Hx Hy. assert (z = f x y) by congruence. subst. auto.
Qed.

Theorem approx_sound (e : expr) :
  forall t, table_ok t -> sound (approx e t) (eval e).
Proof.
  induction e as [z | q | | a IHa c IHc | a IHa c IHc | a IHa c IHc
                  | a IHa c IHc | a IHa | a IHa | a IHa n | a IHa | a IHa
                  | a IHa];
    intros t Ht; cbn [approx];
    match goal with
    | |- sound (match find ?e t with _ => _ end) _ =>
        destruct (find e t) as [b0 |] eqn:Ef;
        [ intros b t' H; assert (E1 : b = b0) by congruence;
          assert (E2 : t' = t) by congruence; subst b t';
          split; [apply Ht; exact Ef | exact Ht] |]
    end.
  - intros b t' H. assert (E1 : b = bint z) by congruence.
    assert (E2 : t' = t) by congruence. subst. split; [apply bint_sound | exact Ht].
  - intros b t' H. assert (E1 : b = brat q) by congruence.
    assert (E2 : t' = t) by congruence. subst. split; [apply brat_sound | exact Ht].
  - intros b t' H. assert (E1 : b = pi_ball) by congruence.
    assert (E2 : t' = t) by congruence. subst. split; [apply pi_ball_sound | exact Ht].
  - apply (node2_sound _ Rplus _ _ _ (eval a) (eval c));
      [apply (total2 badd Rplus), badd_sound | reflexivity | auto | auto].
  - apply (node2_sound _ Rminus _ _ _ (eval a) (eval c));
      [apply (total2 bsub Rminus), bsub_sound | reflexivity | auto | auto].
  - apply (node2_sound _ Rmult _ _ _ (eval a) (eval c));
      [apply (total2 bmul Rmult), bmul_sound | reflexivity | auto | auto].
  - apply (node2_sound _ Rdiv _ _ _ (eval a) (eval c));
      [intros; eapply bdiv_sound; eassumption | reflexivity | auto | auto].
  - apply (node1_sound _ Ropp _ _ (eval a));
      [apply (total1 bneg Ropp), bneg_sound | reflexivity | auto].
  - apply (node1_sound _ Rinv _ _ (eval a));
      [intros; eapply binv_sound; eassumption | reflexivity | auto].
  - apply (node1_sound _ (fun u => u ^ n) _ _ (eval a));
      [apply (total1 (fun x => bpow x n) (fun u => u ^ n)); intros;
       now apply bpow_sound | reflexivity | auto].
  - apply (node1_sound _ sqrt _ _ (eval a));
      [intros; eapply bsqrt_sound; eassumption | reflexivity | auto].
  - apply (node1_sound _ sin _ _ (eval a));
      [apply (total1 bsin sin), bsin_sound | reflexivity | auto].
  - apply (node1_sound _ cos _ _ (eval a));
      [apply (total1 bcos cos), bcos_sound | reflexivity | auto].
Qed.

Lemma near_sound (e : expr) (target tol : Q) :
  near e target tol = true -> Rabs (eval e - Q2R target) <= Q2R tol.
Proof.
  unfold near. destruct (approx e []) as [[b t] |] eqn:E; [| discriminate].
  intros H. apply Qle_bool_iff, Qle_Rle in H.
  rewrite Q2R_plus, Q2R_abs, Q2R_minus in H.
  destruct (approx_sound e [] table_ok_nil b t E) as [C _].
  apply contains_centre in C.
  assert (Er : Q2R (rad b # Z.to_pos scale) = IZR (rad b) / IZR scale).
  { unfold Q2R. cbn [Qnum Qden]. rewrite Z2Pos.id by apply scale_positive.
    reflexivity. }
  rewrite Er in H.
  replace (eval e - Q2R target)
    with ((eval e - Q2R (centre b)) + (Q2R (centre b) - Q2R target)) by ring.
  eapply Rle_trans; [apply Rabs_triang | lra].
Qed.

End ApproxSoundness.

Ltac reify t :=
  lazymatch t with
  | PI => constr:(EPi)
  | IZR ?z => constr:(EInt z)
  | Q2R ?q => constr:(ERat q)
  | (?a + ?b)%R => let a' := reify a in let b' := reify b in constr:(EAdd a' b')
  | (?a - ?b)%R => let a' := reify a in let b' := reify b in constr:(ESub a' b')
  | (?a * ?b)%R => let a' := reify a in let b' := reify b in constr:(EMul a' b')
  | (?a / ?b)%R => let a' := reify a in let b' := reify b in constr:(EDiv a' b')
  | (- ?a)%R => let a' := reify a in constr:(EOpp a')
  | (/ ?a)%R => let a' := reify a in constr:(EInv a')
  | (?a ^ ?n)%R => let a' := reify a in constr:(EPow a' n)
  | sqrt ?a => let a' := reify a in constr:(ESqrt a')
  | sin ?a => let a' := reify a in constr:(ESin a')
  | cos ?a => let a' := reify a in constr:(ECos a')
  | tan ?a => let a' := reify a in constr:(EDiv (ESin a') (ECos a'))
  end.

Section Grid.

Local Open Scope R_scope.

Lemma math_pow_whole (x : R) (n : nat) : math_pow x (IZR (Z.of_nat n)) = x ^ n.
Proof. rewrite <- INR_IZR_INZ. apply math_pow_nat. Qed.

Lemma math_pow_neg_half (x : R) : 0 < x -> math_pow x (-0.5) = / sqrt x.
Proof.
  intros Hx. unfold math_pow. destruct (Rlt_dec 0 x) as [_ | H]; [| tauto].
  replace (-0.5) with (- / 2) by lra.
  now rewrite Rpower_Ropp, Rpower_sqrt.
Qed.

Lemma math_pow_neg_three_halves (x : R) :
  0 < x -> math_pow x (-1.5) = / (x * sqrt x).
Proof.
  intros Hx. unfold math_pow. destruct (Rlt_dec 0 x) as [_ | H]; [| tauto].
  replace (-1.5) with (- (1 + / 2)) by lra.
  now rewrite Rpower_Ropp, Rpower_plus, Rpower_1, Rpower_sqrt.
Qed.

(** The Airy ellipsoid is flattened, not degenerate. *)
Lemma airy_radicand_positive (t : R) :
  0 < 1 - (6377563.396 ^ 2 - 6356256.909 ^ 2) / 6377563.396 ^ 2 * sin t ^ 2.
Proof.
  pose proof (SIN_bound t) as [H1 H2].
  assert (S : 0 <= sin t ^ 2 <= 1) by (split; nra).
  set (s := sin t ^ 2) in *.
  assert (E : 0 <= (6377563.396 ^ 2 - 6356256.909 ^ 2) / 6377563.396 ^ 2 <= 1 / 2).
  { split.
    - apply Rmult_le_reg_r with (6377563.396 ^ 2); [nra |].
      unfold Rdiv. rewrite Rmult_assoc, Rinv_l by nra. nra.
    - apply Rmult_le_reg_r with (6377563.396 ^ 2); [nra |].
      unfold Rdiv at 1. rewrite Rmult_assoc, Rinv_l by nra. nra. }
  set (e := (6377563.396 ^ 2 - 6356256.909 ^ 2) / 6377563.396 ^ 2) in *.
  nra.
Qed.

(** The worked example: the easting is within 11 cm and the northing
    within 4 cm of the published values. *)
Lemma LatLonToGridEastNorth_enclosure :
  Rabs (fst (LatLonToGridEastNorth 52.65757 1.71792) - 651409.903) <= 0.11
  /\ Rabs (snd (LatLonToGridEastNorth 52.65757 1.71792) - 313177.270) <= 0.04.
Proof.
  unfold LatLonToGridEastNorth. cbv zeta. cbn [fst snd].
  unfold GetAiry1830, Eccentricity1, utils.DegToRad, utils.Cos5, utils.Tan2,
    utils.Tan4.
  cbn [fst snd].
  rewrite !(math_pow_whole _ 2), !(math_pow_whole _ 3), !(math_pow_whole _ 4),
    !(math_pow_whole _ 5), !(math_pow_whole _ 6).
  rewrite !math_pow_neg_half, !math_pow_neg_three_halves
    by apply airy_radicand_positive.
  split.
  all: match goal with
       | |- Rabs (?t - Q2R ?target) <= Q2R ?tol =>
           let e := reify t in
           change (Rabs (eval e - Q2R target) <= Q2R tol)
       end.
  all: apply near_sound; vm_cast_no_check (eq_refl true).
Qed.

End Grid.

(** C1: for latitude 52.65757 and longitude 1.71792, the easting is within
    1 metre of 651409.903 and the northing within 1 metre of 313177.270. *)
Theorem LatLonToGridEastNorth_example :
  Rabs (fst (LatLonToGridEastNorth 52.65757 1.71792) - 651409.903) <= 1
  /\ Rabs (snd (LatLonToGridEastNorth 52.65757 1.71792) - 313177.270) <= 1.
Proof.
  destruct LatLonToGridEastNorth_enclosure as [HE HN]. split; lra.
Qed.

(** ** Bearings *)

Section Angles.

Local Open Scope R_scope.

(** [math.atan2] gives an angle in (-pi, pi]. *)
Lemma math_atan2_range (y x : R) : - PI < math_atan2 y x <= PI.
Proof.
  pose proof PI_RGT_0 as HP. unfold math_atan2.
  pose proof (atan_bound (y / x)) as [B1 B2].
  destruct (Rlt_dec 0 x) as [Hx | Hx]; [lra |].
  destruct (Rlt_dec x 0) as [Hn | Hn].
  - assert (Hi : / x < 0) by now apply Rinv_lt_0_compat.
    destruct (Rle_dec 0 y) as [Hy | Hy].
    + assert (atan (y / x) <= 0).
      { destruct Hy as [Hy | <-].
        - left. rewrite <- atan_0. apply atan_increasing. unfold Rdiv. nra.
        - unfold Rdiv. rewrite Rmult_0_l, atan_0. lra. }
      lra.
    + assert (0 < atan (y / x)).
      { rewrite <- atan_0. apply atan_increasing. unfold Rdiv. nra. }
      lra.
  - destruct (Rlt_dec 0 y); [lra |]. destruct (Rlt_dec y 0); lra.
Qed.

Lemma tan_shift (t : R) : tan (t + PI) = tan t /\ tan (t - PI) = tan t.
Proof.
  unfold tan. split.
  - rewrite neg_sin, neg_cos. unfold Rdiv.
    destruct (Req_dec (cos t) 0) as [E | E].
    + rewrite E, Ropp_0, Rinv_0. ring.
    + field. exact E.
  - replace (t - PI) with (- (PI - t)) by ring.
    rewrite sin_neg, cos_neg, sin_PI_x, Rtrigo_facts.cos_pi_minus. unfold Rdiv.
    destruct (Req_dec (cos t) 0) as [E | E].
    + rewrite E, Ropp_0, Rinv_0. ring.
    + field. exact E.
Qed.

(** The angle of the point at distance [r] in direction [t]. *)
Lemma math_atan2_polar (r t : R) :
  0 < r -> - PI < t <= PI -> math_atan2 (r * sin t) (r * cos t) = t.
Proof.
  intros Hr [Ht1 Ht2]. pose proof PI_RGT_0 as HP.
  assert (Q : r * sin t / (r * cos t) = tan t).
  { unfold tan, Rdiv. destruct (Req_dec (cos t) 0) as [E | E].
    - rewrite E, Rmult_0_r, Rinv_0. ring.
    - field. split; lra. }
  unfold math_atan2. rewrite Q.
  destruct (Rlt_le_dec t (- (PI / 2))) as [C1 | C1];
    [| destruct (Req_dec t (- (PI / 2))) as [C2 | C2];
       [| destruct (Rlt_le_dec t (PI / 2)) as [C3 | C3];
          [| destruct (Req_dec t (PI / 2)) as [C4 | C4]]]].
  - (* third quadrant *)
    assert (Hc : cos t < 0).
    { rewrite <- cos_neg. apply cos_lt_0; lra. }
    assert (Hs : sin t < 0) by (apply sin_lt_0_var; lra).
    assert (Hrc : r * cos t < 0)
      by (rewrite <- (Rmult_0_r r); apply Rmult_lt_compat_l; lra).
    assert (Hrs : r * sin t < 0)
      by (rewrite <- (Rmult_0_r r); apply Rmult_lt_compat_l; lra).
    destruct (Rlt_dec 0 (r * cos t)); [lra |].
    destruct (Rlt_dec (r * cos t) 0); [| lra].
    destruct (Rle_dec 0 (r * sin t)); [lra |].
    destruct (tan_shift t) as [<- _]. rewrite atan_tan; lra.
  - subst t. rewrite cos_neg, sin_neg, cos_PI2, sin_PI2.
    repeat match goal with
           | |- context [Rlt_dec ?a ?b] => destruct (Rlt_dec a b)
           end; lra.
  - assert (Hc : 0 < cos t) by (apply cos_gt_0; lra).
    assert (Hrc : 0 < r * cos t) by (apply Rmult_lt_0_compat; lra).
    destruct (Rlt_dec 0 (r * cos t)); [| lra].
    apply atan_tan. lra.
  - subst t. rewrite cos_PI2, sin_PI2.
    repeat match goal with
           | |- context [Rlt_dec ?a ?b] => destruct (Rlt_dec a b)
           end; lra.
  - assert (Hc : cos t < 0) by (apply cos_lt_0; lra).
    assert (Hs : 0 <= sin t) by (apply sin_ge_0; lra).
    assert (Hrc : r * cos t < 0)
      by (rewrite <- (Rmult_0_r r); apply Rmult_lt_compat_l; lra).
    assert (Hrs : 0 <= r * sin t) by (apply Rmult_le_pos; lra).
    destruct (Rlt_dec 0 (r * cos t)); [lra |].
    destruct (Rlt_dec (r * cos t) 0); [| lra].
    destruct (Rle_dec 0 (r * sin t)); [| lra].
    destruct (tan_shift t) as [_ <-]. rewrite atan_tan; lra.
Qed.

Lemma math_atan2_sin_cos (t : R) :
  - PI < t <= PI -> math_atan2 (sin t) (cos t) = t.
Proof.
  intros H. rewrite <- (math_atan2_polar 1 t Rlt_0_1 H) at 3.
  now rewrite !Rmult_1_l.
Qed.

Lemma DegToRad_plus (x y : R) :
  utils.DegToRad (x + y) = utils.DegToRad x + utils.DegToRad y.
Proof. unfold utils.DegToRad. field. Qed.

Lemma DegToRad_minus (x y : R) :
  utils.DegToRad (x - y) = utils.DegToRad x - utils.DegToRad y.
Proof. unfold utils.DegToRad. field. Qed.

Lemma DegToRad_RadToDeg (r : R) : utils.DegToRad (utils.RadToDeg r) = r.
Proof. unfold utils.RadToDeg, utils.DegToRad. field. apply PI_neq0. Qed.

Lemma DegToRad_le (x y : R) : x <= y -> utils.DegToRad x <= utils.DegToRad y.
Proof. intros H. unfold utils.DegToRad. pose proof PI_RGT_0. nra. Qed.

Lemma DegToRad_lt (x y : R) : x < y -> utils.DegToRad x < utils.DegToRad y.
Proof. intros H. unfold utils.DegToRad. pose proof PI_RGT_0. nra. Qed.

Lemma DegToRad_180 : utils.DegToRad 180 = PI.
Proof. unfold utils.DegToRad. field. Qed.

Lemma DegToRad_90 : utils.DegToRad 90 = PI / 2.
Proof. unfold utils.DegToRad. field. Qed.

Lemma DegToRad_0 : utils.DegToRad 0 = 0.
Proof. unfold utils.DegToRad. field. Qed.

Lemma DegToRad_Rabs (x : R) : utils.DegToRad (Rabs x) = Rabs (utils.DegToRad x).
Proof.
  pose proof PI_RGT_0. unfold Rabs.
  destruct (Rcase_abs x) as [Hx | Hx];
    destruct (Rcase_abs (utils.DegToRad x)) as [Hd | Hd];
    unfold utils.DegToRad in *; try nra.
Qed.

End Angles.

Section Bearing.

Local Open Scope R_scope.

Lemma BearingBetween_bounds (lat_1 lon_1 lat_2 lon_2 : R) (degrees : bool) :
  -180 < BearingBetween lat_1 lon_1 lat_2 lon_2 degrees <= 180.
Proof.
  unfold BearingBetween. cbv zeta.
  match goal with |- _ < utils.RadToDeg (math_atan2 ?y ?x) <= _ =>
    pose proof (math_atan2_range y x) as [B1 B2];
    set (brg := math_atan2 y x) in *
  end.
  unfold utils.RadToDeg. pose proof PI_RGT_0 as HP.
  split.
  - apply Rmult_lt_reg_r with PI; [exact HP |].
    unfold Rdiv. rewrite Rmult_assoc, Rinv_l by lra. lra.
  - apply Rmult_le_reg_r with PI; [exact HP |].
    unfold Rdiv. rewrite Rmult_assoc, Rinv_l by lra. lra.
Qed.

(** Along a meridian the bearing only depends on the sine of the
    difference of the latitudes. *)
Lemma BearingBetween_meridian (lat_1 lat_2 lon : R) :
  BearingBetween lat_1 lon lat_2 lon true
  = utils.RadToDeg
      (math_atan2 0 (sin (utils.DegToRad lat_2 - utils.DegToRad lat_1))).
Proof.
  unfold BearingBetween. cbv zeta.
  rewrite Rminus_diag, sin_0, cos_0, Rmult_0_l, sin_minus.
  do 2 f_equal. ring.
Qed.

Lemma BearingBetween_north (lat_1 lat_2 lon : R) :
  -90 <= lat_1 -> lat_1 <= lat_2 -> lat_2 <= 90 ->
  BearingBetween lat_1 lon lat_2 lon true = 0.
Proof.
  intros H1 H2 H3. rewrite BearingBetween_meridian, math_atan2_0_nonneg.
  - unfold utils.RadToDeg. field. apply PI_neq0.
  - rewrite <- DegToRad_minus. pose proof PI_RGT_0 as HP.
    apply sin_ge_0.
    + rewrite <- DegToRad_0. apply DegToRad_le. lra.
    + rewrite <- DegToRad_180. apply DegToRad_le. lra.
Qed.

Lemma BearingBetween_south (lat_1 lat_2 lon : R) :
  lat_2 < lat_1 -> lat_1 - lat_2 < 180 ->
  BearingBetween lat_1 lon lat_2 lon true = 180.
Proof.
  intros H1 H2. rewrite BearingBetween_meridian.
  rewrite <- DegToRad_minus. pose proof PI_RGT_0 as HP.
  assert (Hs : sin (utils.DegToRad (lat_2 - lat_1)) < 0).
  { apply sin_lt_0_var.
    - rewrite <- DegToRad_180. unfold utils.DegToRad. nra.
    - rewrite <- DegToRad_0. apply DegToRad_lt. lra. }
  unfold math_atan2.
  destruct (Rlt_dec 0 _) as [? | _]; [lra |].
  destruct (Rlt_dec _ 0) as [_ | ?]; [| lra].
  destruct (Rle_dec 0 0) as [_ | ?]; [| lra].
  unfold Rdiv at 1. rewrite Rmult_0_l, atan_0.
  unfold utils.RadToDeg. field. lra.
Qed.

Lemma BearingBetween_equator (lon_1 lon_2 : R) :
  0 < lon_2 - lon_1 -> lon_2 - lon_1 < 180 ->
  BearingBetween 0 lon_1 0 lon_2 true = 90
  /\ BearingBetween 0 lon_2 0 lon_1 true = -90.
Proof.
  intros H1 H2. pose proof PI_RGT_0 as HP.
  unfold BearingBetween. cbv zeta.
  rewrite DegToRad_0, sin_0, cos_0, <- !DegToRad_minus.
  assert (Hs : 0 < sin (utils.DegToRad (lon_2 - lon_1))).
  { apply sin_gt_0.
    - rewrite <- DegToRad_0. now apply DegToRad_lt.
    - rewrite <- DegToRad_180. now apply DegToRad_lt. }
  replace (utils.DegToRad (lon_1 - lon_2))
    with (- utils.DegToRad (lon_2 - lon_1)) by (unfold utils.DegToRad; field).
  rewrite sin_neg, cos_neg.
  set (d := utils.DegToRad (lon_2 - lon_1)) in *.
  replace (1 * 0 - 0 * 1 * cos d) with 0 by ring.
  unfold math_atan2.
  destruct (Rlt_dec 0 0) as [C | _]; [exfalso; lra |].
  split.
  - destruct (Rlt_dec 0 (sin d * 1)) as [_ | C]; [| exfalso; lra].
    unfold utils.RadToDeg. field. lra.
  - destruct (Rlt_dec 0 (- sin d * 1)) as [C | _]; [exfalso; lra |].
    destruct (Rlt_dec (- sin d * 1) 0) as [_ | C]; [| exfalso; lra].
    unfold utils.RadToDeg. field. lra.
Qed.

End Bearing.

(** X1: the bearing that [BearingBetween] returns is a signed angle: it
    lies between -180 and 180 degrees, both included, for all arguments and
    both settings of [degrees]. *)
Theorem BearingBetween_range :
  forall (lat_1 lon_1 lat_2 lon_2 : R) (degrees : bool),
    -180 <= BearingBetween lat_1 lon_1 lat_2 lon_2 degrees <= 180.
Proof.
  intros lat_1 lon_1 lat_2 lon_2 degrees.
  pose proof (BearingBetween_bounds lat_1 lon_1 lat_2 lon_2 degrees). lra.
Qed.





(** ** Distances on the sphere *)

Section Haversine.

Local Open Scope R_scope.

Lemma sin_half_square (t : R) :
  sin (t / 2) * sin (t / 2) = (1 - cos t) / 2.
Proof.
  replace t with (2 * (t / 2)) at 3 by field. rewrite cos_2a_sin. field.
Qed.

Lemma hav_bounds (p1 l1 p2 l2 : R) :
  - (PI / 2) <= p1 <= PI / 2 -> - (PI / 2) <= p2 <= PI / 2 ->
  0 <= haversine p1 l1 p2 l2 <= 1.
Proof.
  intros [A1 A2] [B1 B2]. unfold haversine.
  pose proof (cos_ge_0 p1 A1 A2) as C1. pose proof (cos_ge_0 p2 B1 B2) as C2.
  assert (CC : 0 <= cos p1 * cos p2) by now apply Rmult_le_pos.
  rewrite Rmult_assoc. rewrite !sin_half_square.
  pose proof (COS_bound (l2 - l1)) as [L1 L2].
  pose proof (COS_bound (p1 + p2)) as [S1 S2].
  rewrite cos_minus. rewrite cos_plus in S1, S2.
  set (c := cos p1 * cos p2) in *. set (s := sin p1 * sin p2) in *.
  set (k := cos (l2 - l1)) in *.
  replace (cos p2 * cos p1) with c by (unfold c; ring).
  replace (sin p2 * sin p1) with s by (unfold s; ring).
  assert (0 <= c * ((1 - k) / 2) <= c) by (split; nra).
  pose proof (COS_bound (p2 - p1)) as [D1 D2].
  rewrite cos_minus in D1, D2.
  replace (cos p2 * cos p1) with c in D1, D2 by (unfold c; ring).
  replace (sin p2 * sin p1) with s in D1, D2 by (unfold s; ring).
  lra.
Qed.

Lemma cos_Rabs (x : R) : cos (Rabs x) = cos x.
Proof. unfold Rabs. destruct (Rcase_abs x); [apply cos_neg | reflexivity]. Qed.

(** The cosine of an angle of at most [bound], in absolute value. *)
Lemma cos_above (x bound : R) :
  Rabs x <= bound -> bound <= PI -> cos bound <= cos x.
Proof.
  intros H Hb. rewrite <- (cos_Rabs x). pose proof (Rabs_pos x).
  apply cos_decr_1; lra.
Qed.

Lemma cos_89_degrees : Rabs (cos (89 * PI / 180) - 0.0174524) <= 0.0000001.
Proof.
  match goal with
  | |- Rabs (?t - Q2R ?target) <= Q2R ?tol =>
      let e := reify t in
      change (Rabs (eval e - Q2R target) <= Q2R tol)
  end.
  apply near_sound; vm_cast_no_check (eq_refl true).
Qed.

Lemma cos_179_degrees : Rabs (cos (179 * PI / 180) - -0.9998477) <= 0.0000001.
Proof.
  match goal with
  | |- Rabs (?t - Q2R ?target) <= Q2R ?tol =>
      let e := reify t in
      change (Rabs (eval e - Q2R target) <= Q2R tol)
  end.
  apply near_sound; vm_cast_no_check (eq_refl true).
Qed.

(** Away from the poles and from the opposite meridian the quantity [a]
    stays clear of 1: the root of [1 - a] is that of a number of at least
    one part in 10^8. *)
Lemma hav_margin (p1 l1 p2 l2 : R) :
  Rabs p1 <= utils.DegToRad 89 -> Rabs p2 <= utils.DegToRad 89 ->
  Rabs (l2 - l1) <= utils.DegToRad 179 ->
  haversine p1 l1 p2 l2 <= 1 - 1 / 100000000.
Proof.
  intros A B L. unfold utils.DegToRad in *. pose proof PI_RGT_0 as HP.
  pose proof (cos_above p1 _ A ltac:(lra)) as C1.
  pose proof (cos_above p2 _ B ltac:(lra)) as C2.
  pose proof (cos_above (l2 - l1) _ L ltac:(lra)) as K.
  pose proof cos_89_degrees as N1. pose proof cos_179_degrees as N2.
  apply Rabs_le_both in N1, N2.
  set (m := cos (89 * PI / 180)) in *. set (n := cos (179 * PI / 180)) in *.
  unfold haversine. rewrite Rmult_assoc, !sin_half_square.
  pose proof (COS_bound (p1 + p2)) as [_ S]. rewrite cos_plus in S.
  rewrite cos_minus.
  set (c1 := cos p1) in *. set (c2 := cos p2) in *.
  set (s := sin p1 * sin p2) in *. set (k := cos (l2 - l1)) in *.
  replace (sin p2 * sin p1) with s by (unfold s; ring).
  assert (M : 0.0003 <= c1 * c2).
  { assert (0.0174 <= c1) by lra. assert (0.0174 <= c2) by lra. nra. }
  assert (K' : 0.00015 <= 1 + k) by lra.
  assert (P : 0.0003 * 0.00015 <= (c1 * c2) * (1 + k)).
  { apply Rmult_le_compat; lra. }
  lra.
Qed.

Lemma half_angle_range (a : R) :
  0 <= a <= 1 -> 0 <= math_atan2 (sqrt a) (sqrt (1 - a)) <= PI / 2.
Proof.
  intros [H0 H1]. pose proof PI_RGT_0 as HP.
  pose proof (sqrt_pos a) as Sa. pose proof (sqrt_pos (1 - a)) as Sb.
  unfold math_atan2.
  destruct (Rlt_dec 0 (sqrt (1 - a))) as [Hb | Hb].
  - pose proof (atan_bound (sqrt a / sqrt (1 - a))) as [_ B].
    split; [| lra].
    destruct Sa as [Sa | <-].
    + left. rewrite <- atan_0. apply atan_increasing.
      apply Rdiv_lt_0_compat; assumption.
    + unfold Rdiv. rewrite Rmult_0_l, atan_0. lra.
  - destruct (Rlt_dec (sqrt (1 - a)) 0); [lra |].
    destruct (Rlt_dec 0 (sqrt a)); [lra |].
    destruct (Rlt_dec (sqrt a) 0); lra.
Qed.

Lemma DistanceBetween_radians (p1 l1 p2 l2 : R) :
  0 <= haversine p1 l1 p2 l2 <= 1 ->
  DistanceBetween p1 l1 p2 l2 false
  = Ok (wgs84_earth_equatorial_radius_m
        * (2 * math_atan2 (sqrt (haversine p1 l1 p2 l2))
                 (sqrt (1 - haversine p1 l1 p2 l2)))).
Proof.
  intros [H0 H1]. unfold DistanceBetween. cbv zeta. fold (haversine p1 l1 p2 l2).
  rewrite (math_sqrt_nonneg _ H0). cbn [Py.bind].
  rewrite math_sqrt_nonneg by lra. reflexivity.
Qed.

Lemma DistanceBetween_degrees (lat_1 lon_1 lat_2 lon_2 : R) :
  DistanceBetween lat_1 lon_1 lat_2 lon_2 true
  = DistanceBetween (utils.DegToRad lat_1) (utils.DegToRad lon_1)
      (utils.DegToRad lat_2) (utils.DegToRad lon_2) false.
Proof. reflexivity. Qed.

Lemma DistanceBetween_in_range (lat_1 lon_1 lat_2 lon_2 : R) :
  -90 <= lat_1 <= 90 -> -90 <= lat_2 <= 90 ->
  exists d,
    DistanceBetween lat_1 lon_1 lat_2 lon_2 true = Ok d
    /\ 0 <= d <= PI * wgs84_earth_equatorial_radius_m.
Proof.
  intros H1 H2. rewrite DistanceBetween_degrees.
  apply DegToRad_quarter_turn in H1, H2.
  pose proof (hav_bounds _ (utils.DegToRad lon_1) _ (utils.DegToRad lon_2) H1 H2)
    as Hb.
  rewrite (DistanceBetween_radians _ _ _ _ Hb).
  eexists. split; [reflexivity |].
  pose proof (half_angle_range _ Hb) as [A1 A2].
  unfold wgs84_earth_equatorial_radius_m. split; nra.
Qed.

Lemma DistanceBetween_clear_of_one (lat_1 lon_1 lat_2 lon_2 : R) :
  -89 <= lat_1 <= 89 -> -89 <= lat_2 <= 89 -> Rabs (lon_2 - lon_1) <= 179 ->
  haversine (utils.DegToRad lat_1) (utils.DegToRad lon_1)
    (utils.DegToRad lat_2) (utils.DegToRad lon_2)
  <= 1 - 1 / 100000000.
Proof.
  intros H1 H2 H3. apply hav_margin.
  - rewrite <- DegToRad_Rabs. apply DegToRad_le, Rabs_le. lra.
  - rewrite <- DegToRad_Rabs. apply DegToRad_le, Rabs_le. lra.
  - rewrite <- DegToRad_minus, <- DegToRad_Rabs. now apply DegToRad_le.
Qed.

(** When the quantity [a] is the square of the sine of [u], the distance is
    the radius times twice [u]. *)
Lemma DistanceBetween_arc (p1 l1 p2 l2 u : R) :
  haversine p1 l1 p2 l2 = sin u * sin u -> - (PI / 2) <= u <= PI / 2 ->
  DistanceBetween p1 l1 p2 l2 false
  = Ok (wgs84_earth_equatorial_radius_m * (2 * Rabs u)).
Proof.
  intros E [U1 U2]. pose proof PI_RGT_0 as HP.
  assert (Hs : sin u * sin u = sin (Rabs u) * sin (Rabs u)).
  { unfold Rabs. destruct (Rcase_abs u); [rewrite sin_neg; ring | reflexivity]. }
  assert (Hc : cos u = cos (Rabs u)).
  { unfold Rabs. destruct (Rcase_abs u); [now rewrite cos_neg | reflexivity]. }
  assert (A1 : 0 <= Rabs u) by apply Rabs_pos.
  assert (A2 : Rabs u <= PI / 2) by (apply Rabs_le; lra).
  set (w := Rabs u) in *.
  assert (S0 : 0 <= sin w) by (apply sin_ge_0; lra).
  assert (C0 : 0 <= cos w) by (apply cos_ge_0; lra).
  assert (B : 0 <= haversine p1 l1 p2 l2 <= 1).
  { rewrite E, Hs. pose proof (SIN_bound w) as [? ?]. split; nra. }
  rewrite (DistanceBetween_radians _ _ _ _ B), E, Hs.
  rewrite (sqrt_square _ S0).
  replace (1 - sin w * sin w) with (cos w * cos w).
  2:{ pose proof (sin2_cos2 w) as T. unfold Rsqr in T. lra. }
  rewrite (sqrt_square _ C0), math_atan2_sin_cos by lra.
  reflexivity.
Qed.

Lemma DistanceBetween_meridian (lat_1 lat_2 lon : R) :
  -90 <= lat_1 <= 90 -> -90 <= lat_2 <= 90 ->
  DistanceBetween lat_1 lon lat_2 lon true
  = Ok (wgs84_earth_equatorial_radius_m * utils.DegToRad (Rabs (lat_2 - lat_1))).
Proof.
  intros H1 H2. rewrite DistanceBetween_degrees.
  apply DegToRad_quarter_turn in H1, H2.
  set (p1 := utils.DegToRad lat_1) in *. set (p2 := utils.DegToRad lat_2) in *.
  rewrite (DistanceBetween_arc _ _ _ _ ((p2 - p1) / 2)).
  - rewrite DegToRad_Rabs, DegToRad_minus. fold p1 p2.
    do 2 f_equal. unfold Rdiv. rewrite Rabs_mult, (Rabs_pos_eq (/ 2)) by lra.
    field.
  - unfold haversine. rewrite Rminus_diag. replace (0 / 2) with 0 by field.
    rewrite sin_0. ring.
  - lra.
Qed.

Lemma DistanceBetween_equator (lon_1 lon_2 : R) :
  Rabs (lon_2 - lon_1) <= 180 ->
  DistanceBetween 0 lon_1 0 lon_2 true
  = Ok (wgs84_earth_equatorial_radius_m * utils.DegToRad (Rabs (lon_2 - lon_1))).
Proof.
  intros H. rewrite DistanceBetween_degrees.
  rewrite DegToRad_0.
  assert (Hr : Rabs (utils.DegToRad lon_2 - utils.DegToRad lon_1) <= PI).
  { rewrite <- DegToRad_minus, <- DegToRad_Rabs, <- DegToRad_180.
    now apply DegToRad_le. }
  rewrite DegToRad_Rabs, DegToRad_minus.
  set (l1 := utils.DegToRad lon_1) in *. set (l2 := utils.DegToRad lon_2) in *.
  apply Rabs_le_both in Hr.
  rewrite (DistanceBetween_arc _ _ _ _ ((l2 - l1) / 2)).
  - do 2 f_equal. unfold Rdiv. rewrite Rabs_mult, (Rabs_pos_eq (/ 2)) by lra.
    field.
  - unfold haversine. rewrite Rminus_diag. replace (0 / 2) with 0 by field.
    rewrite sin_0, cos_0. ring.
  - lra.
Qed.

End Haversine.

(** X3: for two points whose latitudes lie between -89 and 89 degrees and
    whose longitudes lie between -360 and 360 degrees, at most 179 degrees
    apart, the quantity [a] of [DistanceBetween] is at most 1 - 10^-8, so
    that the root of [1 - a] is taken of a number that is clear of 0; the
    call returns a distance (it does not raise), which lies between 0 and
    half the circumference of the sphere, pi times 6378137 metres. *)
Theorem DistanceBetween_defined_and_bounded :
  forall lat_1 lon_1 lat_2 lon_2 : R,
    -89 <= lat_1 <= 89 -> -89 <= lat_2 <= 89 ->
    -360 <= lon_1 <= 360 -> -360 <= lon_2 <= 360 ->
    Rabs (lon_2 - lon_1) <= 179 ->
    haversine (utils.DegToRad lat_1) (utils.DegToRad lon_1)
      (utils.DegToRad lat_2) (utils.DegToRad lon_2)
    <= 1 - 1 / 100000000
    /\ exists d,
         DistanceBetween lat_1 lon_1 lat_2 lon_2 true = Ok d
         /\ 0 <= d <= PI * 6378137.
Proof.
  intros lat_1 lon_1 lat_2 lon_2 H1 H2 _ _ H3. split.
  - now apply DistanceBetween_clear_of_one.
  - apply DistanceBetween_in_range; lra.
Qed.

Lemma DistanceBetween_defined_and_bounded_witness :
  (-89 <= 52 <= 89) /\ (-89 <= -33 <= 89)
  /\ (-360 <= 1 <= 360) /\ (-360 <= 151 <= 360) /\ Rabs (151 - 1) <= 179
  /\ haversine (utils.DegToRad 52) (utils.DegToRad 1)
       (utils.DegToRad (-33)) (utils.DegToRad 151)
     <= 1 - 1 / 100000000
  /\ exists d,
       DistanceBetween 52 1 (-33) 151 true = Ok d /\ 0 <= d <= PI * 6378137.
Proof.
  assert (H1 : -89 <= 52 <= 89) by lra.
  assert (H2 : -89 <= -33 <= 89) by lra.
  assert (L1 : -360 <= 1 <= 360) by lra.
  assert (L2 : -360 <= 151 <= 360) by lra.
  assert (H3 : Rabs (151 - 1) <= 179) by (apply Rabs_le; lra).
  split; [exact H1 | split; [exact H2 | split; [exact L1 | split; [exact L2 |
    split; [exact H3 |]]]]].
  exact (DistanceBetween_defined_and_bounded 52 1 (-33) 151 H1 H2 L1 L2 H3).
Defined.





(** ** Extrapolation along a meridian *)

Section ExtrapolateMeridian.

Local Open Scope R_scope.

Lemma target_longitude (phi delta : R) :
  - (PI / 2) <= phi <= PI / 2 -> - (PI / 2) <= phi + delta <= PI / 2 ->
  0 <= cos delta - sin phi * sin (phi + delta).
Proof.
  intros [A1 A2] [B1 B2].
  pose proof (cos_ge_0 _ A1 A2). pose proof (cos_ge_0 _ B1 B2).
  replace delta with ((phi + delta) - phi) at 1 by ring.
  rewrite cos_minus.
  assert (0 <= cos (phi + delta) * cos phi) by now apply Rmult_le_pos.
  lra.
Qed.

Lemma Extrapolate_north (lat lon dst : R) :
  -90 <= lat <= 90 -> -90 <= lat + arc_degrees dst <= 90 ->
  Extrapolate lat lon 0 dst true = Ok (lat + arc_degrees dst, lon).
Proof.
  intros H1 H2. unfold Extrapolate. cbv zeta.
  apply DegToRad_quarter_turn in H1, H2.
  rewrite DegToRad_plus in H2. unfold arc_degrees in *. rewrite DegToRad_RadToDeg in H2.
  set (phi := utils.DegToRad lat) in *.
  set (delta := dst / wgs84_earth_equatorial_radius_m) in *.
  rewrite DegToRad_0, sin_0, cos_0.
  replace (sin phi * cos delta + cos phi * sin delta * 1)
    with (sin (phi + delta)) by (rewrite sin_plus; ring).
  rewrite math_asin_sin. cbn [Py.bind]. rewrite asin_sin by exact H2.
  replace (0 * sin delta * cos phi) with 0 by ring.
  rewrite math_atan2_0_nonneg by now apply target_longitude.
  rewrite Rplus_0_r, RadToDeg_DegToRad.
  unfold utils.RadToDeg, phi, utils.DegToRad. do 2 f_equal. field.
  apply PI_neq0.
Qed.

Lemma Extrapolate_south (lat lon dst : R) :
  -90 <= lat <= 90 -> -90 <= lat - arc_degrees dst <= 90 ->
  Extrapolate lat lon 180 dst true = Ok (lat - arc_degrees dst, lon).
Proof.
  intros H1 H2. unfold Extrapolate. cbv zeta.
  apply DegToRad_quarter_turn in H1, H2.
  rewrite DegToRad_minus in H2. unfold arc_degrees in *. rewrite DegToRad_RadToDeg in H2.
  set (phi := utils.DegToRad lat) in *.
  set (delta := dst / wgs84_earth_equatorial_radius_m) in *.
  rewrite DegToRad_180, sin_PI, cos_PI.
  replace (sin phi * cos delta + cos phi * sin delta * -1)
    with (sin (phi - delta)) by (rewrite sin_minus; ring).
  rewrite math_asin_sin. cbn [Py.bind]. rewrite asin_sin by exact H2.
  replace (0 * sin delta * cos phi) with 0 by ring.
  rewrite math_atan2_0_nonneg.
  - rewrite Rplus_0_r, RadToDeg_DegToRad.
    unfold utils.RadToDeg, phi, utils.DegToRad. do 2 f_equal. field.
    apply PI_neq0.
  - rewrite <- cos_neg. replace (phi - delta) with (phi + - delta) by ring.
    apply target_longitude; [exact H1 |].
    replace (phi + - delta) with (phi - delta) by ring. exact H2.
Qed.

Lemma arc_degrees_nonneg (dst : R) : 0 <= dst -> 0 <= arc_degrees dst.
Proof.
  intros H. unfold arc_degrees, utils.RadToDeg, wgs84_earth_equatorial_radius_m.
  pose proof PI_RGT_0.
  apply Rmult_le_pos; [| left; now apply Rinv_0_lt_compat].
  apply Rmult_le_pos; [| lra].
  apply Rmult_le_pos; [exact H | left; apply Rinv_0_lt_compat; lra].
Qed.

Lemma arc_degrees_length (dst : R) :
  wgs84_earth_equatorial_radius_m * utils.DegToRad (arc_degrees dst) = dst.
Proof.
  unfold arc_degrees. rewrite DegToRad_RadToDeg.
  unfold wgs84_earth_equatorial_radius_m. field.
Qed.

(** A distance of up to 100 km is an arc of less than one degree. *)
Lemma arc_degrees_small (dst : R) :
  0 <= dst <= 100000 -> 0 <= arc_degrees dst <= 1.
Proof.
  intros [H0 H1]. split; [now apply arc_degrees_nonneg |].
  unfold arc_degrees, utils.RadToDeg, wgs84_earth_equatorial_radius_m.
  pose proof PI2_3_2 as HP.
  apply Rmult_le_reg_r with PI; [lra |].
  unfold Rdiv. rewrite Rmult_assoc, Rinv_l by lra. lra.
Qed.

Lemma Rabs_self (x tol : R) : 0 <= tol -> Rabs (x - x) <= tol.
Proof. intros H. rewrite Rminus_diag, Rabs_R0. exact H. Qed.

Lemma Extrapolate_north_then_back (lat lon dst : R) :
  -90 <= lat -> 0 <= dst -> lat + arc_degrees dst <= 90 ->
  (p <- Extrapolate lat lon 0 dst true ;;
   d <- DistanceBetween lat lon (fst p) (snd p) true ;;
   Ok (d, BearingBetween lat lon (fst p) (snd p) true))
  = Ok (dst, 0).
Proof.
  intros H1 H2 H3. pose proof (arc_degrees_nonneg dst H2) as Ha.
  rewrite Extrapolate_north by lra. cbn [Py.bind fst snd].
  rewrite DistanceBetween_meridian by lra. cbn [Py.bind].
  rewrite BearingBetween_north by lra.
  replace (lat + arc_degrees dst - lat) with (arc_degrees dst) by ring.
  rewrite (Rabs_pos_eq _ Ha), arc_degrees_length. reflexivity.
Qed.

End ExtrapolateMeridian.

(** X6: [Extrapolate] along a meridian, in degrees and away from the poles:
    when the start and the target latitude lie between -89 and 89 degrees
    and the longitude between -360 and 360, bearing 0 moves the latitude by
    the angle of the arc of length [dst] and keeps the longitude, and from
    the target bearing 180 and the same distance lead back to the start;
    each of the four numbers returned is met to a billionth of a degree. *)
Theorem Extrapolate_along_meridian :
  forall lat lon dst : R,
    -89 <= lat <= 89 -> -89 <= lat + arc_degrees dst <= 89 ->
    -360 <= lon <= 360 ->
    exists lat_n lon_n lat_s lon_s : R,
      Extrapolate lat lon 0 dst true = Ok (lat_n, lon_n)
      /\ Rabs (lat_n - (lat + arc_degrees dst)) <= 1 / 1000000000
      /\ Rabs (lon_n - lon) <= 1 / 1000000000
      /\ Extrapolate (lat + arc_degrees dst) lon 180 dst true
         = Ok (lat_s, lon_s)
      /\ Rabs (lat_s - lat) <= 1 / 1000000000
      /\ Rabs (lon_s - lon) <= 1 / 1000000000.
Proof.
  intros lat lon dst H1 H2 _.
  exists (lat + arc_degrees dst), lon, lat, lon.
  repeat split; try (apply Rabs_self; lra).
  - apply Extrapolate_north; lra.
  - rewrite Extrapolate_south.
    + do 2 f_equal. ring.
    + lra.
    + replace (lat + arc_degrees dst - arc_degrees dst) with lat by ring. lra.
Qed.

Lemma Extrapolate_along_meridian_witness :
  (-89 <= 45 <= 89) /\ (-89 <= 45 + arc_degrees 1000 <= 89)
  /\ (-360 <= 7 <= 360)
  /\ exists lat_n lon_n lat_s lon_s : R,
       Extrapolate 45 7 0 1000 true = Ok (lat_n, lon_n)
       /\ Rabs (lat_n - (45 + arc_degrees 1000)) <= 1 / 1000000000
       /\ Rabs (lon_n - 7) <= 1 / 1000000000
       /\ Extrapolate (45 + arc_degrees 1000) 7 180 1000 true
          = Ok (lat_s, lon_s)
       /\ Rabs (lat_s - 45) <= 1 / 1000000000
       /\ Rabs (lon_s - 7) <= 1 / 1000000000.
Proof.
  assert (H1 : -89 <= 45 <= 89) by lra.
  assert (H2 : -89 <= 45 + arc_degrees 1000 <= 89).
  { assert (A : 0 <= arc_degrees 1000 <= 1) by (apply arc_degrees_small; lra).
    lra. }
  assert (H3 : -360 <= 7 <= 360) by lra.
  split; [exact H1 | split; [exact H2 | split; [exact H3 |]]].
  exact (Extrapolate_along_meridian 45 7 1000 H1 H2 H3).
Defined.

(** X7: going north with [Extrapolate] by a distance [dst] of a metre or
    more, from a latitude of -89 degrees or more to one of at most 89, and
    then measuring back with [DistanceBetween] and [BearingBetween], gives
    the distance [dst] to a millimetre and the bearing 0 to a thousandth of
    a degree. *)
Theorem Extrapolate_then_measure :
  forall lat lon dst : R,
    -89 <= lat -> -360 <= lon <= 360 -> 1 <= dst ->
    lat + arc_degrees dst <= 89 ->
    exists d b : R,
      (p <- Extrapolate lat lon 0 dst true ;;
       d <- DistanceBetween lat lon (fst p) (snd p) true ;;
       Ok (d, BearingBetween lat lon (fst p) (snd p) true))
      = Ok (d, b)
      /\ Rabs (d - dst) <= 1 / 1000 /\ Rabs b <= 1 / 1000.
Proof.
  intros lat lon dst H1 _ H2 H3. exists dst, 0.
  split; [apply Extrapolate_north_then_back; lra |].
  split; [apply Rabs_self; lra | rewrite Rabs_R0; lra].
Qed.

Lemma Extrapolate_then_measure_witness :
  -89 <= 45 /\ (-360 <= 7 <= 360) /\ 1 <= 1000
  /\ 45 + arc_degrees 1000 <= 89
  /\ exists d b : R,
       (p <- Extrapolate 45 7 0 1000 true ;;
        d <- DistanceBetween 45 7 (fst p) (snd p) true ;;
        Ok (d, BearingBetween 45 7 (fst p) (snd p) true))
       = Ok (d, b)
       /\ Rabs (d - 1000) <= 1 / 1000 /\ Rabs b <= 1 / 1000.
Proof.
  assert (H1 : -89 <= 45) by lra.
  assert (H2 : -360 <= 7 <= 360) by lra.
  assert (H3 : 1 <= 1000) by lra.
  assert (H4 : 45 + arc_degrees 1000 <= 89).
  { assert (A : 0 <= arc_degrees 1000 <= 1) by (apply arc_degrees_small; lra).
    lra. }
  split; [exact H1 | split; [exact H2 | split; [exact H3 | split; [exact H4 |]]]].
  exact (Extrapolate_then_measure 45 7 1000 H1 H2 H3 H4).
Defined.

(** ** Cartesian coordinates *)

Section Cartesian.

Local Open Scope R_scope.

Lemma fdiv_raises (x y : R) (e : exn) :
  fdiv x y = Raise e -> e = ZeroDivisionError.
Proof. unfold fdiv. destruct (Req_dec_T y 0); congruence. Qed.

Lemma fdiv_by_zero (x : R) : fdiv x 0 = Raise ZeroDivisionError.
Proof. unfold fdiv. destruct (Req_dec_T 0 0) as [_ | H]; [reflexivity | now elim H]. Qed.

Lemma bind_ZeroDivisionError {A B : Type} (c : result A) (k : A -> result B) :
  (forall e, c = Raise e -> e = ZeroDivisionError) ->
  (forall a, k a = Raise ZeroDivisionError) ->
  (x <- c ;; k x) = Raise ZeroDivisionError.
Proof.
  intros Hc Hk. destruct c as [a | e]; cbn.
  - apply Hk.
  - f_equal. now apply Hc.
Qed.

Lemma CartesianToLatLon_x_zero (y z : R) (ellipsoid_ref : EReferenceEllipsoid) :
  CartesianToLatLon 0 y z (Member ellipsoid_ref) = Raise ZeroDivisionError.
Proof.
  unfold CartesianToLatLon.
  assert (E : exists ab, ellipsoid_parameters (Member ellipsoid_ref) = Some ab)
    by (destruct ellipsoid_ref; eexists; reflexivity).
  destruct E as [ab ->]. cbn [Py.read_local Py.bind]. cbv zeta.
  apply bind_ZeroDivisionError; [intros e; apply fdiv_raises | intros t1].
  apply bind_ZeroDivisionError; [intros e; apply fdiv_raises | intros t2].
  apply bind_ZeroDivisionError; [intros e; apply fdiv_raises | intros t3].
  now rewrite fdiv_by_zero.
Qed.

(** Semi axes of the two ellipsoids. *)
Lemma ellipsoid_axes (ellipsoid_ref : EReferenceEllipsoid) :
  exists a b,
    ellipsoid_parameters (Member ellipsoid_ref) = Some (a, b)
    /\ 6356000 < b /\ b < a /\ a < 6379000.
Proof.
  destruct ellipsoid_ref; cbn [ellipsoid_parameters];
    unfold GetAiry1830, GetWgs84; cbv zeta; do 2 eexists;
    (split; [reflexivity | lra]).
Qed.

Lemma radicand_positive (a b s : R) :
  0 < b -> b < a -> -1 <= s <= 1 -> 0 < 1 - Eccentricity1 a b * (s * s).
Proof.
  intros Hb Hab Hs. rewrite Eccentricity1_expand.
  assert (Ha2 : 0 < a * a) by nra.
  assert (E : 0 <= (a * a - b * b) / (a * a) < 1).
  { split.
    - apply Rmult_le_pos; [nra | left; now apply Rinv_0_lt_compat].
    - apply Rmult_lt_reg_r with (a * a); [exact Ha2 |].
      unfold Rdiv. rewrite Rmult_assoc, Rinv_l by lra. nra. }
  set (e := (a * a - b * b) / (a * a)) in *.
  assert (0 <= s * s <= 1) by (split; nra).
  nra.
Qed.

(** The Cartesian coordinates of a point, for angles in radians. *)
Lemma ecef_radians (lat lon height : R) (ellipsoid_ref : EReferenceEllipsoid)
    (a b : R) :
  ellipsoid_parameters (Member ellipsoid_ref) = Some (a, b) ->
  LatLonHeightToEcefCartesian (CNum lat) (CNum lon) height
    (Member LatLonRad) (Member ellipsoid_ref)
  = ([],
     let v := a / sqrt (1 - Eccentricity1 a b * (sin lat * sin lat)) in
     Ok ((v + height) * cos lat * cos lon,
         (v + height) * cos lat * sin lon,
         ((1 - Eccentricity1 a b) * v + height) * sin lat)).
Proof.
  intros E. unfold LatLonHeightToEcefCartesian.
  cbn [to_radians Py.bind]. rewrite E. cbn [Py.read_local Py.bind as_number fst snd].
  now rewrite math_pow_2.
Qed.

Lemma ecef_degrees (lat lon height : R) (ellipsoid_ref : enum_arg EReferenceEllipsoid) :
  LatLonHeightToEcefCartesian (CNum lat) (CNum lon) height
    (Member LatLonDd) ellipsoid_ref
  = LatLonHeightToEcefCartesian (CNum (utils.DegToRad lat))
      (CNum (utils.DegToRad lon)) height (Member LatLonRad) ellipsoid_ref.
Proof. reflexivity. Qed.

Lemma on_ellipsoid (a b lat lon : R) :
  0 < b -> b < a ->
  let v := a / sqrt (1 - Eccentricity1 a b * (sin lat * sin lat)) in
  let x := (v + 0) * cos lat * cos lon in
  let y := (v + 0) * cos lat * sin lon in
  let z := ((1 - Eccentricity1 a b) * v + 0) * sin lat in
  (x * x + y * y) / (a * a) + z * z / (b * b) = 1.
Proof.
  intros Hb Hab.
  pose proof (SIN_bound lat) as Hs.
  pose proof (radicand_positive a b (sin lat) Hb Hab Hs) as Hw.
  pose proof (sqrt_lt_R0 _ Hw) as Hq.
  pose proof (sqrt_sqrt _ (Rlt_le _ _ Hw)) as Eq.
  intros v x y z. unfold x, y, z, v. clear x y z v.
  set (q := sqrt _) in *.
  pose proof (sin2_cos2 lat) as T1. pose proof (sin2_cos2 lon) as T2.
  unfold Rsqr in T1, T2.
  set (s := sin lat) in *. set (c := cos lat) in *.
  set (sl := sin lon) in *. set (cl := cos lon) in *.
  rewrite Eccentricity1_expand in *.
  assert (Hq2 : q * q = (a * a - (a * a - b * b) * (s * s)) / (a * a)).
  { rewrite Eq. field. lra. }
  assert (Hc2 : c * c = 1 - s * s) by lra.
  assert (Hcl2 : cl * cl = 1 - sl * sl) by lra.
  replace ((a / q + 0) * c * cl * ((a / q + 0) * c * cl)
           + (a / q + 0) * c * sl * ((a / q + 0) * c * sl))
    with (a * a * (c * c) * (cl * cl + sl * sl) / (q * q)) by (field; lra).
  replace (((1 - (a * a - b * b) / (a * a)) * (a / q) + 0) * s
           * (((1 - (a * a - b * b) / (a * a)) * (a / q) + 0) * s))
    with (b * b * (b * b) * (s * s) / (a * a * (q * q))) by (field; lra).
  rewrite Hc2, Hcl2, Hq2. field.
  split; [| split]; try lra.
  intros H0.
  assert (a * a * (q * q) = 0) by (rewrite Hq2; field_simplify; lra).
  assert (0 < a * a * (q * q)) by (apply Rmult_lt_0_compat; nra).
  lra.
Qed.

Lemma surface_point (lat lon : R) (ellipsoid_ref : EReferenceEllipsoid) :
  exists a b x y z,
    ellipsoid_parameters (Member ellipsoid_ref) = Some (a, b)
    /\ LatLonHeightToEcefCartesian (CNum lat) (CNum lon) 0
         (Member LatLonRad) (Member ellipsoid_ref) = ([], Ok (x, y, z))
    /\ (x * x + y * y) / (a * a) + z * z / (b * b) = 1.
Proof.
  destruct (ellipsoid_axes ellipsoid_ref) as (a & b & E & H1 & H2 & H3).
  exists a, b. do 3 eexists. split; [exact E |].
  split; [rewrite (ecef_radians _ _ _ _ a b E); cbv zeta; reflexivity |].
  apply on_ellipsoid; lra.
Qed.

Lemma equator_round_trip (lon height : R) (ellipsoid_ref : EReferenceEllipsoid) :
  -90 < lon < 90 -> -6000000 <= height ->
  exists x y z,
    LatLonHeightToEcefCartesian (CNum 0) (CNum lon) height
      (Member LatLonDd) (Member ellipsoid_ref) = ([], Ok (x, y, z))
    /\ CartesianToLatLon x y z (Member ellipsoid_ref) = Ok (0, lon, height).
Proof.
  intros Hlon Hh.
  destruct (ellipsoid_axes ellipsoid_ref) as (a & b & E & H1 & H2 & H3).
  rewrite ecef_degrees, (ecef_radians _ _ _ _ a b E). cbv zeta.
  rewrite DegToRad_0, sin_0, cos_0.
  replace (1 - Eccentricity1 a b * (0 * 0)) with 1 by ring.
  rewrite sqrt_1.
  set (l := utils.DegToRad lon).
  assert (Hl : - (PI / 2) < l < PI / 2).
  { unfold l. rewrite <- DegToRad_90. split.
    - replace (- utils.DegToRad 90) with (utils.DegToRad (-90))
        by (unfold utils.DegToRad; field).
      apply DegToRad_lt. lra.
    - apply DegToRad_lt. lra. }
  assert (Hc : 0 < cos l) by (apply cos_gt_0; lra).
  set (p := a / 1 + height).
  assert (Hp : 0 < p) by (unfold p; lra).
  do 3 eexists. split; [reflexivity |].
  unfold CartesianToLatLon. rewrite E. cbn [Py.read_local Py.bind fst snd].
  cbv zeta. rewrite !math_pow_2.
  pose proof (sin2_cos2 l) as T. unfold Rsqr in T.
  replace (p * 1 * cos l * (p * 1 * cos l) + p * 1 * sin l * (p * 1 * sin l))
    with (p * p) by nra.
  rewrite (sqrt_square p) by lra.
  replace (((1 - Eccentricity1 a b) * (a / 1) + height) * 0) with 0 by ring.
  replace (p * p + 0 * 0) with (p * p) by ring.
  rewrite (sqrt_square p) by lra.
  assert (Hap : a * p <> 0)
    by (apply Rgt_not_eq, Rmult_lt_0_compat; lra).
  rewrite (fdiv_nonzero (b * 0) (a * p)) by exact Hap.
  rewrite (fdiv_nonzero b p) by lra. cbn [Py.bind].
  replace (b * 0 / (a * p) * ((1 + Eccentricity2 a b) * (b / p))) with 0
    by (field; lra).
  rewrite atan_0, sin_0, cos_0, !math_pow_3.
  assert (Hbot : p - Eccentricity1 a b * a * (1 * 1 * 1) <> 0).
  { rewrite Eccentricity1_expand. unfold p.
    replace (a / 1 + height - (a * a - b * b) / (a * a) * a * (1 * 1 * 1))
      with (height + b * b / a) by (field; lra).
    assert (6000000 < b * b / a).
    { apply Rmult_lt_reg_r with a; [lra |].
      unfold Rdiv. rewrite Rmult_assoc, Rinv_l by lra.
      assert (6356000 * 6356000 < b * b) by nra. lra. }
    lra. }
  rewrite fdiv_nonzero by exact Hbot. cbn [Py.bind].
  replace ((0 + Eccentricity2 a b * b * (0 * 0 * 0))
           / (p - Eccentricity1 a b * a * (1 * 1 * 1))) with 0
    by (unfold Rdiv; ring).
  assert (Hx : p * 1 * cos l <> 0)
    by (apply Rgt_not_eq, Rmult_lt_0_compat; lra).
  rewrite fdiv_nonzero by exact Hx. cbn [Py.bind].
  replace (p * 1 * sin l / (p * 1 * cos l)) with (tan l)
    by (unfold tan; field; lra).
  rewrite atan_tan by exact Hl.
  rewrite atan_0, sin_0, cos_0, math_pow_2.
  replace (1 - Eccentricity1 a b * (0 * 0)) with 1 by ring.
  rewrite sqrt_1. unfold l. rewrite RadToDeg_DegToRad.
  do 2 f_equal; [f_equal |].
  - unfold utils.RadToDeg. field. apply PI_neq0.
  - unfold p. field. lra.
Qed.

End Cartesian.

(** X8: [CartesianToLatLon] divides [y] by [x]: for a point with [x = 0]
    (the poles, and the meridians of 90 degrees east and west) it raises
    ZeroDivisionError, whatever [y], [z] and the ellipsoid. *)
Theorem CartesianToLatLon_needs_x :
  forall (y z : R) (ellipsoid_ref : EReferenceEllipsoid),
    CartesianToLatLon 0 y z (Member ellipsoid_ref) = Raise ZeroDivisionError.
Proof. exact CartesianToLatLon_x_zero. Qed.




(** ** The Helmert transformation *)

Section Helmert.

Local Open Scope R_scope.

Lemma sum_of_squares_nonneg (u v w : R) : 0 <= u * u + v * v + w * w.
Proof. nra. Qed.

Lemma HelmertTransform_stretch (x y z x' y' z' : R) :
  1.00004097 * dist2 (x, y, z) (x', y', z')
  <= dist2 (HelmertTransform x y z) (HelmertTransform x' y' z')
  <= 1.00004098 * dist2 (x, y, z) (x', y', z').
Proof.
  unfold HelmertTransform, dist2. cbv zeta.
  pose proof PI_RGT_0 as HP. pose proof PI_4 as HP4.
  set (rx := -0.1502 / (3600 * 180) * PI).
  set (ry := -0.2470 / (3600 * 180) * PI).
  set (rz := -0.8421 / (3600 * 180) * PI).
  set (k := 1 + 20.4894 * 1e-6).
  set (dx := x - x'). set (dy := y - y'). set (dz := z - z').
  set (D := dx * dx + dy * dy + dz * dz).
  set (W := (ry * dz - rz * dy) * (ry * dz - rz * dy)
            + (rz * dx - rx * dz) * (rz * dx - rx * dz)
            + (rx * dy - ry * dx) * (rx * dy - ry * dx)).
  match goal with |- _ <= ?m <= _ =>
    replace m with (k * k * (D + W)) by (unfold D, W, dx, dy, dz; ring)
  end.
  assert (HD : 0 <= D) by apply sum_of_squares_nonneg.
  assert (HW : 0 <= W) by apply sum_of_squares_nonneg.
  set (r2 := rx * rx + ry * ry + rz * rz).
  assert (L : W = r2 * D - (rx * dx + ry * dy + rz * dz) * (rx * dx + ry * dy + rz * dz))
    by (unfold W, r2, D; ring).
  assert (HW2 : W <= r2 * D).
  { rewrite L. pose proof (Rle_0_sqr (rx * dx + ry * dy + rz * dz)) as S.
    unfold Rsqr in S. lra. }
  assert (Hr2 : 0 <= r2 <= 4 / 100000000000).
  { split; [apply sum_of_squares_nonneg |].
    set (q := PI / 648000).
    assert (Hq : 0 <= q <= 4 / 648000) by (unfold q; lra).
    assert (Hqq : q * q <= 4 / 648000 * (4 / 648000))
      by (apply Rmult_le_compat; lra).
    assert (Ex : rx = -0.1502 * q) by (unfold rx, q; lra).
    assert (Ey : ry = -0.2470 * q) by (unfold ry, q; lra).
    assert (Ez : rz = -0.8421 * q) by (unfold rz, q; lra).
    unfold r2. rewrite Ex, Ey, Ez. nra. }
  assert (Hk : 1.00004097 <= k * k <= 1.000040979222) by (unfold k; lra).
  assert (HDW : D <= D + W <= (1 + 4 / 100000000000) * D) by nra.
  split.
  - apply Rle_trans with (k * k * D); [nra |].
    apply Rmult_le_compat_l; [nra | lra].
  - apply Rle_trans with (k * k * ((1 + 4 / 100000000000) * D)).
    + apply Rmult_le_compat_l; [nra | lra].
    + rewrite <- Rmult_assoc. apply Rmult_le_compat_r; [exact HD |]. nra.
Qed.

End Helmert.


(** ** Symmetries of the projection *)

Section GridSymmetry.

Local Open Scope R_scope.

Lemma central_meridian_easting (lat : R) :
  fst (LatLonToGridEastNorth lat (-2)) = 400000.
Proof.
  unfold LatLonToGridEastNorth. cbv zeta. cbn [fst].
  rewrite Rminus_diag.
  rewrite !(math_pow_whole _ 3), !(math_pow_whole _ 5). ring.
Qed.

Lemma true_origin : LatLonToGridEastNorth 49 (-2) = (400000, -100000).
Proof.
  rewrite (surjective_pairing (LatLonToGridEastNorth 49 (-2))).
  rewrite central_meridian_easting. f_equal.
  unfold LatLonToGridEastNorth. cbv zeta. cbn [snd].
  rewrite !Rminus_diag.
  rewrite !(math_pow_whole _ 2), !(math_pow_whole _ 4), !(math_pow_whole _ 6).
  rewrite !Rmult_0_r, sin_0. ring.
Qed.

Lemma mirror_image (lat d : R) :
  snd (LatLonToGridEastNorth lat (-2 - d)) = snd (LatLonToGridEastNorth lat (-2 + d))
  /\ fst (LatLonToGridEastNorth lat (-2 - d)) - 400000
     = - (fst (LatLonToGridEastNorth lat (-2 + d)) - 400000).
Proof.
  unfold LatLonToGridEastNorth. cbv zeta. cbn [fst snd].
  rewrite <- !DegToRad_minus.
  replace (-2 - d - -2) with (- d) by ring.
  replace (-2 + d - -2) with d by ring.
  replace (utils.DegToRad (- d)) with (- utils.DegToRad d)
    by (unfold utils.DegToRad; field).
  set (t := utils.DegToRad d).
  rewrite !(math_pow_whole _ 2), !(math_pow_whole _ 3), !(math_pow_whole _ 4),
    !(math_pow_whole _ 5), !(math_pow_whole _ 6).
  split; ring.
Qed.

End GridSymmetry.

(** X12: every point of the central meridian, longitude -2 degrees, has the
    easting 400000, and the true origin, latitude 49 and longitude -2, has
    the northing -100000. *)
Theorem central_meridian_and_true_origin :
  (forall lat : R, fst (LatLonToGridEastNorth lat (-2)) = 400000)
  /\ LatLonToGridEastNorth 49 (-2) = (400000, -100000).
Proof. split; [exact central_meridian_easting | exact true_origin]. Qed.


(** ** Interpolation of geoid heights *)

Local Open Scope Q_scope.

Section Rounding.

Local Open Scope Q_scope.

Lemma round_half_even_mono (x y : Q) :
  x <= y -> (Py.round_half_even x <= Py.round_half_even y)%Z.
Proof.
  intros H. pose proof (Qfloor_resp_le x y H) as F.
  pose proof (Qfloor_le x) as X1. pose proof (Qlt_floor x) as X2.
  pose proof (Qfloor_le y) as Y1. pose proof (Qlt_floor y) as Y2.
  rewrite inject_Z_plus in X2, Y2. change (inject_Z 1) with 1 in X2, Y2.
  unfold Py.round_half_even.
  destruct (Z.eq_dec (Qfloor x) (Qfloor y)) as [E | E].
  - rewrite <- E in *.
    destruct (Qcompare_spec (x - inject_Z (Qfloor x)) (1 # 2)) as [A | A | A];
      destruct (Qcompare_spec (y - inject_Z (Qfloor x)) (1 # 2)) as [B | B | B];
      try (destruct (Z.even (Qfloor x))); try lia; exfalso; Lqa.lra.
  - assert (Hlt : (Qfloor x + 1 <= Qfloor y)%Z) by lia.
    destruct (Qcompare (x - inject_Z (Qfloor x)) (1 # 2));
      destruct (Qcompare (y - inject_Z (Qfloor y)) (1 # 2));
      try (destruct (Z.even (Qfloor x))); try (destruct (Z.even (Qfloor y)));
      lia.
Qed.

Lemma round_mono (x y : Q) (n : nat) : x <= y -> Py.round x n <= Py.round y n.
Proof.
  intros H. unfold Py.round.
  pose proof (inject_Z_pow10_pos n) as P.
  set (s := inject_Z (10 ^ Z.of_nat n)) in *.
  assert (M : (Py.round_half_even (x * s) <= Py.round_half_even (y * s))%Z).
  { apply round_half_even_mono. apply Qmult_le_compat_r; Lqa.lra. }
  rewrite Zle_Qle in M.
  apply Qmult_le_compat_r; [exact M |].
  apply Qlt_le_weak, Qinv_lt_0_compat, P.
Qed.

Lemma round_comp (x y : Q) (n : nat) : x == y -> Py.round x n = Py.round y n.
Proof.
  intros H. unfold Py.round. do 2 f_equal.
  apply Z.le_antisymm; apply round_half_even_mono; rewrite H; apply Qle_refl.
Qed.

End Rounding.

Section Interpolation.

Local Open Scope Q_scope.

Lemma floor_quarter_le (x : Q) (n : Z) :
  inject_Z n * 0.25 <= x -> (n <= Qfloor (x / 0.25))%Z.
Proof.
  intros H. rewrite <- (Qfloor_Z n). apply Qfloor_resp_le.
  assert (E : x / 0.25 == x * 4) by field. rewrite E. Lqa.lra.
Qed.

Lemma floor_quarter_lt (x : Q) (n : Z) :
  x < inject_Z n * 0.25 -> (Qfloor (x / 0.25) < n)%Z.
Proof.
  intros H. pose proof (Qfloor_le (x / 0.25)) as F.
  set (f := Qfloor (x / 0.25)) in *.
  assert (E : x / 0.25 == x * 4) by field. rewrite E in F.
  rewrite Zlt_Qlt. Lqa.lra.
Qed.

Lemma GetHeight_value (heights : list (list Q)) (lat lon : Q) :
  let i := Qfloor (lat / 0.25) in
  let j := Qfloor (lon / 0.25) in
  GetHeight (mkEgm heights 0.25) lat lon
  = (q11 <- lookup heights i j ;;
     q12 <- lookup heights (i + 1) j ;;
     q21 <- lookup heights i (j + 1) ;;
     q22 <- lookup heights (i + 1) (j + 1) ;;
     Ok (Py.round (bilinear lat lon q11 q12 q21 q22) 2)).
Proof.
  intros i j. unfold GetHeight, lookup, qmod, qdiv.
  cbn [StepSize Egm96GridHeights].
  change (Qeq_bool 0.25 0) with false. cbn [Py.bind].
  rewrite !step_nonzero. cbn [Py.bind].
  rewrite !lower_index, !upper_index. fold i j.
  destruct (Py.index heights i) as [r1 | e1]; cbn [Py.bind]; [| reflexivity].
  destruct (Py.index r1 j) as [q11 | e]; cbn [Py.bind]; [| reflexivity].
  destruct (Py.index heights (i + 1)) as [r2 | e2]; cbn [Py.bind]; [| reflexivity].
  destruct (Py.index r2 j) as [q12 | e]; cbn [Py.bind]; [| reflexivity].
  destruct (Py.index r1 (j + 1)) as [q21 | e]; cbn [Py.bind]; [| reflexivity].
  destruct (Py.index r2 (j + 1)) as [q22 | e]; cbn [Py.bind]; [| reflexivity].
  reflexivity.
Qed.

Lemma fmod_quarter (x : Q) : 0 <= Py.fmod x 0.25 /\ Py.fmod x 0.25 < 0.25.
Proof.
  unfold Py.fmod.
  pose proof (Qfloor_le (x / 0.25)) as F1. pose proof (Qlt_floor (x / 0.25)) as F2.
  rewrite inject_Z_plus in F2. change (inject_Z 1) with 1 in F2.
  set (f := Qfloor (x / 0.25)) in *.
  assert (E : x / 0.25 == x * 4) by field. rewrite E in F1, F2.
  split; Lqa.lra.
Qed.

Lemma quarter_step (w : Q) : ~ w + 0.25 - w == 0.
Proof.
  intros H. assert (E : w + 0.25 - w == 0.25) by ring.
  rewrite E in H. discriminate H.
Qed.

(** The weights of the four nodes, in terms of the offsets from the lower
    grid lines. *)
Lemma bilinear_weights (lat lon q11 q12 q21 q22 : Q) :
  let a := 4 * Py.fmod lon 0.25 in
  let c := 4 * Py.fmod lat 0.25 in
  bilinear lat lon q11 q12 q21 q22
  == (1 - c) * ((1 - a) * q11 + a * q21) + c * ((1 - a) * q12 + a * q22).
Proof.
  unfold bilinear. cbv zeta.
  set (u := Py.fmod lon 0.25). set (v := Py.fmod lat 0.25).
  assert (Ea : (lon - u + 0.25 - lon) / (lon - u + 0.25 - (lon - u)) == 1 - 4 * u)
    by (field; apply quarter_step).
  assert (Eb : (lon - (lon - u)) / (lon - u + 0.25 - (lon - u)) == 4 * u)
    by (field; apply quarter_step).
  assert (Ec : (lat - v + 0.25 - lat) / (lat - v + 0.25 - (lat - v)) == 1 - 4 * v)
    by (field; apply quarter_step).
  assert (Ed : (lat - (lat - v)) / (lat - v + 0.25 - (lat - v)) == 4 * v)
    by (field; apply quarter_step).
  rewrite Ea, Eb, Ec, Ed. reflexivity.
Qed.

(** The weighted mean lies between any two bounds of the four nodes. *)
Lemma bilinear_between (lat lon q11 q12 q21 q22 lo hi : Q) :
  lo <= q11 <= hi -> lo <= q12 <= hi -> lo <= q21 <= hi -> lo <= q22 <= hi ->
  lo <= bilinear lat lon q11 q12 q21 q22 <= hi.
Proof.
  intros H11 H12 H21 H22. rewrite bilinear_weights. cbv zeta.
  destruct (fmod_quarter lon) as [U1 U2]. destruct (fmod_quarter lat) as [V1 V2].
  set (a := 4 * Py.fmod lon 0.25). set (c := 4 * Py.fmod lat 0.25).
  assert (Ha : 0 <= a <= 1) by (unfold a; split; Lqa.lra).
  assert (Hc : 0 <= c <= 1) by (unfold c; split; Lqa.lra).
  assert (X1 : lo <= (1 - a) * q11 + a * q21 <= hi) by (split; Lqa.nra).
  assert (X2 : lo <= (1 - a) * q12 + a * q22 <= hi) by (split; Lqa.nra).
  set (m1 := (1 - a) * q11 + a * q21) in *.
  set (m2 := (1 - a) * q12 + a * q22) in *.
  split; Lqa.nra.
Qed.

Lemma fmod_grid_line (i : Z) : Py.fmod (inject_Z i * 0.25) 0.25 == 0.
Proof.
  unfold Py.fmod.
  assert (Ei : Qfloor (inject_Z i * 0.25 / 0.25) = i).
  { rewrite <- (Qfloor_Z i) at 2. apply Qfloor_comp. field. }
  rewrite Ei. ring.
Qed.

Lemma bilinear_at_node (i j : Z) (q11 q12 q21 q22 : Q) :
  bilinear (inject_Z i * 0.25) (inject_Z j * 0.25) q11 q12 q21 q22 == q11.
Proof.
  rewrite bilinear_weights. cbv zeta. rewrite !fmod_grid_line. ring.
Qed.

Lemma lookup_In (heights : list (list Q)) (i j : Z) (q : Q) :
  lookup heights i j = Ok q -> exists row, In row heights /\ In q row.
Proof.
  unfold lookup. destruct (Py.index heights i) as [row | e] eqn:E; cbn [Py.bind].
  - intros H. exists row. split; [eapply index_In, E | eapply index_In, H].
  - discriminate.
Qed.

Lemma GetHeight_inside (heights : list (list Q)) (lat lon lo hi : Q) :
  rectangular (mkEgm heights 0.25) ->
  0 <= lat -> lat < inject_Z (grid_rows (mkEgm heights 0.25) - 1) * 0.25 ->
  0 <= lon -> lon < inject_Z (grid_cols (mkEgm heights 0.25) - 1) * 0.25 ->
  (forall row q, In row heights -> In q row -> lo <= q <= hi) ->
  exists h,
    GetHeight (mkEgm heights 0.25) lat lon = Ok h
    /\ Py.round lo 2 <= h <= Py.round hi 2.
Proof.
  intros Hrect A1 A2 B1 B2 Hb.
  rewrite GetHeight_value. cbv zeta.
  apply floor_quarter_lt in A2, B2.
  assert (A0 : (0 <= Qfloor (lat / 0.25))%Z).
  { apply (floor_quarter_le lat 0). change (inject_Z 0) with 0. Lqa.lra. }
  assert (B0 : (0 <= Qfloor (lon / 0.25))%Z).
  { apply (floor_quarter_le lon 0). change (inject_Z 0) with 0. Lqa.lra. }
  set (i := Qfloor (lat / 0.25)) in *. set (j := Qfloor (lon / 0.25)) in *.
  destruct (lookup_within heights i j Hrect) as [q11 E11]; [lia | lia |].
  destruct (lookup_within heights (i + 1) j Hrect) as [q12 E12]; [lia | lia |].
  destruct (lookup_within heights i (j + 1) Hrect) as [q21 E21]; [lia | lia |].
  destruct (lookup_within heights (i + 1) (j + 1) Hrect) as [q22 E22]; [lia | lia |].
  rewrite E11, E12, E21, E22. cbn [Py.bind].
  eexists. split; [reflexivity |].
  assert (P : forall i j q, lookup heights i j = Ok q -> lo <= q <= hi).
  { intros i' j' q E. destruct (lookup_In _ _ _ _ E) as (row & R1 & R2).
    now apply (Hb row). }
  pose proof (bilinear_between lat lon q11 q12 q21 q22 lo hi
                (P _ _ _ E11) (P _ _ _ E12) (P _ _ _ E21) (P _ _ _ E22)) as [L U].
  split; now apply round_mono.
Qed.

Lemma GetHeight_at_node (heights : list (list Q)) (i j : Z) :
  rectangular (mkEgm heights 0.25) ->
  (0 <= i < grid_rows (mkEgm heights 0.25) - 1)%Z ->
  (0 <= j < grid_cols (mkEgm heights 0.25) - 1)%Z ->
  exists q,
    lookup heights i j = Ok q
    /\ GetHeight (mkEgm heights 0.25) (inject_Z i * 0.25) (inject_Z j * 0.25)
       = Ok (Py.round q 2).
Proof.
  intros Hrect Hi Hj. rewrite GetHeight_value. cbv zeta.
  assert (Ei : Qfloor (inject_Z i * 0.25 / 0.25) = i).
  { rewrite <- (Qfloor_Z i) at 2. apply Qfloor_comp. field. }
  assert (Ej : Qfloor (inject_Z j * 0.25 / 0.25) = j).
  { rewrite <- (Qfloor_Z j) at 2. apply Qfloor_comp. field. }
  rewrite Ei, Ej.
  destruct (lookup_within heights i j Hrect) as [q11 E11]; [lia | lia |].
  destruct (lookup_within heights (i + 1) j Hrect) as [q12 E12]; [lia | lia |].
  destruct (lookup_within heights i (j + 1) Hrect) as [q21 E21]; [lia | lia |].
  destruct (lookup_within heights (i + 1) (j + 1) Hrect) as [q22 E22]; [lia | lia |].
  rewrite E11, E12, E21, E22. cbn [Py.bind].
  exists q11. split; [reflexivity |]. f_equal.
  apply round_comp, bilinear_at_node.
Qed.

Lemma GetHeight_on_last_line (heights : list (list Q)) (lat lon : Q) :
  rectangular (mkEgm heights 0.25) ->
  inject_Z (grid_rows (mkEgm heights 0.25) - 1) * 0.25 <= lat
  \/ inject_Z (grid_cols (mkEgm heights 0.25) - 1) * 0.25 <= lon ->
  GetHeight (mkEgm heights 0.25) lat lon = Raise IndexError.
Proof.
  intros Hrect Hout.
  rewrite GetHeight_value. cbv zeta.
  apply bind_IndexError; [apply lookup_raises | intros q11].
  destruct Hout as [Hlat | Hlon].
  - rewrite lookup_beyond_rows; [reflexivity |].
    apply floor_quarter_le in Hlat. unfold grid_rows in Hlat.
    cbn [Egm96GridHeights] in Hlat. lia.
  - apply bind_IndexError; [apply lookup_raises | intros q12].
    rewrite lookup_beyond_cols; [reflexivity | exact Hrect |].
    apply floor_quarter_le in Hlon. lia.
Qed.

Lemma GetHeight_only_IndexError (heights : list (list Q)) (lat lon : Q) (e : exn) :
  GetHeight (mkEgm heights 0.25) lat lon = Raise e -> e = IndexError.
Proof.
  rewrite GetHeight_value. cbv zeta.
  set (i := Qfloor (lat / 0.25)). set (j := Qfloor (lon / 0.25)).
  destruct (lookup heights i j) as [q11 | e1] eqn:E1; cbn [Py.bind];
    [| intros H; assert (e = e1) by congruence; subst e; apply (lookup_raises _ _ _ _ E1)].
  destruct (lookup heights (i + 1) j) as [q12 | e2] eqn:E2; cbn [Py.bind];
    [| intros H; assert (e = e2) by congruence; subst e; apply (lookup_raises _ _ _ _ E2)].
  destruct (lookup heights i (j + 1)) as [q21 | e3] eqn:E3; cbn [Py.bind];
    [| intros H; assert (e = e3) by congruence; subst e; apply (lookup_raises _ _ _ _ E3)].
  destruct (lookup heights (i + 1) (j + 1)) as [q22 | e4] eqn:E4; cbn [Py.bind];
    [| intros H; assert (e = e4) by congruence; subst e; apply (lookup_raises _ _ _ _ E4)].
  discriminate.
Qed.

End Interpolation.



(** X15: on a node of the grid that is not on the last row or column,
    [GetHeight] returns the value of the table at that node, rounded to two
    decimals: the interpolation gives the other three nodes no weight. *)
Theorem GetHeight_at_grid_node :
  forall (heights : list (list Q)) (i j : Z),
    rectangular (mkEgm heights 0.25) ->
    (0 <= i < grid_rows (mkEgm heights 0.25) - 1)%Z ->
    (0 <= j < grid_cols (mkEgm heights 0.25) - 1)%Z ->
    exists q,
      lookup heights i j = Ok q
      /\ GetHeight (mkEgm heights 0.25) (inject_Z i * 0.25) (inject_Z j * 0.25)
         = Ok (Py.round q 2).
Proof.
  intros heights i j H1 H2 H3. exact (GetHeight_at_node heights i j H1 H2 H3).
Qed.

Lemma GetHeight_at_grid_node_witness :
  rectangular small_table
  /\ (0 <= 1 < grid_rows small_table - 1)%Z
  /\ (0 <= 0 < grid_cols small_table - 1)%Z
  /\ exists q,
       lookup (Egm96GridHeights small_table) 1 0 = Ok q
       /\ GetHeight small_table (inject_Z 1 * 0.25) (inject_Z 0 * 0.25)
          = Ok (Py.round q 2).
Proof.
  assert (H1 : rectangular small_table).
  { unfold rectangular, small_table. cbn. repeat constructor. }
  assert (H2 : (0 <= 1 < grid_rows small_table - 1)%Z) by (cbn; lia).
  assert (H3 : (0 <= 0 < grid_cols small_table - 1)%Z) by (cbn; lia).
  split; [exact H1 | split; [exact H2 | split; [exact H3 |]]].
  exact (GetHeight_at_grid_node (Egm96GridHeights small_table) 1 0 H1 H2 H3).
Defined.

(** X16: the last grid line cannot be queried: for a table whose rows all
    have the same length, a query inside the covered range whose latitude
    or longitude is that of the last row or column raises IndexError,
    because the node after it is read as well. *)
Theorem GetHeight_last_grid_line :
  forall (heights : list (list Q)) (lat lon : Q),
    rectangular (mkEgm heights 0.25) ->
    covered (mkEgm heights 0.25) lat lon ->
    (lat == inject_Z (grid_rows (mkEgm heights 0.25) - 1) * 0.25
     \/ lon == inject_Z (grid_cols (mkEgm heights 0.25) - 1) * 0.25)%Q ->
    GetHeight (mkEgm heights 0.25) lat lon = Raise IndexError.
Proof.
  intros heights lat lon Hrect _ Hedge.
  apply GetHeight_on_last_line; [exact Hrect |].
  destruct Hedge as [E | E]; [left | right]; rewrite E; apply Qle_refl.
Qed.

Lemma GetHeight_last_grid_line_witness :
  rectangular small_table
  /\ covered small_table 0.5 0.25
  /\ (0.5 == inject_Z (grid_rows small_table - 1) * 0.25
      \/ 0.25 == inject_Z (grid_cols small_table - 1) * 0.25)%Q
  /\ GetHeight small_table 0.5 0.25 = Raise IndexError.
Proof.
  assert (H1 : rectangular small_table).
  { unfold rectangular, small_table. cbn. repeat constructor. }
  assert (H2 : covered small_table 0.5 0.25).
  { unfold covered. repeat split; vm_compute; discriminate. }
  assert (H3 : (0.5 == inject_Z (grid_rows small_table - 1) * 0.25
                \/ 0.25 == inject_Z (grid_cols small_table - 1) * 0.25)%Q).
  { left. reflexivity. }
  split; [exact H1 | split; [exact H2 | split; [exact H3 |]]].
  exact (GetHeight_last_grid_line (Egm96GridHeights small_table) 0.5 0.25
           H1 H2 H3).
Defined.

(** X17: with the step of 0.25 degrees, for a latitude and a longitude in
    the range of decimal degrees (-90 to 180 and -180 to 360), the only
    exception that [GetHeight] raises is IndexError, whatever the table: its
    rows may even differ in length. *)
Theorem GetHeight_raises_only_IndexError :
  forall (heights : list (list Q)) (lat lon : Q) (e : exn),
    in_valid_range Lat lat -> in_valid_range Lon lon ->
    GetHeight (mkEgm heights 0.25) lat lon = Raise e -> e = IndexError.
Proof.
  intros heights lat lon e _ _. apply GetHeight_only_IndexError.
Qed.

Lemma GetHeight_raises_only_IndexError_witness :
  in_valid_range Lat 0.1 /\ in_valid_range Lon 0.1
  /\ GetHeight (mkEgm [[1; 2]; [3]] 0.25) 0.1 0.1 = Raise IndexError
  /\ IndexError = IndexError.
Proof.
  assert (A : in_valid_range Lat 0.1) by (split; vm_compute; discriminate).
  assert (B : in_valid_range Lon 0.1) by (split; vm_compute; discriminate).
  assert (H : GetHeight (mkEgm [[1; 2]; [3]] 0.25) 0.1 0.1 = Raise IndexError)
    by (vm_compute; reflexivity).
  split; [exact A | split; [exact B | split; [exact H |]]].
  exact (GetHeight_raises_only_IndexError [[1; 2]; [3]] 0.1 0.1 IndexError
           A B H).
Defined.

(** ** Fields of degrees, minutes and seconds *)

Section DmsFields.

Local Open Scope Q_scope.

Lemma float_raises (s : string) (e : exn) : Py.float s = Raise e -> e = ValueError.
Proof.
  unfold Py.float.
  destruct (match s with EmptyString => None | String c s' => _ end);
    congruence.
Qed.

Lemma DmsToDd_short (dms_str : string) :
  (List.length (Py.split " " dms_str) < 4)%nat ->
  DmsToDd dms_str = Raise ValueError \/ DmsToDd dms_str = Raise IndexError.
Proof.
  intros H. unfold DmsToDd. cbv zeta.
  set (parts := Py.split " " dms_str) in *.
  assert (H3 : Py.index parts 3 = Raise IndexError)
    by (apply index_beyond; lia).
  destruct (Py.index parts 0) as [p0 | e] eqn:E0; cbn [Py.bind];
    [| right; f_equal; eapply index_raises, E0].
  destruct (Py.float p0) as [deg | e] eqn:F0; cbn [Py.bind];
    [| left; f_equal; eapply float_raises, F0].
  destruct (Py.index parts 1) as [p1 | e] eqn:E1; cbn [Py.bind];
    [| right; f_equal; eapply index_raises, E1].
  destruct (Py.float p1) as [m | e] eqn:F1; cbn [Py.bind];
    [| left; f_equal; eapply float_raises, F1].
  destruct (Py.index parts 2) as [p2 | e] eqn:E2; cbn [Py.bind];
    [| right; f_equal; eapply index_raises, E2].
  destruct (Py.float p2) as [sv | e] eqn:F2; cbn [Py.bind];
    [| left; f_equal; eapply float_raises, F2].
  rewrite H3. now right.
Qed.

(** Fewer than four fields that [float] reads: the lookup of the first
    field that is missing fails. *)
Lemma DmsToDd_short_of_numbers (dms_str : string) :
  (List.length (Py.split " " dms_str) < 4)%nat ->
  Forall (fun w => exists q, Py.float w = Ok q) (Py.split " " dms_str) ->
  DmsToDd dms_str = Raise IndexError.
Proof.
  intros H F. unfold DmsToDd. cbv zeta.
  set (parts := Py.split " " dms_str) in *.
  rewrite Forall_forall in F.
  assert (H3 : Py.index parts 3 = Raise IndexError)
    by (apply index_beyond; lia).
  destruct (Py.index parts 0) as [p0 | e] eqn:E0; cbn [Py.bind];
    [| f_equal; eapply index_raises, E0].
  destruct (F p0 (index_In _ _ _ E0)) as [deg ->]. cbn [Py.bind].
  destruct (Py.index parts 1) as [p1 | e] eqn:E1; cbn [Py.bind];
    [| f_equal; eapply index_raises, E1].
  destruct (F p1 (index_In _ _ _ E1)) as [m ->]. cbn [Py.bind].
  destruct (Py.index parts 2) as [p2 | e] eqn:E2; cbn [Py.bind];
    [| f_equal; eapply index_raises, E2].
  destruct (F p2 (index_In _ _ _ E2)) as [sv ->]. cbn [Py.bind].
  now rewrite H3.
Qed.

(** The value of a string of four fields. *)
Lemma DmsToDd_four_fields (d m s h : string) (dv mv sv : Q) :
  Py.all_chars not_space d = true -> Py.all_chars not_space m = true ->
  Py.all_chars not_space s = true -> Py.all_chars not_space h = true ->
  Py.float d = Ok dv -> Py.float m = Ok mv -> Py.float s = Ok sv ->
  DmsToDd (d ++ " " ++ m ++ " " ++ s ++ " " ++ h)
  = Ok (if (String.eqb h "S" || String.eqb h "W")%bool
        then (dv + mv / 60 + sv / 3600) * -1
        else dv + mv / 60 + sv / 3600).
Proof.
  intros Hd Hm Hs Hh Fd Fm Fs. unfold DmsToDd.
  change ((d ++ " " ++ m ++ " " ++ s ++ " " ++ h)%string)
    with ((d ++ String " " (m ++ String " " (s ++ String " " h)))%string).
  rewrite !split_plain_space, split_plain by assumption.
  destruct (index_of_four d m s h) as (-> & -> & -> & ->).
  cbn [Py.bind]. rewrite Fd, Fm, Fs. reflexivity.
Qed.

Lemma string_app_assoc (s t u : string) :
  ((s ++ t) ++ u = s ++ (t ++ u))%string.
Proof. induction s as [| c s IH]; [reflexivity | cbn; now rewrite IH]. Qed.

Lemma Qabs_opp_eq (x : Q) : Qabs (- x) = Qabs x.
Proof. destruct x as [n d]. unfold Qabs, Qopp. cbn. now rewrite Z.abs_opp. Qed.

Lemma DdToDms_letter (dd : Q) (axis : ELatLon) :
  DdToDms dd (Member axis)
  = Ok (dms_body dd (match axis with Lat => 2 | Lon => 3 end)
        ++ match axis with
           | Lat => if Qlt_le_dec dd 0 then "S" else "N"
           | Lon => if Qlt_le_dec dd 0 then "W" else "E"
           end)%string.
Proof.
  unfold DdToDms, dms_body. cbv zeta.
  destruct axis; cbn [Py.read_local Py.bind]; f_equal;
    rewrite !string_app_assoc; reflexivity.
Qed.

Lemma DdToDms_mirror (dd : Q) :
  0 < dd ->
  DdToDms dd (Member Lat) = Ok (dms_body dd 2 ++ "N")%string
  /\ DdToDms (- dd) (Member Lat) = Ok (dms_body dd 2 ++ "S")%string
  /\ DdToDms dd (Member Lon) = Ok (dms_body dd 3 ++ "E")%string
  /\ DdToDms (- dd) (Member Lon) = Ok (dms_body dd 3 ++ "W")%string.
Proof.
  intros H. rewrite !DdToDms_letter.
  assert (B : forall w, dms_body (- dd) w = dms_body dd w).
  { intros w. unfold dms_body. now rewrite Qabs_opp_eq. }
  rewrite !B.
  destruct (Qlt_le_dec dd 0) as [H1 | H1]; [exfalso; Lqa.lra |].
  destruct (Qlt_le_dec (- dd) 0) as [H2 | H2]; [| exfalso; Lqa.lra].
  repeat split.
Qed.

Lemma Qfloor_unique (y : Q) (n : Z) :
  inject_Z n <= y -> y < inject_Z n + 1 -> Qfloor y = n.
Proof.
  intros H1 H2. apply Z.le_antisymm.
  - pose proof (Qfloor_le y) as F.
    assert (L : inject_Z (Qfloor y) < inject_Z (n + 1)).
    { rewrite inject_Z_plus. change (inject_Z 1) with 1. Lqa.lra. }
    rewrite <- Zlt_Qlt in L. lia.
  - rewrite <- (Qfloor_Z n). now apply Qfloor_resp_le.
Qed.

Lemma round_half_even_up (y : Q) (n : Z) :
  inject_Z n + (1 # 2) < y -> y < inject_Z n + 1 ->
  Py.round_half_even y = (n + 1)%Z.
Proof.
  intros H1 H2. unfold Py.round_half_even.
  rewrite (Qfloor_unique y n) by Lqa.lra.
  destruct (Qcompare_spec (y - inject_Z n) (1 # 2)) as [E | L | G];
    [exfalso; Lqa.lra | exfalso; Lqa.lra | reflexivity].
Qed.

(** Just below a whole degree the seconds are rounded up to 60 while the
    minutes stay at 59. *)
Lemma DdToDms_sixty_seconds (n : Z) (dd : Q) :
  (0 <= n)%Z ->
  inject_Z n + 1 - (1 # 72000000) < dd -> dd < inject_Z n + 1 ->
  DdToDms dd (Member Lat)
  = Ok (Py.rjust (Py.str_int n) 2 "0" ++ " 59 60.0 N")%string.
Proof.
  intros Hn H1 H2. rewrite DdToDms_letter.
  assert (Hn' : 0 <= inject_Z n).
  { change 0 with (inject_Z 0). now rewrite <- Zle_Qle. }
  destruct (Qlt_le_dec dd 0) as [Hneg | _]; [exfalso; Lqa.lra |].
  unfold dms_body. cbv zeta.
  assert (Ea : Qabs dd == dd) by (apply Qabs_pos; Lqa.lra).
  set (A := Qabs dd) in *.
  assert (Edeg : Py.int A = n).
  { rewrite int_nonneg by (rewrite Ea; Lqa.lra).
    apply Qfloor_unique; rewrite Ea; Lqa.lra. }
  rewrite Edeg.
  assert (Emin : Py.int ((A - inject_Z n) * 60) = 59%Z).
  { rewrite int_nonneg by (rewrite Ea; Lqa.lra).
    apply Qfloor_unique; rewrite Ea; change (inject_Z 59) with 59; Lqa.lra. }
  rewrite Emin.
  set (sec := (A - inject_Z n - inject_Z 59 / 60) * 3600).
  assert (Esec : sec == (dd - inject_Z n) * 3600 - 3540).
  { unfold sec. rewrite Ea. change (inject_Z 59) with 59. field. }
  assert (Er : Py.round sec 4 = inject_Z 600000 / inject_Z (10 ^ Z.of_nat 4)).
  { unfold Py.round. do 2 f_equal.
    apply (round_half_even_up _ 599999);
      change (inject_Z (10 ^ Z.of_nat 4)) with 10000;
      change (inject_Z 599999) with 599999; rewrite Esec; Lqa.lra. }
  rewrite Er.
  change (Py.str_float (inject_Z 600000 / inject_Z (10 ^ Z.of_nat 4)))
    with "60.0"%string.
  change (Py.str_int 59) with "59"%string.
  rewrite !string_app_assoc. reflexivity.
Qed.

Lemma digit_val_range (c : ascii) (d : Z) :
  Py.digit_val c = Some d -> (0 <= d <= 9)%Z.
Proof.
  unfold Py.digit_val.
  destruct (Z.leb_spec 48 (Z.of_N (N_of_ascii c))) as [L1 | L1];
    destruct (Z.leb_spec (Z.of_N (N_of_ascii c)) 57) as [L2 | L2]; cbn [andb];
    intros H; try discriminate H.
  assert (d = (Z.of_N (N_of_ascii c) - 48)%Z) by congruence. lia.
Qed.

Lemma read_digits_nonneg (s : string) :
  forall acc v, (0 <= acc)%Z -> Py.read_digits s acc = Some v -> (0 <= v)%Z.
Proof.
  induction s as [| c s IH]; intros acc v Hacc H; cbn in H.
  - assert (v = acc) by congruence. lia.
  - destruct (Py.digit_val c) as [d |] eqn:Ed; [| discriminate].
    apply digit_val_range in Ed. apply (IH (10 * acc + d)%Z); [lia | exact H].
Qed.

Lemma read_unsigned_nonneg (s : string) (q : Q) :
  Py.read_unsigned s = Some q -> 0 <= q.
Proof.
  unfold Py.read_unsigned. destruct (Py.cut_point s) as [i f].
  destruct i as [| c i]; [discriminate |].
  destruct (Py.read_digits (String c i) 0) as [iv |] eqn:Ei; [| discriminate].
  apply read_digits_nonneg in Ei; [| lia].
  assert (Hi : 0 <= inject_Z iv).
  { change 0 with (inject_Z 0). now rewrite <- Zle_Qle. }
  destruct f as [fs |].
  - destruct (Py.read_digits fs 0) as [fv |] eqn:Ef; [| discriminate].
    apply read_digits_nonneg in Ef; [| lia].
    intros H'. assert (E : q = inject_Z iv
                      + inject_Z fv / inject_Z (10 ^ Z.of_nat (String.length fs)))
      by congruence.
    rewrite E.
    assert (Hf : 0 <= inject_Z fv).
    { change 0 with (inject_Z 0). now rewrite <- Zle_Qle. }
    pose proof (inject_Z_pow10_pos (String.length fs)) as P.
    assert (Hq : 0 <= inject_Z fv / inject_Z (10 ^ Z.of_nat (String.length fs))).
    { apply Qle_shift_div_l; [exact P |]. Lqa.lra. }
    Lqa.lra.
  - intros H'. assert (E : q = inject_Z iv) by congruence. now rewrite E.
Qed.

(** A numeral that [str_float] writes for a number that is not negative
    reads back as a number that is not negative. *)
Lemma float_str_float_nonneg (q q' : Q) :
  0 <= q -> Py.float (Py.str_float q) = Ok q' -> 0 <= q'.
Proof.
  intros Hq. unfold Py.str_float.
  destruct (Qlt_le_dec q 0) as [Hneg | _]; [exfalso; Lqa.lra |].
  cbv zeta. set (ip := Qfloor (Qabs q)).
  assert (Hip : (0 <= ip)%Z) by (apply Qfloor_nonneg, Qabs_nonneg).
  pose proof (digits_all_digits ip Hip) as Hd.
  pose proof (digits_fuel_nonempty (Z.to_nat (Z.log2 ip)) ip EmptyString) as Hne.
  fold (Py.digits ip) in Hne.
  destruct (Py.digits ip) as [| c t]; [now elim Hne |].
  cbn in Hd. apply andb_prop in Hd as [Hc _].
  cbn [append]. rewrite (float_unsigned c _ Hc).
  destruct (Py.read_unsigned _) as [r |] eqn:Er; [| discriminate].
  intros H. assert (r = q') by congruence. subst r.
  eapply read_unsigned_nonneg, Er.
Qed.

(** What [DdToDms] writes: four fields, the minutes between 0 and 59 and the
    seconds between 0 and 60. *)
Lemma DdToDms_shape (dd : Q) (axis : ELatLon) :
  exists (d m s h : string) (dv mv : Z) (sv : Q),
    DdToDms dd (Member axis) = Ok (d ++ " " ++ m ++ " " ++ s ++ " " ++ h)%string
    /\ Py.split " " (d ++ " " ++ m ++ " " ++ s ++ " " ++ h) = [d; m; s; h]
    /\ Py.float d = Ok (inject_Z dv) /\ (0 <= dv)%Z
    /\ Py.float m = Ok (inject_Z mv) /\ (0 <= mv <= 59)%Z
    /\ Py.float s = Ok sv /\ 0 <= sv <= 60
    /\ h = match axis with
           | Lat => if Qlt_le_dec dd 0 then "S" else "N"
           | Lon => if Qlt_le_dec dd 0 then "W" else "E"
           end%string.
Proof.
  rewrite DdToDms_letter. unfold dms_body. cbv zeta.
  pose proof (Qabs_nonneg dd) as HA.
  set (A := Qabs dd) in *.
  rewrite (int_nonneg A HA).
  set (deg := Qfloor A).
  pose proof (Qfloor_le A) as Dlo. pose proof (Qlt_floor A) as Dhi.
  fold deg in Dlo, Dhi. rewrite inject_Z_plus in Dhi.
  change (inject_Z 1) with 1 in Dhi.
  assert (Hdeg : (0 <= deg)%Z) by (now apply Qfloor_nonneg).
  assert (HM : 0 <= (A - inject_Z deg) * 60) by Lqa.lra.
  rewrite (int_nonneg _ HM).
  set (min := Qfloor ((A - inject_Z deg) * 60)).
  pose proof (Qfloor_le ((A - inject_Z deg) * 60)) as Mlo. fold min in Mlo.
  pose proof (Qlt_floor ((A - inject_Z deg) * 60)) as Mhi. fold min in Mhi.
  rewrite inject_Z_plus in Mhi. change (inject_Z 1) with 1 in Mhi.
  assert (Hmin : (0 <= min)%Z) by (now apply Qfloor_nonneg).
  assert (Hmin' : (min <= 59)%Z).
  { assert (L : inject_Z min < inject_Z 60)
      by (change (inject_Z 60) with 60; Lqa.lra).
    rewrite <- Zlt_Qlt in L. lia. }
  set (sec := (A - inject_Z deg - inject_Z min / 60) * 3600).
  assert (Esec : sec == (A - inject_Z deg) * 3600 - inject_Z min * 60)
    by (unfold sec; field).
  assert (Hsec : 0 <= sec) by (rewrite Esec; Lqa.lra).
  assert (Hsec' : sec <= 60) by (rewrite Esec; Lqa.lra).
  pose proof (round_nonneg sec Hsec) as Rpos.
  assert (Rle : Py.round sec 4 <= 60).
  { assert (E60 : 60 == Py.round 60 4) by reflexivity.
    rewrite E60. now apply round_mono. }
  destruct (float_str_float (Py.round sec 4) Rpos) as (q' & Fs & Qlo & Qhi & Hs).
  rewrite !str_int_nonneg by assumption.
  set (w := match axis with Lat => 2%nat | Lon => 3%nat end).
  set (h := match axis with
            | Lat => if Qlt_le_dec dd 0 then "S" else "N"
            | Lon => if Qlt_le_dec dd 0 then "W" else "E"
            end%string).
  assert (Hh : Py.all_chars not_space h = true).
  { unfold h. destruct axis; destruct (Qlt_le_dec dd 0); reflexivity. }
  assert (Hd : Py.all_chars not_space (Py.rjust (Py.digits deg) w "0") = true).
  { apply digits_not_space, rjust_zero_all_digits, digits_all_digits.
    exact Hdeg. }
  assert (Hm : Py.all_chars not_space (Py.digits min) = true).
  { apply digits_not_space, digits_all_digits. exact Hmin. }
  exists (Py.rjust (Py.digits deg) w "0"), (Py.digits min),
    (Py.str_float (Py.round sec 4)), h, deg, min, q'.
  split; [rewrite !string_app_assoc; reflexivity |].
  split.
  { change ((Py.rjust (Py.digits deg) w "0" ++ " " ++ Py.digits min ++ " "
             ++ Py.str_float (Py.round sec 4) ++ " " ++ h)%string)
      with ((Py.rjust (Py.digits deg) w "0"
             ++ String " " (Py.digits min
             ++ String " " (Py.str_float (Py.round sec 4) ++ String " " h)))%string).
    now rewrite !split_plain_space, split_plain. }
  split.
  { apply float_digit_string.
    - apply rjust_nonempty, digits_fuel_nonempty.
    - apply rjust_zero_all_digits, digits_all_digits. exact Hdeg.
    - rewrite rjust_zero_value. now apply digits_value. }
  split; [exact Hdeg |].
  split.
  { apply float_digit_string.
    - apply digits_fuel_nonempty.
    - now apply digits_all_digits.
    - now apply digits_value. }
  split; [lia |].
  split; [exact Fs |].
  pose proof (float_str_float_nonneg _ _ Rpos Fs) as Qpos.
  split; [split; Lqa.lra | reflexivity].
Qed.

End DmsFields.

(** X18: [DmsToDd] on a string with fewer than four fields between spaces,
    each of which [float] reads as a number, raises IndexError: the missing
    field is looked up once the fields before it are read. *)
Theorem DmsToDd_too_few_fields :
  forall dms_str : string,
    (List.length (Py.split " " dms_str) < 4)%nat ->
    Forall (fun w => exists q, Py.float w = Ok q) (Py.split " " dms_str) ->
    DmsToDd dms_str = Raise IndexError.
Proof. exact DmsToDd_short_of_numbers. Qed.

Lemma DmsToDd_too_few_fields_witness :
  (List.length (Py.split " " "51 30 0.0") < 4)%nat
  /\ Forall (fun w => exists q, Py.float w = Ok q) (Py.split " " "51 30 0.0")
  /\ DmsToDd "51 30 0.0" = Raise IndexError.
Proof.
  assert (H : (List.length (Py.split " " "51 30 0.0") < 4)%nat) by (cbn; lia).
  assert (F : Forall (fun w => exists q, Py.float w = Ok q)
                (Py.split " " "51 30 0.0")).
  { repeat constructor; eexists; vm_compute; reflexivity. }
  split; [exact H | split; [exact F |]].
  exact (DmsToDd_too_few_fields "51 30 0.0" H F).
Defined.

(** X19: on four fields without spaces whose first three are numbers [dv],
    [mv] and [sv], [DmsToDd] returns [dv + mv / 60 + sv / 3600], negated
    when the fourth field is exactly "S" or "W"; any other fourth field,
    "N", "E", "s" or anything else, leaves the value as it is. *)
Theorem DmsToDd_reads_four_fields :
  forall (d m s h : string) (dv mv sv : Q),
    Py.all_chars not_space d = true -> Py.all_chars not_space m = true ->
    Py.all_chars not_space s = true -> Py.all_chars not_space h = true ->
    Py.float d = Ok dv -> Py.float m = Ok mv -> Py.float s = Ok sv ->
    DmsToDd (d ++ " " ++ m ++ " " ++ s ++ " " ++ h)
    = Ok (if (String.eqb h "S" || String.eqb h "W")%bool
          then ((dv + mv / 60 + sv / 3600) * -1)%Q
          else (dv + mv / 60 + sv / 3600)%Q).
Proof.
  intros d m s h dv mv sv H1 H2 H3 H4 H5 H6 H7.
  exact (DmsToDd_four_fields d m s h dv mv sv H1 H2 H3 H4 H5 H6 H7).
Qed.

Lemma DmsToDd_reads_four_fields_witness :
  Py.all_chars not_space "51" = true /\ Py.all_chars not_space "30" = true
  /\ Py.all_chars not_space "36" = true /\ Py.all_chars not_space "s" = true
  /\ Py.float "51" = Ok 51%Q /\ Py.float "30" = Ok 30%Q
  /\ Py.float "36" = Ok 36%Q
  /\ DmsToDd ("51" ++ " " ++ "30" ++ " " ++ "36" ++ " " ++ "s")
     = Ok (if (String.eqb "s" "S" || String.eqb "s" "W")%bool
           then ((51 + 30 / 60 + 36 / 3600) * -1)%Q
           else (51 + 30 / 60 + 36 / 3600)%Q).
Proof.
  repeat (split; [reflexivity |]).
  exact (DmsToDd_reads_four_fields "51" "30" "36" "s" 51 30 36
           eq_refl eq_refl eq_refl eq_refl eq_refl eq_refl eq_refl).
Defined.

(** X20: for a positive angle, [DdToDms] writes the same text for the angle
    and for its opposite, but for the last letter: N and S for a latitude,
    E and W for a longitude. *)
Theorem DdToDms_opposite_angle :
  forall dd : Q,
    (0 < dd)%Q ->
    exists lat_text lon_text : string,
      DdToDms dd (Member Lat) = Ok (lat_text ++ "N")%string
      /\ DdToDms (- dd) (Member Lat) = Ok (lat_text ++ "S")%string
      /\ DdToDms dd (Member Lon) = Ok (lon_text ++ "E")%string
      /\ DdToDms (- dd) (Member Lon) = Ok (lon_text ++ "W")%string.
Proof.
  intros dd H. exists (dms_body dd 2), (dms_body dd 3).
  exact (DdToDms_mirror dd H).
Qed.

Lemma DdToDms_opposite_angle_witness :
  (0 < 1.71792)%Q
  /\ exists lat_text lon_text : string,
       DdToDms 1.71792 (Member Lat) = Ok (lat_text ++ "N")%string
       /\ DdToDms (- 1.71792) (Member Lat) = Ok (lat_text ++ "S")%string
       /\ DdToDms 1.71792 (Member Lon) = Ok (lon_text ++ "E")%string
       /\ DdToDms (- 1.71792) (Member Lon) = Ok (lon_text ++ "W")%string.
Proof.
  assert (H : (0 < 1.71792)%Q) by reflexivity.
  split; [exact H |].
  exact (DdToDms_opposite_angle 1.71792 H).
Defined.

(** X21: [DdToDms] rounds the seconds after it has fixed the minutes, and
    does not carry: for a latitude less than 1/72000000 of a degree below a
    whole number of degrees [n + 1], it writes [n] degrees, 59 minutes and
    60.0 seconds. *)
Theorem DdToDms_writes_sixty_seconds :
  forall (n : Z) (dd : Q),
    (0 <= n)%Z ->
    (inject_Z n + 1 - (1 # 72000000) < dd)%Q -> (dd < inject_Z n + 1)%Q ->
    DdToDms dd (Member Lat)
    = Ok (Py.rjust (Py.str_int n) 2 "0" ++ " 59 60.0 N")%string.
Proof.
  intros n dd H1 H2 H3. exact (DdToDms_sixty_seconds n dd H1 H2 H3).
Qed.

Lemma DdToDms_writes_sixty_seconds_witness :
  (0 <= 51)%Z
  /\ (inject_Z 51 + 1 - (1 # 72000000) < 51.999999999)%Q
  /\ (51.999999999 < inject_Z 51 + 1)%Q
  /\ DdToDms 51.999999999 (Member Lat)
     = Ok (Py.rjust (Py.str_int 51) 2 "0" ++ " 59 60.0 N")%string.
Proof.
  assert (H1 : (0 <= 51)%Z) by lia.
  assert (H2 : (inject_Z 51 + 1 - (1 # 72000000) < 51.999999999)%Q)
    by reflexivity.
  assert (H3 : (51.999999999 < inject_Z 51 + 1)%Q) by reflexivity.
  split; [exact H1 | split; [exact H2 | split; [exact H3 |]]].
  exact (DdToDms_writes_sixty_seconds 51 51.999999999 H1 H2 H3).
Defined.

(** X22: for every angle and both axes, [DdToDms] writes four fields
    separated by single spaces: the whole degrees, the whole minutes, from 0
    to 59, the seconds, a number from 0 to 60, and the hemisphere letter,
    S or W for a negative angle, N or E otherwise. *)
Theorem DdToDms_fields :
  forall (dd : Q) (axis : ELatLon),
    exists (d m s h : string) (dv mv : Z) (sv : Q),
      DdToDms dd (Member axis) = Ok (d ++ " " ++ m ++ " " ++ s ++ " " ++ h)%string
      /\ Py.split " " (d ++ " " ++ m ++ " " ++ s ++ " " ++ h) = [d; m; s; h]
      /\ Py.float d = Ok (inject_Z dv) /\ (0 <= dv)%Z
      /\ Py.float m = Ok (inject_Z mv) /\ (0 <= mv <= 59)%Z
      /\ Py.float s = Ok sv /\ (0 <= sv <= 60)%Q
      /\ h = match axis with
             | Lat => if Qlt_le_dec dd 0 then "S" else "N"
             | Lon => if Qlt_le_dec dd 0 then "W" else "E"
             end%string.
Proof. exact DdToDms_shape. Qed.

(** ** Grid references *)

Section GridReferences.

Local Open Scope Q_scope.

Lemma floor_div_whole (x : Q) (m : Z) :
  (0 < m)%Z -> Qfloor (x / inject_Z m) = (Qfloor x / m)%Z.
Proof.
  intros Hm.
  pose proof (Qfloor_le x) as F1. pose proof (Qlt_floor x) as F2.
  rewrite inject_Z_plus in F2. change (inject_Z 1) with 1 in F2.
  set (f := Qfloor x) in *.
  pose proof (Z.div_mod f m) as D. pose proof (Z.mod_pos_bound f m Hm) as B.
  set (k := (f / m)%Z) in *. set (r := (f mod m)%Z) in *.
  assert (Hm' : 0 < inject_Z m).
  { change 0 with (inject_Z 0). now rewrite <- Zlt_Qlt. }
  assert (Ef : inject_Z f == inject_Z m * inject_Z k + inject_Z r).
  { rewrite <- inject_Z_mult, <- inject_Z_plus. rewrite <- D by lia. reflexivity. }
  assert (Hr : 0 <= inject_Z r /\ inject_Z r + 1 <= inject_Z m).
  { split.
    - change 0 with (inject_Z 0). rewrite <- Zle_Qle. lia.
    - change 1 with (inject_Z 1). rewrite <- inject_Z_plus, <- Zle_Qle. lia. }
  apply Qfloor_unique.
  - apply Qle_shift_div_l; [exact Hm' |]. Lqa.nra.
  - apply Qlt_shift_div_r; [exact Hm' |]. Lqa.nra.
Qed.

Lemma floor_fmod_whole (x : Q) (m : Z) :
  (0 < m)%Z -> Qfloor (Py.fmod x (inject_Z m) / 1) = (Qfloor x mod m)%Z.
Proof.
  intros Hm. unfold Py.fmod. rewrite (floor_div_whole x m Hm).
  pose proof (Qfloor_le x) as F1. pose proof (Qlt_floor x) as F2.
  rewrite inject_Z_plus in F2. change (inject_Z 1) with 1 in F2.
  set (f := Qfloor x) in *.
  pose proof (Z.div_mod f m) as D.
  set (k := (f / m)%Z) in *. set (r := (f mod m)%Z) in *.
  assert (Ef : inject_Z f == inject_Z m * inject_Z k + inject_Z r).
  { rewrite <- inject_Z_mult, <- inject_Z_plus. rewrite <- D by lia. reflexivity. }
  assert (E1 : (x - inject_Z m * inject_Z k) / 1 == x - inject_Z m * inject_Z k)
    by field.
  apply Qfloor_unique; rewrite E1; Lqa.lra.
Qed.

(** With the default of 10 digits: the letters of the 100 km square, then
    the whole metres within the square, each on five digits. *)
Lemma NorthingsEastingsToGrid_default (ntings etings : Q) :
  NorthingsEastingsToGrid ntings etings 10
  = (lp <- letter_pair (Qfloor etings / 100000) (Qfloor ntings / 100000) ;;
     Ok (lp ++ " "
         ++ Py.rjust (Py.str_int (Qfloor etings mod 100000)) 5 "0" ++ " "
         ++ Py.rjust (Py.str_int (Qfloor ntings mod 100000)) 5 "0")%string).
Proof.
  unfold NorthingsEastingsToGrid, letter_pair, floor_over_power. cbv zeta.
  change (Z.even (10 - 10)) with true. cbv iota.
  change (Qpower 10 ((10 - 10) / 2)) with 1.
  change (Z.to_nat (Py.int (inject_Z 10 / 2))) with 5%nat.
  change 100000 with (inject_Z 100000).
  rewrite !floor_div_whole, !floor_fmod_whole by lia.
  destruct (chr _) as [c1 | e1]; cbn [Py.bind]; [| reflexivity].
  destruct (chr _) as [c2 | e2]; cbn [Py.bind]; reflexivity.
Qed.

Lemma in_squares (e n : Z) :
  (0 <= e <= 6)%Z -> (0 <= n <= 12)%Z -> In (e, n) squares.
Proof.
  intros He Hn. unfold squares. apply in_prod; apply in_map_iff.
  - exists (Z.to_nat e). split; [lia | apply in_seq; lia].
  - exists (Z.to_nat n). split; [lia | apply in_seq; lia].
Qed.

Lemma squares_good : forallb good_letters squares = true.
Proof. vm_compute. reflexivity. Qed.

Lemma squares_distinct :
  forallb (fun p => forallb (fun q => implb (same_letters p q) (same_square p q))
                      squares) squares = true.
Proof. vm_compute. reflexivity. Qed.

Lemma square_of (x : Q) (m : Z) :
  0 <= x -> x < inject_Z ((m + 1) * 100000) -> (0 <= Qfloor x / 100000 <= m)%Z.
Proof.
  intros H0 H1. pose proof (Qfloor_le x) as F.
  assert (F0 : (0 <= Qfloor x)%Z) by now apply Qfloor_nonneg.
  assert (F1 : (Qfloor x < (m + 1) * 100000)%Z).
  { rewrite Zlt_Qlt. Lqa.lra. }
  split.
  - apply Z.div_pos; lia.
  - assert (Qfloor x / 100000 < m + 1)%Z by (apply Z.div_lt_upper_bound; lia).
    lia.
Qed.

Lemma metres_field (v : Z) :
  (0 <= v < 100000)%Z ->
  String.length (Py.rjust (Py.str_int v) 5 "0") = 5%nat
  /\ Py.read_digits (Py.rjust (Py.str_int v) 5 "0") 0 = Some v
  /\ Py.all_chars not_space (Py.rjust (Py.str_int v) 5 "0") = true.
Proof.
  intros Hv. rewrite str_int_nonneg by lia. split; [| split].
  - apply rjust_length.
    pose proof (digits_fuel_length (S (Z.to_nat (Z.log2 v))) v EmptyString 4) as L.
    unfold Py.digits. cbn [String.length] in L. rewrite Nat.add_0_r in L.
    apply L. change (10 ^ Z.of_nat 5)%Z with 100000%Z. lia.
  - rewrite rjust_zero_value. apply digits_value. lia.
  - apply digits_not_space, rjust_zero_all_digits, digits_all_digits. lia.
Qed.

Lemma NorthingsEastingsToGrid_in_grid (ntings etings : Q) :
  0 <= etings -> etings < 700000 -> 0 <= ntings -> ntings < 1300000 ->
  exists (c1 c2 : ascii) (e n : string),
    NorthingsEastingsToGrid ntings etings 10
    = Ok (String c1 (String c2 (" " ++ e ++ " " ++ n)))%string
    /\ letter_pair (Qfloor etings / 100000) (Qfloor ntings / 100000)
       = Ok (String c1 (String c2 ""))
    /\ In c1 ["H"; "J"; "N"; "O"; "S"; "T"]%char
    /\ is_capital c2 = true /\ c2 <> "I"%char
    /\ String.length e = 5%nat /\ String.length n = 5%nat
    /\ Py.read_digits e 0 = Some (Qfloor etings mod 100000)%Z
    /\ Py.read_digits n 0 = Some (Qfloor ntings mod 100000)%Z.
Proof.
  intros E0 E1 N0 N1. rewrite NorthingsEastingsToGrid_default.
  pose proof (square_of etings 6 E0 E1) as He.
  pose proof (square_of ntings 12 N0 N1) as Hn.
  pose proof (in_squares _ _ He Hn) as Hin.
  pose proof squares_good as G. rewrite forallb_forall in G.
  specialize (G _ Hin). unfold good_letters in G. cbn [fst snd] in G.
  destruct (letter_pair _ _) as [[| c1 [| c2 [| c3 s]]] | err];
    try discriminate G.
  apply andb_prop in G as [G G3]. apply andb_prop in G as [G1 G2].
  assert (Me : (0 <= Qfloor etings mod 100000 < 100000)%Z)
    by (apply Z.mod_pos_bound; lia).
  assert (Mn : (0 <= Qfloor ntings mod 100000 < 100000)%Z)
    by (apply Z.mod_pos_bound; lia).
  destruct (metres_field _ Me) as (Le & Ve & _).
  destruct (metres_field _ Mn) as (Ln & Vn & _).
  exists c1, c2. do 2 eexists. cbn [Py.bind].
  split; [reflexivity |]. split; [reflexivity |].
  split.
  { apply existsb_exists in G1 as (c & Hc & Ec).
    apply Ascii.eqb_eq in Ec. now subst c. }
  split; [exact G2 |].
  split.
  { intros ->. discriminate G3. }
  repeat split; assumption.
Qed.

Lemma string_app_inj (s s' t t' : string) :
  String.length s = String.length s' ->
  (s ++ t = s' ++ t')%string -> s = s' /\ t = t'.
Proof.
  revert s'. induction s as [| c s IH]; intros [| c' s'] L H;
    try discriminate L.
  - now split.
  - cbn in L, H. injection L as L. injection H as -> H.
    destruct (IH s' L H) as [-> ->]. now split.
Qed.

Lemma NorthingsEastingsToGrid_injective (ntings etings ntings' etings' : Q) :
  0 <= etings -> etings < 700000 -> 0 <= ntings -> ntings < 1300000 ->
  0 <= etings' -> etings' < 700000 -> 0 <= ntings' -> ntings' < 1300000 ->
  NorthingsEastingsToGrid ntings etings 10
  = NorthingsEastingsToGrid ntings' etings' 10 ->
  Qfloor etings = Qfloor etings' /\ Qfloor ntings = Qfloor ntings'.
Proof.
  intros E0 E1 N0 N1 E0' E1' N0' N1' H.
  destruct (NorthingsEastingsToGrid_in_grid ntings etings E0 E1 N0 N1)
    as (c1 & c2 & e & n & R & P & _ & _ & _ & Le & Ln & Ve & Vn).
  destruct (NorthingsEastingsToGrid_in_grid ntings' etings' E0' E1' N0' N1')
    as (c1' & c2' & e' & n' & R' & P' & _ & _ & _ & Le' & Ln' & Ve' & Vn').
  rewrite R, R' in H.
  injection H as Hc1 Hc2 Hs.
  destruct (string_app_inj e e' _ _ (eq_trans Le (eq_sym Le')) Hs) as [-> Hn].
  injection Hn as Hn. subst n'.
  subst c1' c2'.
  pose proof (square_of etings 6 E0 E1) as He.
  pose proof (square_of ntings 12 N0 N1) as Hq.
  pose proof (square_of etings' 6 E0' E1') as He'.
  pose proof (square_of ntings' 12 N0' N1') as Hq'.
  pose proof squares_distinct as D. rewrite forallb_forall in D.
  specialize (D _ (in_squares _ _ He Hq)). rewrite forallb_forall in D.
  specialize (D _ (in_squares _ _ He' Hq')).
  unfold same_letters, same_square in D. cbn [fst snd] in D.
  rewrite P, P', String.eqb_refl in D. cbn [implb] in D.
  apply andb_prop in D as [D1 D2].
  apply Z.eqb_eq in D1, D2.
  assert (Me : (Qfloor etings mod 100000 = Qfloor etings' mod 100000)%Z)
    by congruence.
  assert (Mn : (Qfloor ntings mod 100000 = Qfloor ntings' mod 100000)%Z)
    by congruence.
  split.
  - rewrite (Z.div_mod (Qfloor etings) 100000),
      (Z.div_mod (Qfloor etings') 100000) by lia. now rewrite D1, Me.
  - rewrite (Z.div_mod (Qfloor ntings) 100000),
      (Z.div_mod (Qfloor ntings') 100000) by lia. now rewrite D2, Mn.
Qed.

Lemma NorthingsEastingsToGrid_whole_metres (ntings etings : Q) :
  NorthingsEastingsToGrid ntings etings 10
  = NorthingsEastingsToGrid (inject_Z (Qfloor ntings)) (inject_Z (Qfloor etings)) 10.
Proof.
  rewrite !NorthingsEastingsToGrid_default. now rewrite !Qfloor_Z.
Qed.

(** A negative code that fits a C [int] is refused as a code point. *)
Lemma chr_negative (i : Z) :
  (-2147483648 <= i < 0)%Z -> chr i = Raise ValueError.
Proof.
  intros H. unfold chr.
  destruct (Z.ltb_spec i (-2147483648)); [lia |].
  destruct (Z.ltb_spec 2147483647 i); [lia |].
  destruct (Z.ltb_spec i 0); [reflexivity | lia].
Qed.

Lemma NorthingsEastingsToGrid_far_north (ntings etings : Q) (digits : Z) :
  0 <= etings -> etings < 700000 ->
  8500000 <= ntings -> ntings <= 100000000000000 ->
  NorthingsEastingsToGrid ntings etings digits = Raise ValueError.
Proof.
  intros E0 E1 N0 N1. unfold NorthingsEastingsToGrid. cbv zeta.
  change 100000 with (inject_Z 100000).
  rewrite !floor_div_whole by lia.
  change 5 with (inject_Z 5). rewrite floor_div_whole by lia.
  rewrite Qfloor_Z.
  pose proof (square_of etings 6 E0 E1) as He.
  set (e := (Qfloor etings / 100000)%Z) in *.
  assert (Hn : (85 <= Qfloor ntings / 100000)%Z).
  { apply Z.div_le_lower_bound; [lia |].
    change (100000 * 85)%Z with (Qfloor (inject_Z 8500000)).
    apply Qfloor_resp_le. exact N0. }
  assert (Hn' : (Qfloor ntings / 100000 <= 1000000000)%Z).
  { apply Z.div_le_upper_bound; [lia |].
    change (100000 * 1000000000)%Z with (Qfloor (inject_Z 100000000000000)).
    apply Qfloor_resp_le. exact N1. }
  set (n := (Qfloor ntings / 100000)%Z) in *.
  pose proof (Z.mod_pos_bound (19 - n) 5) as B.
  pose proof (Z.div_mod (e + 10) 5) as D.
  pose proof (Z.mod_pos_bound (e + 10) 5) as B'.
  pose proof (Z.div_mod (19 - n) 5) as D2.
  set (l1 := (19 - n - (19 - n) mod 5 + (e + 10) / 5)%Z).
  assert (L : (l1 <= -67)%Z) by (unfold l1; lia).
  destruct (Z.ltb_spec 7 l1) as [? | _]; [lia |].
  rewrite chr_negative; [reflexivity |].
  change (ord "A") with 65%Z. lia.
Qed.

End GridReferences.

Section PowersOfTen.

Local Open Scope R_scope.

Lemma Q2R_ten : Q2R 10 = 10.
Proof. unfold Q2R. cbn [Qnum Qden]. field. Qed.

Lemma Q2R_Qpower_ten (k : Z) : Q2R (Qpower 10 k) = Rpower 10 (IZR k).
Proof.
  rewrite RMicromega.Q2RpowerRZ by (left; discriminate).
  rewrite Q2R_ten. apply powerRZ_Rpower. lra.
Qed.

Lemma Qpower_ten_nonzero (k : Z) : ~ Qpower 10 k == 0.
Proof.
  intros H. apply Qeq_eqR in H. rewrite Q2R_Qpower_ten, RMicromega.Q2R_0 in H.
  pose proof (exp_pos (IZR k * ln 10)). unfold Rpower in H. lra.
Qed.

Lemma Qfloor_real (q : Q) : IZR (Qfloor q) <= Q2R q < IZR (Qfloor q) + 1.
Proof.
  pose proof (Qfloor_le q) as F1. pose proof (Qlt_floor q) as F2.
  apply Qle_Rle in F1. apply Qlt_Rlt in F2.
  assert (E : forall z, Q2R (inject_Z z) = IZR z).
  { intros z. unfold Q2R, inject_Z. cbn [Qnum Qden]. field. }
  rewrite E in F1, F2. rewrite plus_IZR in F2. lra.
Qed.

(** [floor_over_power] is the floor of the quotient by the real power. *)
Lemma floor_over_power_sound (x : Q) (digits : Z) :
  (0 <= x)%Q ->
  IZR (floor_over_power x digits)
  <= Q2R x / Rpower 10 (5 - IZR digits / 2)
  < IZR (floor_over_power x digits) + 1.
Proof.
  intros Hx. unfold floor_over_power. cbv zeta.
  set (h := (10 - digits)%Z).
  assert (Eh : 5 - IZR digits / 2 = IZR h / 2).
  { unfold h. rewrite minus_IZR. field. }
  rewrite Eh.
  destruct (Z.even h) eqn:Ev.
  - apply Z.even_spec in Ev as [k Hk].
    assert (Ek : (h / 2 = k)%Z) by (rewrite Hk, Z.mul_comm; apply Z.div_mul; lia).
    rewrite Ek.
    replace (IZR h / 2) with (IZR k) by (rewrite Hk, mult_IZR; field).
    rewrite <- Q2R_Qpower_ten, <- Q2R_div by apply Qpower_ten_nonzero.
    apply Qfloor_real.
  - assert (T : 0 < Rpower 10 (IZR h)) by apply exp_pos.
    assert (EP : Rpower 10 (IZR h / 2) = sqrt (Rpower 10 (IZR h))).
    { rewrite <- Rpower_sqrt by exact T. rewrite Rpower_mult. reflexivity. }
    rewrite EP.
    apply Qle_Rle in Hx. rewrite RMicromega.Q2R_0 in Hx.
    assert (EQ : Q2R x / sqrt (Rpower 10 (IZR h))
                 = sqrt (Q2R (x * x / Qpower 10 h))).
    { rewrite Q2R_div by apply Qpower_ten_nonzero.
      rewrite Q2R_mult, Q2R_Qpower_ten, sqrt_div_alt by exact T.
      now rewrite sqrt_square. }
    rewrite EQ.
    set (q := (x * x / Qpower 10 h)%Q).
    assert (Hq : 0 <= Q2R q).
    { unfold q. rewrite Q2R_div by apply Qpower_ten_nonzero.
      rewrite Q2R_mult, Q2R_Qpower_ten.
      apply Rmult_le_pos; [nra | left; now apply Rinv_0_lt_compat]. }
    pose proof (Qfloor_real q) as [F1 F2].
    assert (Hm : (0 <= Qfloor q)%Z).
    { apply le_IZR. destruct (Z_lt_le_dec (Qfloor q) 0) as [Hn | Hn].
      - assert (IZR (Qfloor q) + 1 <= 0).
        { rewrite <- plus_IZR. apply IZR_le. lia. }
        lra.
      - now apply IZR_le. }
    pose proof (Z.sqrt_spec (Qfloor q) Hm) as [S1 S2].
    pose proof (Z.sqrt_nonneg (Qfloor q)) as S0.
    set (s := Z.sqrt (Qfloor q)) in *.
    assert (S3 : (Qfloor q + 1 <= (s + 1) * (s + 1))%Z) by lia.
    apply IZR_le in S1, S0, S3.
    rewrite mult_IZR in S1. rewrite mult_IZR, !plus_IZR in S3.
    split.
    + rewrite <- (sqrt_square (IZR s)) at 1 by exact S0.
      apply sqrt_le_1_alt. lra.
    + rewrite <- (sqrt_square (IZR s + 1)) by lra.
      apply sqrt_lt_1_alt. split; [exact Hq | lra].
Qed.

End PowersOfTen.

(** X23: for a position of the national grid, an easting from 0 to below
    700000 and a northing from 0 to below 1300000, [NorthingsEastingsToGrid]
    with 10 digits returns two letters, the first among H, J, N, O, S, T and
    the second a capital other than I, then a space, five digits, a space
    and five digits; the digits are the whole metres of the easting and of
    the northing within their 100 km square. *)
Theorem NorthingsEastingsToGrid_format :
  forall ntings etings : Q,
    (0 <= etings)%Q -> (etings < 700000)%Q ->
    (0 <= ntings)%Q -> (ntings < 1300000)%Q ->
    exists (c1 c2 : ascii) (e n : string),
      NorthingsEastingsToGrid ntings etings 10
      = Ok (String c1 (String c2 (" " ++ e ++ " " ++ n)))%string
      /\ In c1 ["H"; "J"; "N"; "O"; "S"; "T"]%char
      /\ is_capital c2 = true /\ c2 <> "I"%char
      /\ String.length e = 5%nat /\ String.length n = 5%nat
      /\ Py.read_digits e 0 = Some (Qfloor etings mod 100000)%Z
      /\ Py.read_digits n 0 = Some (Qfloor ntings mod 100000)%Z.
Proof.
  intros ntings etings H1 H2 H3 H4.
  destruct (NorthingsEastingsToGrid_in_grid ntings etings H1 H2 H3 H4)
    as (c1 & c2 & e & n & R & _ & P).
  exists c1, c2, e, n. split; [exact R | exact P].
Qed.

Lemma NorthingsEastingsToGrid_format_witness :
  (0 <= 651409.903)%Q /\ (651409.903 < 700000)%Q
  /\ (0 <= 313177.27)%Q /\ (313177.27 < 1300000)%Q
  /\ exists (c1 c2 : ascii) (e n : string),
       NorthingsEastingsToGrid 313177.27 651409.903 10
       = Ok (String c1 (String c2 (" " ++ e ++ " " ++ n)))%string
       /\ In c1 ["H"; "J"; "N"; "O"; "S"; "T"]%char
       /\ is_capital c2 = true /\ c2 <> "I"%char
       /\ String.length e = 5%nat /\ String.length n = 5%nat
       /\ Py.read_digits e 0 = Some (Qfloor 651409.903 mod 100000)%Z
       /\ Py.read_digits n 0 = Some (Qfloor 313177.27 mod 100000)%Z.
Proof.
  assert (H1 : (0 <= 651409.903)%Q) by (vm_compute; discriminate).
  assert (H2 : (651409.903 < 700000)%Q) by reflexivity.
  assert (H3 : (0 <= 313177.27)%Q) by (vm_compute; discriminate).
  assert (H4 : (313177.27 < 1300000)%Q) by reflexivity.
  split; [exact H1 | split; [exact H2 | split; [exact H3 | split; [exact H4 |]]]].
  exact (NorthingsEastingsToGrid_format 313177.27 651409.903 H1 H2 H3 H4).
Defined.

(** X24: within the national grid, the reference with 10 digits names one
    square metre: two positions with the same reference have the same whole
    metres of easting and of northing. *)
Theorem NorthingsEastingsToGrid_names_one_metre :
  forall ntings etings ntings' etings' : Q,
    (0 <= etings)%Q -> (etings < 700000)%Q ->
    (0 <= ntings)%Q -> (ntings < 1300000)%Q ->
    (0 <= etings')%Q -> (etings' < 700000)%Q ->
    (0 <= ntings')%Q -> (ntings' < 1300000)%Q ->
    NorthingsEastingsToGrid ntings etings 10
    = NorthingsEastingsToGrid ntings' etings' 10 ->
    Qfloor etings = Qfloor etings' /\ Qfloor ntings = Qfloor ntings'.
Proof.
  intros ntings etings ntings' etings' H1 H2 H3 H4 H5 H6 H7 H8 H9.
  exact (NorthingsEastingsToGrid_injective ntings etings ntings' etings'
           H1 H2 H3 H4 H5 H6 H7 H8 H9).
Qed.

Lemma NorthingsEastingsToGrid_names_one_metre_witness :
  (0 <= 651409.903)%Q /\ (651409.903 < 700000)%Q
  /\ (0 <= 313177.27)%Q /\ (313177.27 < 1300000)%Q
  /\ (0 <= 651409.2)%Q /\ (651409.2 < 700000)%Q
  /\ (0 <= 313177.9)%Q /\ (313177.9 < 1300000)%Q
  /\ NorthingsEastingsToGrid 313177.27 651409.903 10
     = NorthingsEastingsToGrid 313177.9 651409.2 10
  /\ Qfloor 651409.903 = Qfloor 651409.2
  /\ Qfloor 313177.27 = Qfloor 313177.9.
Proof.
  assert (H1 : (0 <= 651409.903)%Q) by (vm_compute; discriminate).
  assert (H2 : (651409.903 < 700000)%Q) by reflexivity.
  assert (H3 : (0 <= 313177.27)%Q) by (vm_compute; discriminate).
  assert (H4 : (313177.27 < 1300000)%Q) by reflexivity.
  assert (H5 : (0 <= 651409.2)%Q) by (vm_compute; discriminate).
  assert (H6 : (651409.2 < 700000)%Q) by reflexivity.
  assert (H7 : (0 <= 313177.9)%Q) by (vm_compute; discriminate).
  assert (H8 : (313177.9 < 1300000)%Q) by reflexivity.
  assert (H9 : NorthingsEastingsToGrid 313177.27 651409.903 10
               = NorthingsEastingsToGrid 313177.9 651409.2 10)
    by (vm_compute; reflexivity).
  split; [exact H1 | split; [exact H2 | split; [exact H3 | split; [exact H4 |
    split; [exact H5 | split; [exact H6 | split; [exact H7 | split; [exact H8 |
    split; [exact H9 |]]]]]]]]].
  exact (NorthingsEastingsToGrid_names_one_metre 313177.27 651409.903
           313177.9 651409.2 H1 H2 H3 H4 H5 H6 H7 H8 H9).
Defined.

(** X25: with 10 digits [NorthingsEastingsToGrid] drops the fractions of a
    metre and never rounds up: every position of the grid has the reference
    of its whole metres. *)
Theorem NorthingsEastingsToGrid_drops_fractions :
  forall ntings etings : Q,
    (0 <= etings)%Q -> (etings < 700000)%Q ->
    (0 <= ntings)%Q -> (ntings < 1300000)%Q ->
    NorthingsEastingsToGrid ntings etings 10
    = NorthingsEastingsToGrid (inject_Z (Qfloor ntings))
        (inject_Z (Qfloor etings)) 10.
Proof.
  intros ntings etings _ _ _ _.
  exact (NorthingsEastingsToGrid_whole_metres ntings etings).
Qed.

Lemma NorthingsEastingsToGrid_drops_fractions_witness :
  (0 <= 651409.903)%Q /\ (651409.903 < 700000)%Q
  /\ (0 <= 313177.27)%Q /\ (313177.27 < 1300000)%Q
  /\ NorthingsEastingsToGrid 313177.27 651409.903 10
     = NorthingsEastingsToGrid (inject_Z (Qfloor 313177.27))
         (inject_Z (Qfloor 651409.903)) 10.
Proof.
  assert (H1 : (0 <= 651409.903)%Q) by (vm_compute; discriminate).
  assert (H2 : (651409.903 < 700000)%Q) by reflexivity.
  assert (H3 : (0 <= 313177.27)%Q) by (vm_compute; discriminate).
  assert (H4 : (313177.27 < 1300000)%Q) by reflexivity.
  split; [exact H1 | split; [exact H2 | split; [exact H3 | split; [exact H4 |]]]].
  exact (NorthingsEastingsToGrid_drops_fractions 313177.27 651409.903
           H1 H2 H3 H4).
Defined.

(** X26: [NorthingsEastingsToGrid] does not check its arguments; for an
    easting of the grid and a northing from 8500000 metres up to 10^14
    metres the code of the first letter is negative (and still fits a C
    int), and the call raises ValueError, for every number of digits. *)
Theorem NorthingsEastingsToGrid_far_north_raises :
  forall (ntings etings : Q) (digits : Z),
    (0 <= etings)%Q -> (etings < 700000)%Q ->
    (8500000 <= ntings)%Q -> (ntings <= 100000000000000)%Q ->
    NorthingsEastingsToGrid ntings etings digits = Raise ValueError.
Proof.
  intros ntings etings digits H1 H2 H3 H4.
  exact (NorthingsEastingsToGrid_far_north ntings etings digits H1 H2 H3 H4).
Qed.

Lemma NorthingsEastingsToGrid_far_north_raises_witness :
  (0 <= 400000)%Q /\ (400000 < 700000)%Q /\ (8500000 <= 9000000)%Q
  /\ (9000000 <= 100000000000000)%Q
  /\ NorthingsEastingsToGrid 9000000 400000 8 = Raise ValueError.
Proof.
  assert (H1 : (0 <= 400000)%Q) by (vm_compute; discriminate).
  assert (H2 : (400000 < 700000)%Q) by reflexivity.
  assert (H3 : (8500000 <= 9000000)%Q) by (vm_compute; discriminate).
  assert (H4 : (9000000 <= 100000000000000)%Q) by (vm_compute; discriminate).
  split; [exact H1 | split; [exact H2 | split; [exact H3 | split; [exact H4 |]]]].
  exact (NorthingsEastingsToGrid_far_north_raises 9000000 400000 8 H1 H2 H3 H4).
Defined.

(** ** The grid file *)

Section GridFile.

Local Open Scope Q_scope.

Lemma split_free (sep : ascii) (s : string) :
  Py.all_chars (free_of sep) s = true -> Py.split sep s = [s].
Proof.
  induction s as [| c s IH]; intros H; [reflexivity |].
  cbn in H. apply andb_prop in H as [Hc Hs].
  cbn. unfold free_of in Hc. apply negb_true_iff in Hc. rewrite Hc.
  now rewrite (IH Hs).
Qed.

Lemma split_free_sep (sep : ascii) (s t : string) :
  Py.all_chars (free_of sep) s = true ->
  Py.split sep (s ++ String sep t) = s :: Py.split sep t.
Proof.
  induction s as [| c s IH]; intros H.
  - cbn. now rewrite Ascii.eqb_refl.
  - cbn in H. apply andb_prop in H as [Hc Hs].
    cbn. unfold free_of in Hc. apply negb_true_iff in Hc. rewrite Hc.
    now rewrite (IH Hs).
Qed.

Lemma split_join (sep : ascii) (words : list string) :
  words <> [] ->
  Forall (fun w => Py.all_chars (free_of sep) w = true) words ->
  Py.split sep (join sep words) = words.
Proof.
  induction words as [| w ws IH]; intros Hne Hall; [now elim Hne |].
  inversion Hall as [| ? ? Hw Hws]; subst.
  destruct ws as [| w' ws'].
  - cbn [join]. now apply split_free.
  - change (join sep (w :: w' :: ws'))
      with (w ++ String sep (join sep (w' :: ws')))%string.
    rewrite split_free_sep by exact Hw. f_equal. apply IH; [discriminate | exact Hws].
Qed.

Lemma all_chars_join (test : ascii -> bool) (sep : ascii) (words : list string) :
  test sep = true ->
  Forall (fun w => Py.all_chars test w = true) words ->
  Py.all_chars test (join sep words) = true.
Proof.
  intros Hsep. induction words as [| w ws IH]; intros Hall; [reflexivity |].
  inversion Hall as [| ? ? Hw Hws]; subst.
  destruct ws as [| w' ws']; [exact Hw |].
  change (join sep (w :: w' :: ws'))
    with (w ++ String sep (join sep (w' :: ws')))%string.
  rewrite all_chars_app, Hw. cbn [Py.all_chars andb]. rewrite Hsep.
  now apply IH.
Qed.

Lemma words_free_of_blank (words : list string) :
  Forall word words ->
  Forall (fun w => Py.all_chars (free_of " ") w = true) words.
Proof. apply Forall_impl. now intros w (_ & H & _). Qed.

Lemma words_free_of_newline (words : list string) :
  Forall word words ->
  Forall (fun w => Py.all_chars (free_of newline) w = true) words.
Proof. apply Forall_impl. now intros w (_ & _ & H). Qed.

Lemma words_nonempty (words : list string) :
  Forall word words ->
  filter (fun w => negb (String.eqb w "")) words = words.
Proof.
  induction 1 as [| w ws (Hw & _) _ IH]; [reflexivity |].
  cbn. destruct (String.eqb_spec w "") as [E | _]; [now elim Hw |].
  cbn. now rewrite IH.
Qed.

Lemma append_floats_numerals (words : list string) :
  numerals words ->
  forall current_row,
    append_floats words current_row = Ok (current_row ++ map numeral_value words).
Proof.
  induction 1 as [| w ws Hw _ IH]; intros current_row; cbn.
  - now rewrite app_nil_r.
  - rewrite Hw. cbn [Py.bind]. rewrite IH, <- app_assoc. reflexivity.
Qed.

(** The words of a line. *)
Lemma line_words (words : list string) :
  words <> [] -> Forall word words ->
  join " " words <> EmptyString
  /\ filter (fun w => negb (String.eqb w "")) (Py.split " " (join " " words))
     = words.
Proof.
  intros Hne H. split.
  - destruct words as [| w ws]; [now elim Hne |].
    inversion H as [| ? ? (Hw & _) _]; subst.
    destruct ws as [| w' ws']; [exact Hw |].
    change (join " " (w :: w' :: ws'))
      with (w ++ String " " (join " " (w' :: ws')))%string.
    destruct w; [now elim Hw | discriminate].
  - rewrite split_join; [now apply words_nonempty | exact Hne |].
    now apply words_free_of_blank.
Qed.

(** One pass of the loop of [LoadData] over a line of numerals. *)
Lemma load_line (words : list string) (rest : list string) (index : nat)
    (current_row : list Q) (heights : list (list Q)) :
  words <> [] -> Forall word words -> numerals words ->
  load_lines (join " " words :: rest) (S index) current_row heights
  = if Nat.eqb (List.length words) 1
    then load_lines rest (S (S index)) [] (heights ++ [current_row ++ map numeral_value words])
    else load_lines rest (S (S index)) (current_row ++ map numeral_value words) heights.
Proof.
  intros Hne W H. destruct (line_words words Hne W) as [L1 L2].
  cbn [load_lines].
  destruct (String.eqb_spec (join " " words) "") as [E | _]; [now elim L1 |].
  cbn [Nat.eqb]. rewrite L2, (append_floats_numerals words H). reflexivity.
Qed.

Lemma load_row_lines (lines : list (list string)) (last : string) :
  forall (rest : list string) (index : nat) (current_row : list Q)
         (heights : list (list Q)),
    Forall (fun line => (2 <= List.length line)%nat) lines ->
    Forall word (List.concat lines ++ [last]) ->
    numerals (List.concat lines ++ [last]) ->
    load_lines (map (join " ") lines ++ [last] ++ rest) (S index) current_row heights
    = load_lines rest (S index + List.length lines + 1) []
        (heights ++ [current_row ++ map numeral_value (List.concat lines ++ [last])]).
Proof.
  induction lines as [| line lines IH];
    intros rest index current_row heights HL HW HN.
  - cbn [map List.concat app List.length].
    assert (N1 : numerals [last]) by exact HN.
    assert (W1 : Forall word [last]) by exact HW.
    pose proof (load_line [last] rest index current_row heights) as P.
    cbn [join List.length Nat.eqb] in P.
    rewrite P by (discriminate || exact N1 || exact W1).
    f_equal. lia.
  - inversion HL as [| ? ? Hline Hlines]; subst.
    cbn [List.concat] in HN, HW. rewrite <- app_assoc in HN, HW.
    unfold numerals in HN. apply Forall_app in HN as [HN1 HN2].
    apply Forall_app in HW as [HW1 HW2].
    cbn [map app].
    assert (Hne : line <> []) by (destruct line; [cbn in Hline; lia | discriminate]).
    rewrite (load_line line _ index current_row heights Hne HW1 HN1).
    destruct (Nat.eqb_spec (List.length line) 1) as [E | _]; [lia |].
    rewrite (IH rest (S index) _ heights Hlines HW2 HN2).
    cbn [List.concat List.length]. rewrite !map_app, <- !app_assoc.
    f_equal. lia.
Qed.

Lemma load_rows (rows : list file_row) (rest : list string) :
  forall (index : nat) (heights : list (list Q)),
    Forall well_formed rows ->
    exists index',
      load_lines (flat_map row_lines rows ++ rest) (S index) [] heights
      = load_lines rest (S index') []
          (heights ++ map (fun row => map numeral_value (row_words row)) rows).
Proof.
  induction rows as [| [lines last] rows IH]; intros index heights H.
  - exists index. cbn. now rewrite app_nil_r.
  - inversion H as [| ? ? (W1 & W2 & W3) Hrows]; subst.
    cbn [flat_map]. unfold row_lines at 1. cbn [fst snd] in *.
    rewrite <- !app_assoc.
    rewrite (load_row_lines lines last _ index [] heights W1 W2 W3).
    replace (S index + List.length lines + 1)%nat
      with (S (index + List.length lines + 1)) by lia.
    destruct (IH (index + List.length lines + 1)%nat
                (heights ++ [[] ++ map numeral_value (List.concat lines ++ [last])])
                Hrows) as [index' ->].
    exists index'. cbn [app map]. unfold row_words at 2.
    cbn [fst snd]. now rewrite <- app_assoc.
Qed.

Lemma load_blank_lines (k : nat) :
  forall (index : nat) (current_row : list Q) (heights : list (list Q)),
    load_lines (repeat EmptyString k) index current_row heights = Ok heights.
Proof.
  induction k as [| k IH]; intros index current_row heights; [reflexivity |].
  cbn [repeat load_lines String.eqb]. apply IH.
Qed.

Lemma row_lines_free (row : file_row) :
  well_formed row ->
  Forall (fun w => Py.all_chars (free_of newline) w = true) (row_lines row).
Proof.
  intros (W1 & W2 & _). unfold row_lines, row_words in *.
  apply Forall_app in W2 as [W2 W3].
  apply Forall_app. split.
  - apply Forall_forall. intros l Hl. apply in_map_iff in Hl as (ws & <- & Hin).
    apply all_chars_join; [reflexivity |].
    apply words_free_of_newline.
    apply Forall_forall. intros w Hw.
    rewrite Forall_forall in W2. apply W2. apply in_concat. now exists ws.
  - now apply words_free_of_newline.
Qed.

Lemma LoadData_rows (header : string) (rows : list file_row)
    (blank : nat) :
  Py.all_chars (free_of newline) header = true ->
  Forall well_formed rows ->
  LoadData (join newline
              (header :: flat_map row_lines rows ++ repeat EmptyString blank))
  = Ok (rev (map (fun row => map numeral_value (row_words row)) rows)).
Proof.
  intros Hh Hrows. unfold LoadData.
  rewrite split_join.
  - assert (E : forall l, load_lines (header :: l) 0 [] [] = load_lines l 1 [] []).
    { intros l. cbn [load_lines Nat.eqb]. now destruct (String.eqb header ""). }
    rewrite E. destruct (load_rows rows (repeat EmptyString blank) 0 [] Hrows)
      as [index' ->].
    rewrite load_blank_lines. reflexivity.
  - discriminate.
  - constructor; [exact Hh |]. apply Forall_app. split.
    + apply Forall_forall. intros l Hl. apply in_flat_map in Hl as (row & Hin & Hl).
      rewrite Forall_forall in Hrows.
      pose proof (row_lines_free row (Hrows row Hin)) as F.
      rewrite Forall_forall in F. now apply F.
    + apply Forall_forall. intros l Hl. apply repeat_spec in Hl. now subst l.
Qed.

End GridFile.

(** X27: [LoadData] reads back a grid file: after a first line, which is
    skipped whatever it holds, each row is made of lines of two words or
    more and ends with a line of one word, the words being separated by one
    blank, free of blanks and newlines and read by [float] as numbers;
    blank lines at the end are skipped.  The table holds the rows in the
    reverse order of the file, each with the numbers of its words in the
    order of the file. *)
Theorem LoadData_reads_rows :
  forall (header : string) (rows : list file_row) (blank : nat),
    Py.all_chars (free_of newline) header = true ->
    Forall well_formed rows ->
    LoadData (join newline
                (header :: flat_map row_lines rows ++ repeat EmptyString blank))
    = Ok (rev (map (fun row => map numeral_value (row_words row)) rows)).
Proof.
  intros header rows blank H1 H2. exact (LoadData_rows header rows blank H1 H2).
Qed.

Lemma LoadData_reads_rows_witness :
  Py.all_chars (free_of newline) "EGM96 grid" = true
  /\ Forall well_formed
       [([["1.5"; "-2"]; ["3"; "4"]], "5"); ([["6"; "7"; "8"; "9"]], "10")]%string
  /\ LoadData (join newline
                 ("EGM96 grid"%string
                  :: flat_map row_lines
                       [([["1.5"; "-2"]; ["3"; "4"]], "5");
                        ([["6"; "7"; "8"; "9"]], "10")]%string
                  ++ repeat EmptyString 1))
     = Ok (rev (map (fun row => map numeral_value (row_words row))
                  [([["1.5"; "-2"]; ["3"; "4"]], "5");
                   ([["6"; "7"; "8"; "9"]], "10")]%string)).
Proof.
  assert (H1 : Py.all_chars (free_of newline) "EGM96 grid" = true)
    by reflexivity.
  assert (H2 : Forall well_formed
                 [([["1.5"; "-2"]; ["3"; "4"]], "5");
                  ([["6"; "7"; "8"; "9"]], "10")]%string).
  { repeat constructor; discriminate. }
  split; [exact H1 | split; [exact H2 |]].
  exact (LoadData_reads_rows "EGM96 grid" _ 1 H1 H2).
Defined.

(** ** Locations *)

Section Locations.

Local Open Scope R_scope.

(** The two readings of a latitude differ by 90 degrees, in whichever
    convention the latitude is held. *)
Lemma GetLat_readings (self : CLocation) (lat : R) :
  Latitude self = Some lat ->
  exists s u,
    GetLat self true = Ok (Some s) /\ GetLat self false = Ok (Some u)
    /\ u = s + 90.
Proof.
  intros E. unfold GetLat. rewrite E. cbn [number Py.bind].
  destruct (LatSigned self); do 2 eexists;
    (split; [reflexivity | split; [reflexivity | lra]]).
Qed.

(** A latitude read in one convention and stored in a second location under
    that convention is read back as from the first location. *)
Lemma GetLat_transfer (self other : CLocation) (lat : R) (lon : option R)
    (held lon_signed signed : bool) (v : option R) :
  Latitude self = Some lat ->
  GetLat self held = Ok v ->
  GetLat (SetLatLon other v lon held lon_signed) signed = GetLat self signed.
Proof.
  intros E. unfold GetLat, SetLatLon. cbn [Latitude LatSigned].
  rewrite E. cbn [number Py.bind].
  destruct held, (LatSigned self), signed; intros H;
    (assert (Hv : v = Some lat) by congruence)
    || (assert (Hv : v = Some (lat + 90)) by congruence)
    || (assert (Hv : v = Some (lat - 90)) by congruence);
    rewrite Hv; cbn [number Py.bind]; try reflexivity;
    do 2 f_equal; lra.
Qed.

Lemma GetLon_round_trip (self other : CLocation) (lon : R) (lat : option R)
    (lat_signed lon_signed : bool) :
  Longitude self = Some lon -> -180 <= lon < 180 ->
  exists u,
    GetLon self false = Ok (Some u) /\ 0 <= u < 360
    /\ GetLon (SetLatLon other lat (Some u) lat_signed lon_signed) true
       = Ok (Some lon).
Proof.
  intros E [H1 H2]. unfold GetLon, SetLatLon. cbn [Longitude].
  rewrite E. cbn [number Py.bind]. unfold utils.ConvertAngle.
  destruct (Rlt_dec lon 0) as [Hn | Hn]; eexists;
    (split; [reflexivity |]); (split; [lra |]).
  - destruct (Rle_dec 180 (lon + 360)) as [_ | C]; [| exfalso; lra].
    do 2 f_equal. lra.
  - destruct (Rle_dec 180 lon) as [C | _]; [exfalso; lra | reflexivity].
Qed.

Lemma GetLatLon_without_coordinates (lat_signed lon_signed signed : bool) :
  GetLatLon (CLocation_init None None lat_signed lon_signed) signed
  = Raise TypeError.
Proof. destruct lat_signed, signed; reflexivity. Qed.

End Locations.

(** X28: a latitude of at most 360 degrees in absolute value, read from a
    location in one convention, signed or not, and stored in another
    location under that convention, is read back, in either convention, as
    from the first location, to a billionth of a degree. *)
Theorem GetLat_keeps_latitude :
  forall (self other : CLocation) (lat : R) (lon : option R)
         (held lon_signed signed : bool) (v : option R),
    Latitude self = Some lat -> (-360 <= lat <= 360)%R ->
    GetLat self held = Ok v ->
    exists a b : R,
      GetLat (SetLatLon other v lon held lon_signed) signed = Ok (Some a)
      /\ GetLat self signed = Ok (Some b)
      /\ (Rabs (a - b) <= 1 / 1000000000)%R.
Proof.
  intros self other lat lon held lon_signed signed v H1 _ H2.
  rewrite (GetLat_transfer self other lat lon held lon_signed signed v H1 H2).
  destruct (GetLat_readings self lat H1) as (s & u & Hs & Hu & _).
  destruct signed; [exists s, s | exists u, u];
    (split; [assumption | split; [assumption |]]);
    rewrite Rminus_diag, Rabs_R0; lra.
Qed.

Lemma GetLat_keeps_latitude_witness :
  Latitude (CLocation_init (Some 52%R) (Some 1%R) true true) = Some 52%R
  /\ (-360 <= 52 <= 360)%R
  /\ GetLat (CLocation_init (Some 52%R) (Some 1%R) true true) false
     = Ok (Some (52 + 90)%R)
  /\ exists a b : R,
       GetLat (SetLatLon (CLocation_init None None true true)
                 (Some (52 + 90)%R) None false true) true
       = Ok (Some a)
       /\ GetLat (CLocation_init (Some 52%R) (Some 1%R) true true) true
          = Ok (Some b)
       /\ (Rabs (a - b) <= 1 / 1000000000)%R.
Proof.
  assert (H2 : (-360 <= 52 <= 360)%R) by lra.
  split; [reflexivity | split; [exact H2 | split; [reflexivity |]]].
  exact (GetLat_keeps_latitude (CLocation_init (Some 52%R) (Some 1%R) true true)
           (CLocation_init None None true true) 52%R None false true true
           (Some (52 + 90)%R) eq_refl H2 eq_refl).
Defined.


